(** * AquariumManager: the simulation engine and its store

    A shallow embedding of [app/models.py], [app/database.py],
    [app/simulation.py] and of what the window of [app/gui.py] asks of
    the engine, and the properties of the engine's state transitions.

    Conventions of the embedding.
    - A Python [float] is a real number ([R]) and [math.exp] is the real
      exponential: the transition rules are stated and proved in exact
      arithmetic, rounding is not modelled.  What is stated of the
      engine is what does not hinge on exactness; where rounding
      decides, as for how the temperature nears its target, [Binary64]
      has the lines concerned in the arithmetic of the code.
    - A [datetime] is an integer count of microseconds since the epoch
      (the resolution of Python's [datetime]); a [timedelta] is a signed
      count of microseconds.  [datetime.now(timezone.utc)] is an input
      [now] of every operation that reads the clock.
    - A Python [int] is a [Z]; [Optional[int]] is [option Z].
    - [Aquarium] and [Fish] objects are only ever reachable through the
      engine's own collections, each from exactly one place, so they are
      modelled by value.  [Task] objects are handed to the engine by its
      callers ([mark_task_done]) and are modelled as references into a
      heap of objects.
    - The SQLite file is a record of three tables plus the AUTOINCREMENT
      counters and the number of [commit()] calls made so far. *)

From Stdlib Require Import Reals Lra ZArith.
From Stdlib Require Floats.
From stdpp Require Import gmap strings list sorting.

(** ** models.py *)

Module Aquarium.
Record t := mk {
  id : option Z;
  name : string;
  target_temperature : R;
  current_temperature : R;
  cleanliness : R;
  last_cleaned_at : Z
}.

Definition set_id (v : option Z) (a : t) : t :=
  mk v (name a) (target_temperature a) (current_temperature a)
     (cleanliness a) (last_cleaned_at a).
Definition set_target_temperature (v : R) (a : t) : t :=
  mk (id a) (name a) v (current_temperature a) (cleanliness a)
     (last_cleaned_at a).
Definition set_current_temperature (v : R) (a : t) : t :=
  mk (id a) (name a) (target_temperature a) v (cleanliness a)
     (last_cleaned_at a).
Definition set_cleanliness (v : R) (a : t) : t :=
  mk (id a) (name a) (target_temperature a) (current_temperature a) v
     (last_cleaned_at a).
Definition set_last_cleaned_at (v : Z) (a : t) : t :=
  mk (id a) (name a) (target_temperature a) (current_temperature a)
     (cleanliness a) v.
End Aquarium.

Module Fish.
Record t := mk {
  id : option Z;
  aquarium_id : Z;
  name : string;
  species : string;
  hunger : R;
  health : R;
  created_at : Z
}.

Definition set_id (v : option Z) (f : t) : t :=
  mk v (aquarium_id f) (name f) (species f) (hunger f) (health f)
     (created_at f).
Definition set_hunger (v : R) (f : t) : t :=
  mk (id f) (aquarium_id f) (name f) (species f) v (health f)
     (created_at f).
Definition set_health (v : R) (f : t) : t :=
  mk (id f) (aquarium_id f) (name f) (species f) (hunger f) v
     (created_at f).
End Fish.

Module Task.
Record t := mk {
  id : option Z;
  aquarium_id : Z;
  kind : string;
  interval_minutes : Z;
  last_run_at : Z
}.

Definition set_id (v : option Z) (k : t) : t :=
  mk v (aquarium_id k) (kind k) (interval_minutes k) (last_run_at k).
Definition set_interval_minutes (v : Z) (k : t) : t :=
  mk (id k) (aquarium_id k) (kind k) v (last_run_at k).
Definition set_last_run_at (v : Z) (k : t) : t :=
  mk (id k) (aquarium_id k) (kind k) (interval_minutes k) v.
End Task.

(** ** Python built-ins used by the engine *)

(** [max(a, b)] keeps [a] unless [b > a]; [min(a, b)] keeps [a] unless
    [b < a]. *)
Definition py_max (a b : R) : R := if Rlt_dec a b then b else a.
Definition py_min (a b : R) : R := if Rlt_dec b a then b else a.

(** [abs(x)] on floats. *)
Definition py_abs (x : R) : R := if Rlt_dec x 0 then (- x)%R else x.

(** [timedelta(minutes=n)], in microseconds. *)
Definition timedelta_minutes (n : Z) : Z := (n * 60000000)%Z.

(** [timedelta.total_seconds()]. *)
Definition total_seconds (d : Z) : R := (IZR d / 1000000)%R.

(** [x is None] / [x == k] on [Optional[int]]. *)
Definition id_is (o : option Z) (k : Z) : bool :=
  match o with
  | Some j => bool_decide (j = k)
  | None => false
  end.

(** SQL's [WHERE id = ?] with an [Optional[int]] parameter: [NULL] equals
    nothing. *)
Definition where_id (row : option Z) (param : option Z) : bool :=
  match param with
  | Some k => id_is row k
  | None => false
  end.

(** Exceptions the modelled code can raise. *)
Inductive exn :=
  | IntegrityError   (* sqlite3: a FOREIGN KEY constraint failed *)
  | RuntimeError (msg : string).

(** ** database.py *)

Module Database.
Record t := mk {
  aquariums_rows : list Aquarium.t;
  fish_rows : list Fish.t;
  tasks_rows : list Task.t;
  aquariums_seq : Z;
  fish_seq : Z;
  tasks_seq : Z;
  commits : nat
}.

Definition with_aquariums (rows : list Aquarium.t) (db : t) : t :=
  mk rows (fish_rows db) (tasks_rows db) (aquariums_seq db) (fish_seq db)
     (tasks_seq db) (commits db).
Definition with_fish (rows : list Fish.t) (db : t) : t :=
  mk (aquariums_rows db) rows (tasks_rows db) (aquariums_seq db)
     (fish_seq db) (tasks_seq db) (commits db).
Definition with_tasks (rows : list Task.t) (db : t) : t :=
  mk (aquariums_rows db) (fish_rows db) rows (aquariums_seq db)
     (fish_seq db) (tasks_seq db) (commits db).

(** [self._connection.commit()] *)
Definition commit (db : t) : t :=
  mk (aquariums_rows db) (fish_rows db) (tasks_rows db) (aquariums_seq db)
     (fish_seq db) (tasks_seq db) (S (commits db)).

(** [REFERENCES aquariums(id)] with [PRAGMA foreign_keys = ON]. *)
Definition aquarium_exists (db : t) (aquarium_id : Z) : bool :=
  existsb (fun r => id_is (Aquarium.id r) aquarium_id) (aquariums_rows db).

(** [ORDER BY id]: rows without an id do not occur in a table. *)
Definition key (o : option Z) : Z := default 0%Z o.

Definition by_id {A} (id : A → option Z) : relation A :=
  fun a b => (key (id a) ≤ key (id b))%Z.

#[global] Instance by_id_dec {A} (id : A → option Z) :
  RelDecision (by_id id).
Proof. intros a b. unfold by_id. apply _. Defined.

Definition aquariums (db : t) : list Aquarium.t :=
  merge_sort (by_id Aquarium.id) (aquariums_rows db).

Definition upsert_aquarium (db : t) (aquarium : Aquarium.t)
  : Aquarium.t * t :=
  match Aquarium.id aquarium with
  | None =>
      let lastrowid := (aquariums_seq db + 1)%Z in
      let stored := Aquarium.set_id (Some lastrowid) aquarium in
      (stored,
       commit (mk (aquariums_rows db ++ [stored]) (fish_rows db)
                  (tasks_rows db) lastrowid (fish_seq db) (tasks_seq db)
                  (commits db)))
  | Some k =>
      (aquarium,
       commit (with_aquariums
                 (map (fun r => if id_is (Aquarium.id r) k
                                then Aquarium.set_id (Some k) aquarium
                                else r)
                      (aquariums_rows db)) db))
  end.

Definition fish_for_aquarium (db : t) (aquarium_id : Z) : list Fish.t :=
  merge_sort (by_id Fish.id)
    (filter (fun r => Fish.aquarium_id r = aquarium_id) (fish_rows db)).

Definition insert_fish (db : t) (fish : Fish.t) : exn + Fish.t * t :=
  if aquarium_exists db (Fish.aquarium_id fish) then
    let lastrowid := (fish_seq db + 1)%Z in
    let stored := Fish.set_id (Some lastrowid) fish in
    inr (stored,
         commit (mk (aquariums_rows db) (fish_rows db ++ [stored])
                    (tasks_rows db) (aquariums_seq db) lastrowid
                    (tasks_seq db) (commits db)))
  else inl IntegrityError.

(** One [UPDATE fish SET hunger = ?, health = ? WHERE id = ?]. *)
Definition update_fish_row (rows : list Fish.t) (fish : Fish.t)
  : list Fish.t :=
  match Fish.id fish with
  | None => rows
  | Some k =>
      map (fun r => if id_is (Fish.id r) k
                    then Fish.set_health (Fish.health fish)
                           (Fish.set_hunger (Fish.hunger fish) r)
                    else r) rows
  end.

Definition update_fish (db : t) (fishes : list Fish.t) : t :=
  commit (with_fish (foldl update_fish_row (fish_rows db) fishes) db).

Definition delete_fish (db : t) (fish_id : Z) : t :=
  commit (with_fish
            (filter (fun r => id_is (Fish.id r) fish_id = false)
                    (fish_rows db)) db).

(** [DELETE FROM aquariums WHERE id = ?]; the fish and tasks that
    reference the row go with it ([ON DELETE CASCADE]). *)
Definition delete_aquarium (db : t) (aquarium_id : Z) : t :=
  commit (mk (filter (fun r => id_is (Aquarium.id r) aquarium_id = false)
                     (aquariums_rows db))
             (filter (fun r => Fish.aquarium_id r ≠ aquarium_id)
                     (fish_rows db))
             (filter (fun r => Task.aquarium_id r ≠ aquarium_id)
                     (tasks_rows db))
             (aquariums_seq db) (fish_seq db) (tasks_seq db) (commits db)).

Definition tasks_for_aquarium (db : t) (aquarium_id : Z) : list Task.t :=
  merge_sort (by_id Task.id)
    (filter (fun r => Task.aquarium_id r = aquarium_id) (tasks_rows db)).

Definition upsert_task (db : t) (task : Task.t) : exn + Task.t * t :=
  match Task.id task with
  | None =>
      if aquarium_exists db (Task.aquarium_id task) then
        let lastrowid := (tasks_seq db + 1)%Z in
        let stored := Task.set_id (Some lastrowid) task in
        inr (stored,
             commit (mk (aquariums_rows db) (fish_rows db)
                        (tasks_rows db ++ [stored]) (aquariums_seq db)
                        (fish_seq db) lastrowid (commits db)))
      else inl IntegrityError
  | Some k =>
      inr (task,
           commit (with_tasks
                     (map (fun r => if id_is (Task.id r) k
                                    then Task.set_last_run_at
                                           (Task.last_run_at task)
                                           (Task.set_interval_minutes
                                              (Task.interval_minutes task) r)
                                    else r)
                          (tasks_rows db)) db))
  end.

Definition update_task_timestamp (db : t) (task_id : Z) (timestamp : Z)
  : t :=
  commit (with_tasks
            (map (fun r => if id_is (Task.id r) task_id
                           then Task.set_last_run_at timestamp r
                           else r)
                 (tasks_rows db)) db).

Definition refresh_aquarium_environment (db : t) (aquarium : Aquarium.t)
    (temperature_delta cleanliness_delta : R) : Aquarium.t * t :=
  let current_temperature :=
    (Aquarium.current_temperature aquarium + temperature_delta)%R in
  let cleanliness :=
    py_max 0 (py_min 100 (Aquarium.cleanliness aquarium + cleanliness_delta))
  in
  (Aquarium.mk (Aquarium.id aquarium) (Aquarium.name aquarium)
               (Aquarium.target_temperature aquarium)
               current_temperature cleanliness
               (Aquarium.last_cleaned_at aquarium),
   commit (with_aquariums
             (map (fun r =>
                     if where_id (Aquarium.id r) (Aquarium.id aquarium)
                     then Aquarium.set_cleanliness cleanliness
                            (Aquarium.set_current_temperature
                               current_temperature r)
                     else r)
                  (aquariums_rows db)) db)).

Definition set_aquarium_cleaned (db : t) (aquarium_id : Z) (timestamp : Z)
  : t :=
  commit (with_aquariums
            (map (fun r => if id_is (Aquarium.id r) aquarium_id
                           then Aquarium.set_last_cleaned_at timestamp
                                  (Aquarium.set_cleanliness 100 r)
                           else r)
                 (aquariums_rows db)) db).
End Database.

(** ** simulation.py *)

(** What a call leaves behind: the value it returns or the exception it
    raises, and the state at that point. *)
Inductive outcome (S A : Type) :=
  | Returns (v : A) (s : S)
  | Raises (e : exn) (s : S).
Arguments Returns {S A} v s.
Arguments Raises {S A} e s.

Definition state_of {S A} (o : outcome S A) : S :=
  match o with
  | Returns _ s => s
  | Raises _ s => s
  end.

(** A [for x in xs: if p(x): ...; break] loop that mutates the first
    element satisfying [p]: the list afterwards and the element as
    mutated, or [None] when the loop falls through. *)
Fixpoint update_first {A} (p : A → bool) (f : A → A) (xs : list A)
  : option (list A * A) :=
  match xs with
  | [] => None
  | x :: rest =>
      if p x then Some (f x :: rest, f x)
      else match update_first p f rest with
           | Some (rest', y) => Some (x :: rest', y)
           | None => None
           end
  end.

(** ** database.py: ensure_defaults *)

(** [timedelta(days=n)], in microseconds. *)
Definition timedelta_days (n : Z) : Z := (n * 86400000000)%Z.

(** [for fish in ...: self.insert_fish(fish)]: an exception ends the loop
    with the rows inserted so far. *)
Fixpoint insert_fish_each (fishes : list Fish.t) (db : Database.t)
  : outcome Database.t unit :=
  match fishes with
  | [] => Returns () db
  | fish :: rest =>
      match Database.insert_fish db fish with
      | inl e => Raises e db
      | inr (_, db') => insert_fish_each rest db'
      end
  end.

(** [for task in ...: self.upsert_task(task)]. *)
Fixpoint upsert_task_each (tasks : list Task.t) (db : Database.t)
  : outcome Database.t unit :=
  match tasks with
  | [] => Returns () db
  | task :: rest =>
      match Database.upsert_task db task with
      | inl e => Raises e db
      | inr (_, db') => upsert_task_each rest db'
      end
  end.

(** [Database.ensure_defaults]; [now] is the clock reading of the call. *)
Definition ensure_defaults (now : Z) (db : Database.t)
  : outcome Database.t unit :=
  match Database.aquariums_rows db with
  | _ :: _ => Returns () db
  | [] =>
      let '(aquarium, db1) :=
        Database.upsert_aquarium db
          (Aquarium.mk None "Aquário Principal" 25 25 85
                       (now - timedelta_days 2)%Z) in
      match Aquarium.id aquarium with
      | None => Raises (RuntimeError "Falha ao inicializar aquário padrão") db1
      | Some aquarium_id =>
          let species :=
            [("Coral Blue", "Peixe-palhaço");
             ("Bolhas", "Tetra Neon");
             ("Foguete", "Guppy")] in
          match insert_fish_each
                  (map (fun '(name, sp) =>
                          Fish.mk None aquarium_id name sp 45 82 now)
                       species) db1 with
          | Raises e db2 => Raises e db2
          | Returns _ db2 =>
              let reminders :=
                [("alimentacao", 240%Z);
                 ("limpeza", 1440%Z);
                 ("temperatura", 180%Z)] in
              upsert_task_each
                (map (fun '(kind, interval) =>
                        Task.mk None aquarium_id kind interval
                                (now - timedelta_minutes interval)%Z)
                     reminders) db2
          end
      end
  end.

Module SimulationEngine.
Record t := mk {
  _database : Database.t;
  _aquariums : list Aquarium.t;
  _fish : gmap Z (list Fish.t);
  _tasks : gmap Z (list nat);
  _last_tick : Z
}.

(** The engine together with the [Task] objects of the program; the
    lists in [_tasks] hold indices into [objects]. *)
Record world := World {
  objects : list Task.t;
  self : t
}.

Definition aquariums (s : t) : list Aquarium.t := _aquariums s.

Definition fish_for (s : t) (aquarium_id : Z) : list Fish.t :=
  default [] (_fish s !! aquarium_id).

Definition tasks_for (s : t) (aquarium_id : Z) : list nat :=
  default [] (_tasks s !! aquarium_id).

(** *** tick *)

(** Lines 52-54: the aquarium's own update. *)
Definition tick_aquarium (minutes : R) (aquarium : Aquarium.t)
  : Aquarium.t :=
  let adjustment_ratio := (1 - exp (- minutes / 18))%R in
  let current_temperature :=
    (Aquarium.current_temperature aquarium
     + (Aquarium.target_temperature aquarium
        - Aquarium.current_temperature aquarium) * adjustment_ratio)%R in
  let cleanliness :=
    py_max 0 (Aquarium.cleanliness aquarium - minutes * 0.18)%R in
  Aquarium.set_cleanliness cleanliness
    (Aquarium.set_current_temperature current_temperature aquarium).

(** Lines 57-66: one fish, [aquarium] being the aquarium as already
    updated by lines 52-54. *)
Definition tick_fish (minutes : R) (aquarium : Aquarium.t) (fish : Fish.t)
  : Fish.t :=
  let hunger := py_min 100 (Fish.hunger fish + minutes * 0.45)%R in
  let penalty := 0%R in
  let penalty :=
    if Rgt_dec hunger 70
    then (penalty + (hunger - 70) * 0.02 * minutes)%R else penalty in
  let temperature_gap :=
    py_abs (Aquarium.current_temperature aquarium
            - Aquarium.target_temperature aquarium)%R in
  let penalty :=
    if Rgt_dec temperature_gap 2.5
    then (penalty + (temperature_gap - 2.5) * 0.5 * minutes)%R
    else penalty in
  let penalty :=
    if Rlt_dec (Aquarium.cleanliness aquarium) 40
    then (penalty + (40 - Aquarium.cleanliness aquarium) * 0.01 * minutes)%R
    else penalty in
  Fish.set_health (py_max 10 (py_min 100 (Fish.health fish - penalty)%R))
    (Fish.set_hunger hunger fish).

(** Lines 49-68: the loop over [self._aquariums], threading the store and
    the fish dictionary; the list lives in the dictionary and is mutated
    in place, a missing key yields a fresh empty list that is dropped. *)
Fixpoint tick_loop (minutes : R) (aquariums : list Aquarium.t)
    (db : Database.t) (fish : gmap Z (list Fish.t))
  : list Aquarium.t * Database.t * gmap Z (list Fish.t) :=
  match aquariums with
  | [] => ([], db, fish)
  | aquarium :: rest =>
      match Aquarium.id aquarium with
      | None =>
          let '(rest', db', fish') := tick_loop minutes rest db fish in
          (aquarium :: rest', db', fish')
      | Some k =>
          let aquarium' := tick_aquarium minutes aquarium in
          let fishes :=
            map (tick_fish minutes aquarium') (default [] (fish !! k)) in
          let fish1 := alter (fun _ => fishes) k fish in
          let db1 := Database.update_fish db fishes in
          let db2 := (Database.upsert_aquarium db1 aquarium').2 in
          let '(rest', db', fish') := tick_loop minutes rest db2 fish1 in
          (aquarium' :: rest', db', fish')
      end
  end.

Definition tick (now : Z) (s : t) : t :=
  let elapsed := (now - _last_tick s)%Z in
  if (elapsed <=? 0)%Z then s
  else
    let minutes := (total_seconds elapsed / 60)%R in
    let '(aquariums', db', fish') :=
      tick_loop minutes (_aquariums s) (_database s) (_fish s) in
    mk db' aquariums' fish' (_tasks s) now.

(** *** Commands on aquariums and fish *)

Definition feed_one (fish : Fish.t) : Fish.t :=
  let hunger := py_max 0 (Fish.hunger fish - 45)%R in
  let health := py_min 100 (Fish.health fish + 8)%R in
  Fish.set_health health (Fish.set_hunger hunger fish).

Definition feed_fish (aquarium_id : Z) (s : t) : t :=
  let fishes := default [] (_fish s !! aquarium_id) in
  let updated := map feed_one fishes in
  match updated with
  | [] => s
  | _ :: _ =>
      mk (Database.update_fish (_database s) updated) (_aquariums s)
         (<[aquarium_id := updated]> (_fish s)) (_tasks s) (_last_tick s)
  end.

Definition clean_aquarium (now : Z) (aquarium_id : Z) (s : t) : t :=
  let timestamp := now in
  match update_first (fun a => id_is (Aquarium.id a) aquarium_id)
          (fun a => Aquarium.set_last_cleaned_at timestamp
                      (Aquarium.set_cleanliness 100 a))
          (_aquariums s) with
  | Some (aquariums', _) =>
      mk (Database.set_aquarium_cleaned (_database s) aquarium_id timestamp)
         aquariums' (_fish s) (_tasks s) (_last_tick s)
  | None => s
  end.

Definition adjust_temperature (aquarium_id : Z) (target_temperature : R)
    (s : t) : t :=
  match update_first (fun a => id_is (Aquarium.id a) aquarium_id)
          (Aquarium.set_target_temperature target_temperature)
          (_aquariums s) with
  | Some (aquariums', aquarium) =>
      mk (Database.upsert_aquarium (_database s) aquarium).2
         aquariums' (_fish s) (_tasks s) (_last_tick s)
  | None => s
  end.

Definition register_temperature (aquarium_id : Z) (current_temperature : R)
    (s : t) : t :=
  match update_first (fun a => id_is (Aquarium.id a) aquarium_id)
          (Aquarium.set_current_temperature current_temperature)
          (_aquariums s) with
  | Some (aquariums', aquarium) =>
      mk (Database.upsert_aquarium (_database s) aquarium).2
         aquariums' (_fish s) (_tasks s) (_last_tick s)
  | None => s
  end.

Definition create_aquarium (now : Z) (name : string) (target_temperature : R)
    (s : t) : outcome t Aquarium.t :=
  let aquarium :=
    Aquarium.mk None name target_temperature target_temperature 90 now in
  let '(stored, db) := Database.upsert_aquarium (_database s) aquarium in
  match Aquarium.id stored with
  | None =>
      Raises (RuntimeError "Falha ao criar aquário")
             (mk db (_aquariums s) (_fish s) (_tasks s) (_last_tick s))
  | Some k =>
      Returns stored
        (mk db (_aquariums s ++ [stored]) (<[k := []]> (_fish s))
            (<[k := []]> (_tasks s)) (_last_tick s))
  end.

Definition create_fish (now : Z) (aquarium_id : Z) (name species : string)
    (s : t) : outcome t Fish.t :=
  let fish := Fish.mk None aquarium_id name species 35 95 now in
  match Database.insert_fish (_database s) fish with
  | inl e => Raises e s
  | inr (stored, db) =>
      let fishes := default [] (_fish s !! aquarium_id) in
      Returns stored
        (mk db (_aquariums s) (<[aquarium_id := fishes ++ [stored]]> (_fish s))
            (_tasks s) (_last_tick s))
  end.

Definition remove_fish (fish_id : Z) (aquarium_id : Z) (s : t) : t :=
  let fishes := default [] (_fish s !! aquarium_id) in
  mk (Database.delete_fish (_database s) fish_id) (_aquariums s)
     (<[aquarium_id :=
          filter (fun fish => id_is (Fish.id fish) fish_id = false) fishes]>
        (_fish s))
     (_tasks s) (_last_tick s).

(** *** Tasks *)

Definition task_due (now : Z) (task : Task.t) : bool :=
  let threshold :=
    (Task.last_run_at task + timedelta_minutes (Task.interval_minutes task))%Z
  in
  (now >=? threshold)%Z.

Definition add_task (now : Z) (aquarium_id : Z) (kind : string)
    (interval_minutes : Z) (w : world) : outcome world nat :=
  let s := self w in
  let task :=
    Task.mk None aquarium_id kind interval_minutes
            (now - timedelta_minutes interval_minutes)%Z in
  match Database.upsert_task (_database s) task with
  | inl e => Raises e w
  | inr (stored, db) =>
      let ref := length (objects w) in
      let tasks := default [] (_tasks s !! aquarium_id) in
      Returns ref
        (World (objects w ++ [stored])
               (mk db (_aquariums s) (_fish s)
                   (<[aquarium_id := tasks ++ [ref]]> (_tasks s))
                   (_last_tick s)))
  end.

(** The inner loop of [due_tasks] for one aquarium. *)
Definition due_in (now : Z) (objects : list Task.t) (aquarium : Aquarium.t)
    (tasks : list nat) : list (nat * Aquarium.t) :=
  flat_map (fun ref =>
              match objects !! ref with
              | Some task =>
                  if task_due now task then [(ref, aquarium)] else []
              | None => []
              end) tasks.

Definition due_tasks (now : Z) (w : world) : list (nat * Aquarium.t) :=
  flat_map (fun aquarium =>
              match Aquarium.id aquarium with
              | None => []
              | Some k =>
                  due_in now (objects w) aquarium
                         (default [] (_tasks (self w) !! k))
              end) (_aquariums (self w)).

(** [task] is a reference to a live object; an index outside [objects]
    denotes none and the call is then the identity. *)
Definition mark_task_done (now : Z) (task : nat) (w : world)
  : outcome world unit :=
  let s := self w in
  match objects w !! task with
  | None => Returns () w
  | Some obj =>
      let persisted :=
        match Task.id obj with
        | None =>
            match Database.upsert_task (_database s) obj with
            | inl e => inl e
            | inr (stored, db) => inr (Task.set_id (Task.id stored) obj, db)
            end
        | Some _ => inr (obj, _database s)
        end in
      match persisted with
      | inl e => Raises e w
      | inr (obj1, db1) =>
          let obj2 := Task.set_last_run_at now obj1 in
          let db2 :=
            match Task.id obj2 with
            | Some k => Database.update_task_timestamp db1 k now
            | None => db1
            end in
          Returns ()
            (World (<[task := obj2]> (objects w))
                   (mk db2 (_aquariums s) (_fish s) (_tasks s)
                       (_last_tick s)))
      end
  end.

(** *** reload and delete_aquarium *)

(** The dictionary comprehension of [_fish]. *)
Definition load_fish (db : Database.t) (aquariums : list Aquarium.t)
  : gmap Z (list Fish.t) :=
  foldl (fun m aquarium =>
           match Aquarium.id aquarium with
           | Some k => <[k := Database.fish_for_aquarium db k]> m
           | None => m
           end) ∅ aquariums.

(** The dictionary comprehension of [_tasks]: every row read becomes a
    new object. *)
Definition load_tasks (db : Database.t) (aquariums : list Aquarium.t)
    (objects : list Task.t) : list Task.t * gmap Z (list nat) :=
  foldl (fun '(objs, m) aquarium =>
           match Aquarium.id aquarium with
           | Some k =>
               let rows := Database.tasks_for_aquarium db k in
               (objs ++ rows,
                <[k := seq (length objs) (length rows)]> m)
           | None => (objs, m)
           end) (objects, ∅) aquariums.

Definition reload (now : Z) (w : world) : world :=
  let db := _database (self w) in
  let aquariums := Database.aquariums db in
  let fish := load_fish db aquariums in
  let '(objs, tasks) := load_tasks db aquariums (objects w) in
  World objs (mk db aquariums fish tasks now).

Definition delete_aquarium (now : Z) (aquarium_id : Z) (w : world) : world :=
  let s := self w in
  reload now
    (World (objects w)
           (mk (Database.delete_aquarium (_database s) aquarium_id)
               (_aquariums s) (_fish s) (_tasks s) (_last_tick s))).
(** *** __init__ *)

(** [SimulationEngine(database)]: the clock is read once for [_last_tick]
    and once more by [reload], which overwrites it.  [objects] are the
    task objects that exist when the engine is built. *)
Definition __init__ (now0 now : Z) (database : Database.t)
    (objects : list Task.t) : world :=
  reload now (World objects (mk database [] ∅ ∅ now0)).

End SimulationEngine.

(** ** simulation.py, lines 52-53, in the arithmetic of the code *)

(** Python's [float] is IEEE 754 binary64 with round to nearest, ties to
    even, which is what the primitive floats compute.  [math.exp] is not
    among their operations: its value is an argument. *)
Module Binary64.
Import Floats.

(** [adjustment_ratio = 1.0 - math.exp(-minutes / 18.0)], given the value
    [math.exp] returned. *)
Definition adjustment_ratio (exp_value : float) : float :=
  (1 - exp_value)%float.

(** [aquarium.current_temperature +=
       (aquarium.target_temperature - aquarium.current_temperature)
       * adjustment_ratio] *)
Definition current_temperature (current_temperature target_temperature
    adjustment_ratio : float) : float :=
  (current_temperature
   + (target_temperature - current_temperature) * adjustment_ratio)%float.
End Binary64.

(** ** gui.py: what AquariumWindow asks of the engine *)

(** The handlers of the window, as far as the engine is concerned: the
    selected aquarium, the answers of the dialogs and the clock readings
    are arguments, and what is only drawn on the widgets is left out. *)
Module AquariumWindow.

Definition _current_aquarium (_selected_aquarium : option Z)
    (w : SimulationEngine.world) : option Aquarium.t :=
  match _selected_aquarium with
  | None => None
  | Some k =>
      find (fun aquarium => id_is (Aquarium.id aquarium) k)
           (SimulationEngine.aquariums (SimulationEngine.self w))
  end.

(** [aquarium = self._current_aquarium()] followed by
    [if aquarium is None or aquarium.id is None: ...; return]. *)
Definition selected_id (_selected_aquarium : option Z)
    (w : SimulationEngine.world) : option Z :=
  match _current_aquarium _selected_aquarium w with
  | None => None
  | Some aquarium => Aquarium.id aquarium
  end.

Definition _handle_simulation_tick (now : Z) (w : SimulationEngine.world)
  : SimulationEngine.world :=
  SimulationEngine.World (SimulationEngine.objects w)
    (SimulationEngine.tick now (SimulationEngine.self w)).

Definition _find_task (now : Z) (aquarium_id : Z) (kind : string)
    (w : SimulationEngine.world) : outcome SimulationEngine.world nat :=
  let tasks :=
    SimulationEngine.tasks_for (SimulationEngine.self w) aquarium_id in
  match find (fun ref =>
                match SimulationEngine.objects w !! ref with
                | Some task => bool_decide (Task.kind task = kind)
                | None => false
                end) tasks with
  | Some ref => Returns ref w
  | None => SimulationEngine.add_task now aquarium_id kind 240 w
  end.

Definition _handle_feed (_selected_aquarium : option Z) (now1 now2 : Z)
    (w : SimulationEngine.world) : outcome SimulationEngine.world unit :=
  match selected_id _selected_aquarium w with
  | None => Returns () w
  | Some k =>
      let w1 :=
        SimulationEngine.World (SimulationEngine.objects w)
          (SimulationEngine.feed_fish k (SimulationEngine.self w)) in
      match _find_task now1 k "alimentacao" w1 with
      | Raises e w2 => Raises e w2
      | Returns task w2 => SimulationEngine.mark_task_done now2 task w2
      end
  end.

Definition _handle_clean (_selected_aquarium : option Z) (now0 now1 now2 : Z)
    (w : SimulationEngine.world) : outcome SimulationEngine.world unit :=
  match selected_id _selected_aquarium w with
  | None => Returns () w
  | Some k =>
      let w1 :=
        SimulationEngine.World (SimulationEngine.objects w)
          (SimulationEngine.clean_aquarium now0 k (SimulationEngine.self w))
      in
      match _find_task now1 k "limpeza" w1 with
      | Raises e w2 => Raises e w2
      | Returns task w2 => SimulationEngine.mark_task_done now2 task w2
      end
  end.

Definition _handle_temperature (_selected_aquarium : option Z) (target : R)
    (w : SimulationEngine.world) : SimulationEngine.world :=
  match selected_id _selected_aquarium w with
  | None => w
  | Some k =>
      SimulationEngine.World (SimulationEngine.objects w)
        (SimulationEngine.adjust_temperature k target
           (SimulationEngine.self w))
  end.

(** From the call of [create_aquarium] on: [name] is [name.strip()] and
    [target] the accepted temperature. *)
Definition _handle_add_aquarium (now0 now1 now2 now3 : Z) (name : string)
    (target : R) (w : SimulationEngine.world)
  : outcome SimulationEngine.world unit :=
  match SimulationEngine.create_aquarium now0 name target
          (SimulationEngine.self w) with
  | Raises e s => Raises e (SimulationEngine.World (SimulationEngine.objects w) s)
  | Returns aquarium s =>
      let w0 := SimulationEngine.World (SimulationEngine.objects w) s in
      match Aquarium.id aquarium with
      | None => Returns () w0
      | Some k =>
          match SimulationEngine.add_task now1 k "alimentacao" 240 w0 with
          | Raises e w1 => Raises e w1
          | Returns _ w1 =>
              match SimulationEngine.add_task now2 k "limpeza" 1440 w1 with
              | Raises e w2 => Raises e w2
              | Returns _ w2 =>
                  match SimulationEngine.add_task now3 k "temperatura" 180 w2
                  with
                  | Raises e w3 => Raises e w3
                  | Returns _ w3 => Returns () w3
                  end
              end
          end
      end
  end.

(** From the call of [create_fish] on. *)
Definition _handle_add_fish (_selected_aquarium : option Z) (now : Z)
    (name species : string) (w : SimulationEngine.world)
  : outcome SimulationEngine.world unit :=
  match selected_id _selected_aquarium w with
  | None => Returns () w
  | Some k =>
      match SimulationEngine.create_fish now k name species
              (SimulationEngine.self w) with
      | Raises e s =>
          Raises e (SimulationEngine.World (SimulationEngine.objects w) s)
      | Returns _ s =>
          Returns () (SimulationEngine.World (SimulationEngine.objects w) s)
      end
  end.

(** [row] is [self._fish_table.currentRow()] and [confirmed] the answer
    to the question. *)
Definition _handle_remove_fish (_selected_aquarium : option Z) (row : Z)
    (confirmed : bool) (w : SimulationEngine.world)
  : SimulationEngine.world :=
  match selected_id _selected_aquarium w with
  | None => w
  | Some k =>
      if (row <? 0)%Z then w
      else
        let fishes :=
          SimulationEngine.fish_for (SimulationEngine.self w) k in
        match fishes !! Z.to_nat row with
        | None => w
        | Some fish =>
            if confirmed then
              match Fish.id fish with
              | Some fish_id =>
                  SimulationEngine.World (SimulationEngine.objects w)
                    (SimulationEngine.remove_fish fish_id k
                       (SimulationEngine.self w))
              | None => w
              end
            else w
        end
  end.

(** From the call of [add_task] on: [kind] is [kind.strip().lower()]. *)
Definition _handle_add_task (_selected_aquarium : option Z) (now : Z)
    (kind : string) (interval : Z) (w : SimulationEngine.world)
  : outcome SimulationEngine.world unit :=
  match selected_id _selected_aquarium w with
  | None => Returns () w
  | Some k =>
      match SimulationEngine.add_task now k kind interval w with
      | Raises e w1 => Raises e w1
      | Returns _ w1 => Returns () w1
      end
  end.

Definition _handle_complete_task (_selected_aquarium : option Z) (row : Z)
    (now : Z) (w : SimulationEngine.world)
  : outcome SimulationEngine.world unit :=
  match selected_id _selected_aquarium w with
  | None => Returns () w
  | Some k =>
      if (row <? 0)%Z then Returns () w
      else
        let tasks :=
          SimulationEngine.tasks_for (SimulationEngine.self w) k in
        match tasks !! Z.to_nat row with
        | None => Returns () w
        | Some task => SimulationEngine.mark_task_done now task w
        end
  end.

Definition _handle_remove_aquarium (_selected_aquarium : option Z)
    (confirmed : bool) (now : Z) (w : SimulationEngine.world)
  : SimulationEngine.world :=
  match selected_id _selected_aquarium w with
  | None => w
  | Some k =>
      if (length (SimulationEngine.aquariums (SimulationEngine.self w))
          <=? 1)%nat
      then w
      else if confirmed then SimulationEngine.delete_aquarium now k w
      else w
  end.

(** The text of the next-task metric in [_update_metrics]. *)
Inductive next_label :=
  | Dashes                        (* "--" *)
  | Agora                         (* "Agora" *)
  | HoursMinutes (hours minutes : Z)   (* "{hours}h {minutes}min" *)
  | Minutes (minutes : Z).        (* "{minutes}min" *)

(** The loop that keeps the task with the earliest due time. *)
Definition soonest_due (tasks : list Task.t) : option (Task.t * Z) :=
  foldl (fun soonest task =>
           let due :=
             (Task.last_run_at task
              + timedelta_minutes (Task.interval_minutes task))%Z in
           match soonest with
           | None => Some (task, due)
           | Some (_, best) =>
               if (due <? best)%Z then Some (task, due) else soonest
           end) None tasks.

Definition next_task_label (now : Z) (tasks : list Task.t) : next_label :=
  match soonest_due tasks with
  | None => Dashes
  | Some (_, due) =>
      if (due <=? now)%Z then Agora
      else
        let remaining := (due - now)%Z in
        let minutes := Int_part (total_seconds remaining / 60) in
        let hours := (minutes / 60)%Z in
        let minutes := (minutes mod 60)%Z in
        if (hours >? 0)%Z then HoursMinutes hours minutes
        else Minutes minutes
  end.
End AquariumWindow.

(** * The vocabulary of the specification *)

Import SimulationEngine.

(** ** The clock *)

(** Minutes elapsed since the last tick, as [tick] computes them. *)
Definition elapsed_minutes (now : Z) (s : t) : R :=
  (total_seconds (now - _last_tick s) / 60)%R.

(** ** The loop of [tick] *)

(** What the loop does to one cached aquarium. *)
Definition tick_cached (minutes : R) (a : Aquarium.t) : Aquarium.t :=
  match Aquarium.id a with
  | Some _ => tick_aquarium minutes a
  | None => a
  end.

(** The ids of the cached aquariums, in cache order. *)
Definition cached_ids (l : list Aquarium.t) : list Z := omap Aquarium.id l.

(** ** The three stressors

    The penalties on health, as the specification words them. *)

Definition hunger_penalty (Δ hunger : R) : R :=
  if Rlt_dec 70 hunger then ((hunger - 70) * 0.02 * Δ)%R else 0%R.
Definition temperature_penalty (Δ gap : R) : R :=
  if Rlt_dec 2.5 gap then ((gap - 2.5) * 0.5 * Δ)%R else 0%R.
Definition cleanliness_penalty (Δ cleanliness : R) : R :=
  if Rlt_dec cleanliness 40 then ((40 - cleanliness) * 0.01 * Δ)%R else 0%R.

(** ** Calls and unknown identities *)

(** A method that has no [raise] on any of its paths, seen as a call. *)
Definition call {S} (f : S → S) (s : S) : outcome S unit := Returns () (f s).

Definition raises {S A} (o : outcome S A) : Prop :=
  match o with
  | Raises _ _ => True
  | Returns _ _ => False
  end.

(** An aquarium id the cache knows nothing about. *)
Definition unknown_aquarium (k : Z) (s : t) : Prop :=
  (∀ a, a ∈ _aquariums s → Aquarium.id a ≠ Some k) ∧
  _fish s !! k = None ∧ _tasks s !! k = None.

(** ** The bounds on cleanliness, hunger and health *)

Definition aquarium_ok (a : Aquarium.t) : Prop :=
  (0 <= Aquarium.cleanliness a <= 100)%R.

Definition fish_ok (f : Fish.t) : Prop :=
  (0 <= Fish.hunger f <= 100)%R ∧ (10 <= Fish.health f <= 100)%R.

Definition fish_cache_ok (m : gmap Z (list Fish.t)) : Prop :=
  ∀ k fs, m !! k = Some fs → Forall fish_ok fs.

Definition store_ok (db : Database.t) : Prop :=
  Forall aquarium_ok (Database.aquariums_rows db) ∧
  Forall fish_ok (Database.fish_rows db).

(** The invariants hold of every aquarium and fish the engine holds, in
    its cache and in its store. *)
Definition engine_ok (s : t) : Prop :=
  Forall aquarium_ok (_aquariums s) ∧
  fish_cache_ok (_fish s) ∧
  store_ok (_database s).

Ltac clamp :=
  unfold py_max, py_min in *;
  repeat match goal with
         | |- context [Rlt_dec ?x ?y] => destruct (Rlt_dec x y)
         end;
  try lra.

(** ** The states the engine can reach *)

(** The primary key of a table: every row has an id, at most the
    AUTOINCREMENT counter, and no id occurs twice. *)
Definition primary_key (seq : Z) (ids : list (option Z)) : Prop :=
  Forall (fun o => ∃ k, o = Some k ∧ (k ≤ seq)%Z) ids ∧ NoDup ids.

Definition engine_wf (s : t) : Prop :=
  primary_key (Database.aquariums_seq (_database s))
    (map Aquarium.id (Database.aquariums_rows (_database s))) ∧
  map Aquarium.id (_aquariums s)
    ≡ₚ map Aquarium.id (Database.aquariums_rows (_database s)) ∧
  (∀ k, is_Some (_tasks s !! k) → Some k ∈ map Aquarium.id (_aquariums s)).

(** ** A concrete engine *)

Definition sample_aquarium : Aquarium.t :=
  Aquarium.mk (Some 1%Z) "Aquário Principal" 25 25 85 0.

Definition sample_fish : Fish.t :=
  Fish.mk (Some 1%Z) 1 "Bolhas" "Tetra Neon" 60 82 0.

Definition sample_task : Task.t :=
  Task.mk (Some 1%Z) 1 "alimentacao" 240 0.

Definition sample_database : Database.t :=
  Database.mk [sample_aquarium] [sample_fish] [sample_task] 1 1 1 4.

Definition sample_engine : t :=
  mk sample_database [sample_aquarium] {[1%Z := [sample_fish]]}
     {[1%Z := [0%nat]]} 0.

Definition sample_world : world := World [sample_task] sample_engine.

(** ** The tables of the store *)

(** Rows in strictly increasing order of their ids. *)
Definition id_lt {A} (id : A → option Z) : relation A :=
  fun a b => (Database.key (id a) < Database.key (id b))%Z.

(** A table as SQLite keeps it: every row has an id, no greater than the
    AUTOINCREMENT counter, and the rows lie in increasing id order (a row
    is inserted with an id above all others, and never changes it). *)
Definition table_wf {A} (id : A → option Z) (seq : Z) (rows : list A)
  : Prop :=
  Forall (fun r => ∃ k, id r = Some k ∧ (k ≤ seq)%Z) rows ∧
  StronglySorted (id_lt id) rows.

(** The three tables, and the two foreign keys into [aquariums]. *)
Definition store_wf (db : Database.t) : Prop :=
  table_wf Aquarium.id (Database.aquariums_seq db)
    (Database.aquariums_rows db) ∧
  table_wf Fish.id (Database.fish_seq db) (Database.fish_rows db) ∧
  table_wf Task.id (Database.tasks_seq db) (Database.tasks_rows db) ∧
  Forall (fun r => Database.aquarium_exists db (Fish.aquarium_id r) = true)
    (Database.fish_rows db) ∧
  Forall (fun r => Database.aquarium_exists db (Task.aquarium_id r) = true)
    (Database.tasks_rows db).

Ltac clamp_all :=
  unfold py_max, py_min in *;
  repeat match goal with
         | H : context [Rlt_dec ?x ?y] |- _ => destruct (Rlt_dec x y)
         | |- context [Rlt_dec ?x ?y] => destruct (Rlt_dec x y)
         end;
  try lra.

(** The references of a task dictionary denote the rows of the store. *)
Definition resolved (db : Database.t) (objs : list Task.t)
    (m : gmap Z (list nat)) : Prop :=
  ∀ k refs, m !! k = Some refs →
    (fun ref => objs !! ref) <$> refs
      = Some <$> Database.tasks_for_aquarium db k.

(** ** The cache as the image of the store *)

(** The cached aquariums are what [aquariums()] returns, and the cached
    fish of every aquarium id are what [fish_for_aquarium] returns. *)
Definition mirror (s : t) : Prop :=
  _aquariums s = Database.aquariums (_database s) ∧
  ∀ k, fish_for s k = Database.fish_for_aquarium (_database s) k.

Definition engine_mirror (s : t) : Prop :=
  store_wf (_database s) ∧ mirror s.

(** What one [UPDATE fish SET hunger = ?, health = ? WHERE id = ?] does
    to one row. *)
Definition row_step (r u : Fish.t) : Fish.t :=
  match Fish.id u with
  | Some k =>
      if id_is (Fish.id r) k
      then Fish.set_health (Fish.health u) (Fish.set_hunger (Fish.hunger u) r)
      else r
  | None => r
  end.

(** ** A session of the window *)

(** Every reference in a task list denotes an object that has an id. *)
Definition tasks_live (w : world) : Prop :=
  ∀ k ref, ref ∈ tasks_for (self w) k →
    ∃ task, objects w !! ref = Some task ∧ is_Some (Task.id task).

(** Every reference in the task list of an aquarium denotes an object
    that has its row: the object has an id, and the tasks table has a
    row with that id, which belongs to that aquarium. *)
Definition tasks_stored (w : world) : Prop :=
  ∀ k ref, ref ∈ tasks_for (self w) k →
    ∃ task row,
      objects w !! ref = Some task ∧
      is_Some (Task.id task) ∧
      row ∈ Database.tasks_rows (_database (self w)) ∧
      Task.id row = Task.id task ∧
      Task.aquarium_id row = k.

(** What holds of the engine between any two events of the window. *)
Definition session_ok (w : world) : Prop :=
  engine_mirror (self w) ∧ engine_wf (self w) ∧ engine_ok (self w) ∧
  tasks_stored w ∧ aquariums (self w) ≠ [].

(** * Properties *)

(** ** Built-ins *)

Lemma py_max_Rmax a b : py_max a b = Rmax a b.
Proof.
  unfold py_max, Rmax.
  destruct (Rlt_dec a b), (Rle_dec a b); lra.
Qed.

Lemma py_min_Rmin a b : py_min a b = Rmin a b.
Proof.
  unfold py_min, Rmin.
  destruct (Rlt_dec b a), (Rle_dec a b); lra.
Qed.

Lemma py_abs_Rabs x : py_abs x = Rabs x.
Proof.
  unfold py_abs, Rabs.
  destruct (Rlt_dec x 0), (Rcase_abs x); lra.
Qed.

Lemma id_is_true o k : id_is o k = true ↔ o = Some k.
Proof.
  destruct o as [j|]; simpl; [|split; discriminate].
  rewrite bool_decide_eq_true. split; congruence.
Qed.

Lemma id_is_false o k : id_is o k = false ↔ o ≠ Some k.
Proof.
  rewrite <- id_is_true. destruct (id_is o k); split; congruence.
Qed.

Lemma update_first_None {A} (p : A → bool) f xs :
  (∀ x, x ∈ xs → p x = false) → update_first p f xs = None.
Proof.
  induction xs as [|x xs IH]; intros H; [done|]. simpl.
  rewrite (H x) by (by left). rewrite IH; [done|].
  intros y Hy. apply H. by right.
Qed.

Lemma update_first_Some {A} (p : A → bool) f l1 x l2 :
  (∀ y, y ∈ l1 → p y = false) →
  p x = true →
  update_first p f (l1 ++ x :: l2) = Some (l1 ++ f x :: l2, f x).
Proof.
  induction l1 as [|y l1 IH]; intros H Hx; simpl.
  - by rewrite Hx.
  - rewrite (H y) by (by left). rewrite IH; [done| |done].
    intros z Hz. apply H. by right.
Qed.

Lemma update_first_Forall {A} (P : A → Prop) (p : A → bool) f xs xs' y :
  Forall P xs → (∀ x, P x → P (f x)) →
  update_first p f xs = Some (xs', y) →
  Forall P xs' ∧ P y.
Proof.
  intros Hxs Hf. revert xs' y.
  induction Hxs as [|x xs Hx Hxs IH]; intros xs' y; simpl; [done|].
  destruct (p x).
  - intros [= <- <-]. split; [constructor|]; auto.
  - destruct (update_first p f xs) as [[rest z]|]; [|done].
    intros [= <- <-]. destruct (IH rest z eq_refl). split; [constructor|]; auto.
Qed.

Lemma update_first_ids (p : Aquarium.t → bool) f xs xs' y :
  (∀ x, Aquarium.id (f x) = Aquarium.id x) →
  update_first p f xs = Some (xs', y) →
  map Aquarium.id xs' = map Aquarium.id xs ∧
  ∃ x, x ∈ xs ∧ p x = true ∧ y = f x.
Proof.
  intros Hf. revert xs' y.
  induction xs as [|x xs IH]; intros xs' y; simpl; [done|].
  destruct (p x) eqn:Hp.
  - intros [= <- <-]. simpl. rewrite Hf. split; [done|].
    exists x. split; [by left|done].
  - destruct (update_first p f xs) as [[rest z]|]; [|done].
    intros [= <- <-]. destruct (IH rest z eq_refl) as [IH1 (x0 & ? & ? & ?)].
    simpl. rewrite IH1. split; [done|]. exists x0. split; [by right|done].
Qed.

(** ** The clock *)

Lemma elapsed_minutes_pos now s :
  (0 < elapsed_minutes now s)%R ↔ (_last_tick s < now)%Z.
Proof.
  unfold elapsed_minutes, total_seconds. split; intros H.
  - assert (0 < IZR (now - _last_tick s))%R as H0 by lra.
    apply lt_IZR in H0. lia.
  - assert (0 < IZR (now - _last_tick s))%R as H0 by (apply IZR_lt; lia).
    lra.
Qed.

Lemma elapsed_minutes_timedelta now s n :
  (now - _last_tick s)%Z = timedelta_minutes n →
  elapsed_minutes now s = IZR n.
Proof.
  intros H. unfold elapsed_minutes, total_seconds, timedelta_minutes in *.
  rewrite H, mult_IZR. lra.
Qed.

Lemma sample_elapsed n :
  elapsed_minutes (timedelta_minutes n) sample_engine = IZR n.
Proof. apply elapsed_minutes_timedelta. simpl. lia. Qed.

(** ** The loop of [tick] *)

Lemma tick_loop_aquariums minutes l db fish :
  (tick_loop minutes l db fish).1.1 = map (tick_cached minutes) l.
Proof.
  revert db fish. induction l as [|a l IH]; intros db fish; [done|].
  simpl. unfold tick_cached at 1.
  destruct (Aquarium.id a) as [k|].
  - match goal with |- context [tick_loop minutes l ?d ?f] =>
      specialize (IH d f); destruct (tick_loop minutes l d f) as [[l' d'] f']
    end.
    simpl in *. by rewrite IH.
  - specialize (IH db fish).
    destruct (tick_loop minutes l db fish) as [[l' d'] f'].
    simpl in *. by rewrite IH.
Qed.

Lemma tick_unfold now s :
  (_last_tick s < now)%Z →
  tick now s =
    let r := tick_loop (elapsed_minutes now s) (_aquariums s) (_database s)
               (_fish s) in
    mk r.1.2 r.1.1 r.2 (_tasks s) now.
Proof.
  intros H. unfold tick.
  destruct (Z.leb_spec (now - _last_tick s) 0); [lia|].
  fold (elapsed_minutes now s).
  by destruct (tick_loop _ _ _ _) as [[l' d'] f'].
Qed.

Lemma tick_aquariums now s :
  (_last_tick s < now)%Z →
  _aquariums (tick now s) =
    map (tick_cached (elapsed_minutes now s)) (_aquariums s).
Proof.
  intros H. rewrite tick_unfold by done. simpl. apply tick_loop_aquariums.
Qed.

Lemma tick_skipped now s : (now ≤ _last_tick s)%Z → tick now s = s.
Proof.
  intros H. unfold tick.
  by destruct (Z.leb_spec (now - _last_tick s) 0); [|lia].
Qed.

Lemma tick_last_tick now s :
  (_last_tick s < now)%Z → _last_tick (tick now s) = now.
Proof. intros H. by rewrite tick_unfold. Qed.

Lemma tick_lookup_aquarium now s j a :
  (0 < elapsed_minutes now s)%R →
  _aquariums s !! j = Some a →
  is_Some (Aquarium.id a) →
  _aquariums (tick now s) !! j =
    Some (tick_aquarium (elapsed_minutes now s) a).
Proof.
  intros HΔ Hj [k Hk]. apply elapsed_minutes_pos in HΔ.
  rewrite tick_aquariums, list_lookup_fmap, Hj by done. simpl.
  unfold tick_cached. by rewrite Hk.
Qed.

Lemma tick_fish_spec Δ a fish :
  let fish' := tick_fish Δ a fish in
  Fish.hunger fish' = Rmin 100 (Fish.hunger fish + 0.45 * Δ) ∧
  Fish.health fish' =
    Rmax 10 (Rmin 100
      (Fish.health fish
       - (hunger_penalty Δ (Fish.hunger fish')
          + temperature_penalty Δ
              (Rabs (Aquarium.current_temperature a
                     - Aquarium.target_temperature a))
          + cleanliness_penalty Δ (Aquarium.cleanliness a)))) ∧
  Fish.id fish' = Fish.id fish ∧
  Fish.aquarium_id fish' = Fish.aquarium_id fish ∧
  Fish.name fish' = Fish.name fish ∧
  Fish.species fish' = Fish.species fish ∧
  Fish.created_at fish' = Fish.created_at fish.
Proof.
  unfold tick_fish. simpl. rewrite !py_min_Rmin, py_max_Rmax, py_abs_Rabs.
  replace (Fish.hunger fish + Δ * 0.45)%R
    with (Fish.hunger fish + 0.45 * Δ)%R by lra.
  repeat split. do 2 f_equal.
  unfold hunger_penalty, temperature_penalty, cleanliness_penalty.
  repeat match goal with
         | |- context [Rgt_dec ?x ?y] => destruct (Rgt_dec x y)
         | |- context [Rlt_dec ?x ?y] => destruct (Rlt_dec x y)
         end; unfold Rgt in *; lra.
Qed.

Lemma tick_loop_fish_other minutes l db fish k :
  (∀ a, a ∈ l → Aquarium.id a ≠ Some k) →
  (tick_loop minutes l db fish).2 !! k = fish !! k.
Proof.
  revert db fish. induction l as [|a l IH]; intros db fish Hl; [done|].
  simpl. destruct (Aquarium.id a) as [k0|] eqn:Hk0.
  - match goal with |- context [tick_loop minutes l ?d ?f] =>
      specialize (IH d f); destruct (tick_loop minutes l d f) as [[l' d'] f']
    end.
    simpl in *. rewrite IH by (intros; apply Hl; by right).
    apply lookup_alter_ne. intros ->. by apply (Hl a); [left|].
  - specialize (IH db fish).
    destruct (tick_loop minutes l db fish) as [[l' d'] f'].
    simpl in *. apply IH. intros; apply Hl; by right.
Qed.

Lemma tick_loop_fish minutes l db fish j a k :
  NoDup (cached_ids l) →
  l !! j = Some a →
  Aquarium.id a = Some k →
  (tick_loop minutes l db fish).2 !! k =
    map (tick_fish minutes (tick_aquarium minutes a)) <$> fish !! k.
Proof.
  revert db fish j. induction l as [|a0 l IH]; intros db fish j Hnd Hj Hk;
    [done|].
  simpl. unfold cached_ids in *. simpl in Hnd.
  destruct (Aquarium.id a0) as [k0|] eqn:Hk0.
  - apply NoDup_cons in Hnd as [Hk0l Hnd].
    match goal with |- context [tick_loop minutes l ?d ?f] =>
      pose proof (tick_loop_fish_other minutes l d f) as Hother;
      specialize (IH d f); destruct (tick_loop minutes l d f) as [[l' d'] f']
    end.
    simpl in *. destruct j as [|j]; simpl in Hj.
    + injection Hj as ->. assert (k0 = k) as -> by congruence.
      rewrite Hother.
      * rewrite lookup_alter_eq. by destruct (fish !! k).
      * intros b Hb Hbk. apply Hk0l. apply list_elem_of_omap. eauto.
    + assert (k0 ≠ k) as Hne.
      { intros ->. apply Hk0l. apply list_elem_of_omap.
        exists a. split; [|done]. by eapply list_elem_of_lookup_2. }
      rewrite (IH j) by done. by rewrite lookup_alter_ne.
  - specialize (IH db fish).
    destruct (tick_loop minutes l db fish) as [[l' d'] f'].
    simpl in *. destruct j as [|j]; simpl in Hj; [congruence|].
    by apply (IH j).
Qed.

(** ** The states the engine can reach

    The hypotheses of the theorems on [tick] (every cached aquarium
    carries an id, and no two carry the same) hold of every state the
    engine reaches: the store hands out ids from a growing counter, and
    the cache holds exactly the aquariums of the store. *)

Lemma engine_wf_ids s :
  engine_wf s →
  Forall (fun a => is_Some (Aquarium.id a)) (_aquariums s) ∧
  NoDup (cached_ids (_aquariums s)).
Proof.
  intros ([Hall Hnd] & Hperm & _). rewrite <- Hperm in Hall, Hnd.
  clear Hperm. revert Hall Hnd. unfold cached_ids.
  generalize (Database.aquariums_seq (_database s)).
  induction (_aquariums s) as [|a l IH]; simpl; intros seq Hall Hnd.
  - split; constructor.
  - apply Forall_cons in Hall as [(k & Hk & _) Hall].
    apply NoDup_cons in Hnd as [Hnotin Hnd].
    destruct (IH seq Hall Hnd) as [IH1 IH2]. rewrite Hk. split.
    + constructor; [by rewrite Hk|done].
    + constructor; [|done]. intros Hin. apply Hnotin.
      apply list_elem_of_omap in Hin as (b & Hb & Hbk).
      rewrite Hk, <- Hbk. apply list_elem_of_fmap. eauto.
Qed.

Lemma aquarium_exists_iff db k :
  Database.aquarium_exists db k = true ↔
  Some k ∈ map Aquarium.id (Database.aquariums_rows db).
Proof.
  unfold Database.aquarium_exists. rewrite existsb_exists. split.
  - intros (r & Hr & Hk). apply id_is_true in Hk. rewrite <- Hk.
    apply list_elem_of_fmap. exists r. split; [done|].
    by apply list_elem_of_In.
  - intros Hin. apply list_elem_of_fmap in Hin as (r & Hk & Hr).
    exists r. split; [by apply list_elem_of_In|]. by apply id_is_true.
Qed.

(** An [UPDATE aquariums ... WHERE id = ?] keeps the ids of the table. *)
Lemma updated_rows_ids (rows : list Aquarium.t) (hit : Aquarium.t → bool) g :
  (∀ r, hit r = true → Aquarium.id (g r) = Aquarium.id r) →
  map Aquarium.id (map (fun r => if hit r then g r else r) rows)
    = map Aquarium.id rows.
Proof.
  intros Hg. induction rows as [|r rows IH]; [done|]. simpl.
  rewrite IH. f_equal. destruct (hit r) eqn:Hr; [by apply Hg|done].
Qed.

Lemma upsert_aquarium_update_ids db a k :
  Aquarium.id a = Some k →
  map Aquarium.id
      (Database.aquariums_rows (Database.upsert_aquarium db a).2)
    = map Aquarium.id (Database.aquariums_rows db) ∧
  Database.aquariums_seq (Database.upsert_aquarium db a).2
    = Database.aquariums_seq db.
Proof.
  intros Hk. unfold Database.upsert_aquarium. rewrite Hk. simpl.
  split; [|done]. apply updated_rows_ids.
  intros r Hr. apply id_is_true in Hr. by rewrite Hr.
Qed.

Lemma tick_loop_store m l db fish :
  let r := tick_loop m l db fish in
  map Aquarium.id (Database.aquariums_rows r.1.2)
    = map Aquarium.id (Database.aquariums_rows db) ∧
  Database.aquariums_seq r.1.2 = Database.aquariums_seq db.
Proof.
  revert db fish. induction l as [|a l IH]; intros db fish; [done|].
  simpl. destruct (Aquarium.id a) as [k|] eqn:Hk.
  - match goal with |- context [tick_loop m l ?d ?f] =>
      specialize (IH d f);
      pose proof (upsert_aquarium_update_ids
                    (Database.update_fish db
                       (map (tick_fish m (tick_aquarium m a))
                            (default [] (fish !! k))))
                    (tick_aquarium m a) k Hk) as [Hids Hseq];
      destruct (tick_loop m l d f) as [[l' d'] f']
    end.
    simpl in *. destruct IH as [IH1 IH2].
    by rewrite IH1, IH2, Hids, Hseq.
  - specialize (IH db fish).
    by destruct (tick_loop m l db fish) as [[l' d'] f'].
Qed.

Lemma tick_cached_ids m l :
  map Aquarium.id (map (tick_cached m) l) = map Aquarium.id l.
Proof.
  induction l as [|a l IH]; [done|]. simpl. rewrite IH. f_equal.
  unfold tick_cached. by destruct (Aquarium.id a) eqn:Hk.
Qed.

Lemma tick_wf now s : engine_wf s → engine_wf (tick now s).
Proof.
  intros (Hpk & Hperm & Htasks).
  destruct (Z.le_gt_cases now (_last_tick s)) as [H|H].
  - by rewrite tick_skipped.
  - rewrite tick_unfold by done. unfold engine_wf. simpl.
    destruct (tick_loop_store (elapsed_minutes now s) (_aquariums s)
                (_database s) (_fish s)) as [Hids Hseq].
    rewrite Hids, Hseq, tick_loop_aquariums, tick_cached_ids. done.
Qed.

Lemma feed_fish_wf k s : engine_wf s → engine_wf (feed_fish k s).
Proof.
  intros Hwf. unfold feed_fish. by destruct (map feed_one _).
Qed.

Lemma clean_aquarium_wf now k s :
  engine_wf s → engine_wf (clean_aquarium now k s).
Proof.
  intros (Hpk & Hperm & Htasks). unfold clean_aquarium.
  destruct (update_first _ _ _) as [[l' a']|] eqn:Hup; [|done].
  apply update_first_ids in Hup as [Hids _]; [|done].
  unfold engine_wf. simpl. rewrite Hids, updated_rows_ids; [done|done].
Qed.

Lemma retarget_wf k f s :
  (∀ x, Aquarium.id (f x) = Aquarium.id x) →
  engine_wf s →
  engine_wf
    match update_first (fun a => id_is (Aquarium.id a) k) f (_aquariums s) with
    | Some (aquariums', aquarium) =>
        mk (Database.upsert_aquarium (_database s) aquarium).2
           aquariums' (_fish s) (_tasks s) (_last_tick s)
    | None => s
    end.
Proof.
  intros Hf (Hpk & Hperm & Htasks).
  destruct (update_first _ _ _) as [[l' a']|] eqn:Hup; [|done].
  apply update_first_ids in Hup as [Hids (x & _ & Hx & ->)]; [|done].
  apply id_is_true in Hx.
  destruct (upsert_aquarium_update_ids (_database s) (f x) k) as [Hrows Hseq];
    [by rewrite Hf|].
  unfold engine_wf. simpl. by rewrite Hids, Hrows, Hseq.
Qed.

Lemma adjust_temperature_wf k target s :
  engine_wf s → engine_wf (adjust_temperature k target s).
Proof. by apply retarget_wf. Qed.

Lemma register_temperature_wf k temp s :
  engine_wf s → engine_wf (register_temperature k temp s).
Proof. by apply retarget_wf. Qed.

Lemma create_aquarium_wf now name target s :
  engine_wf s → engine_wf (state_of (create_aquarium now name target s)).
Proof.
  intros ([Hall Hnd] & Hperm & Htasks). unfold create_aquarium. simpl.
  set (k := (Database.aquariums_seq (_database s) + 1)%Z).
  unfold engine_wf. simpl. fold k. rewrite !map_app. simpl.
  split; [split|split].
  - apply Forall_app. split.
    + eapply Forall_impl; [exact Hall|].
      intros o (j & -> & Hj). exists j. split; [done|]. unfold k. lia.
    + apply Forall_singleton. exists k. split; [done|]. lia.
  - apply NoDup_app. split; [done|]. split; [|apply NoDup_singleton].
    intros o Ho ->%list_elem_of_singleton.
    rewrite Forall_forall in Hall.
    destruct (Hall _ Ho) as (j & [= <-] & Hj). unfold k in Hj. lia.
  - by rewrite Hperm.
  - intros j. rewrite lookup_insert. case_decide as Hj.
    + subst j. intros _. apply elem_of_app. right. by left.
    + intros Hsome. apply elem_of_app. left. by apply Htasks.
Qed.

Lemma create_fish_wf now k name species s :
  engine_wf s → engine_wf (state_of (create_fish now k name species s)).
Proof.
  intros Hwf. unfold create_fish, Database.insert_fish. simpl.
  by destruct (Database.aquarium_exists (_database s) k).
Qed.

Lemma remove_fish_wf fish_id k s :
  engine_wf s → engine_wf (remove_fish fish_id k s).
Proof. done. Qed.

Lemma add_task_wf now k kind n w :
  engine_wf (self w) →
  engine_wf (self (state_of (add_task now k kind n w))).
Proof.
  intros (Hpk & Hperm & Htasks). unfold add_task, Database.upsert_task.
  simpl. destruct (Database.aquarium_exists _ k) eqn:Hex; [|done].
  split; [done|]. split; [done|]. simpl.
  intros j. rewrite lookup_insert. case_decide as Hj; [|apply Htasks].
  subst j. intros _. rewrite Hperm. by apply aquarium_exists_iff.
Qed.

Lemma mark_task_done_wf now ref w :
  engine_wf (self w) →
  engine_wf (self (state_of (mark_task_done now ref w))).
Proof.
  intros Hwf. unfold mark_task_done.
  destruct (objects w !! ref) as [obj|]; [|done].
  destruct (Task.id obj) as [kid|] eqn:Hid; simpl.
  - by rewrite Hid.
  - unfold Database.upsert_task. rewrite Hid.
    by destruct (Database.aquarium_exists _ _).
Qed.

Lemma load_tasks_keys db l acc k :
  let step := fun '(objs, m) aquarium =>
    match Aquarium.id aquarium with
    | Some j =>
        let rows := Database.tasks_for_aquarium db j in
        ((objs : list Task.t) ++ rows,
         <[j := seq (length objs) (length rows)]> (m : gmap Z (list nat)))
    | None => (objs, m)
    end in
  is_Some ((foldl step acc l).2 !! k) →
  is_Some (acc.2 !! k) ∨ Some k ∈ map Aquarium.id l.
Proof.
  intros step. revert acc.
  induction l as [|a l IH]; intros [objs m]; simpl; [by left|].
  intros Hsome. apply IH in Hsome as [Hsome|Hin]; [|right; by right].
  destruct (Aquarium.id a) as [j|] eqn:Hj; simpl in Hsome; [|by left].
  rewrite lookup_insert in Hsome. case_decide as Hjk; [|by left].
  subst j. right. by left.
Qed.

Lemma reload_wf now w :
  primary_key (Database.aquariums_seq (_database (self w)))
    (map Aquarium.id (Database.aquariums_rows (_database (self w)))) →
  engine_wf (self (reload now w)).
Proof.
  intros Hpk. unfold reload.
  destruct (load_tasks _ _ _) as [objs tasks] eqn:Hload.
  unfold engine_wf. simpl. split; [done|]. split.
  - unfold Database.aquariums. by rewrite merge_sort_Permutation.
  - intros k Hk.
    assert (tasks = (load_tasks (_database (self w))
                       (Database.aquariums (_database (self w)))
                       (objects w)).2) as -> by (by rewrite Hload).
    apply load_tasks_keys in Hk as [Hk|Hk]; [|done].
    simpl in Hk. rewrite lookup_empty in Hk. by destruct Hk.
Qed.

Lemma filter_keeps_key (rows : list Aquarium.t) (P : Aquarium.t → Prop)
    `{∀ r, Decision (P r)} seq :
  primary_key seq (map Aquarium.id rows) →
  primary_key seq (map Aquarium.id (filter P rows)).
Proof.
  intros [Hall Hnd].
  induction rows as [|r rows IH]; [done|].
  simpl in Hall, Hnd. apply Forall_cons in Hall as [Hr Hall].
  apply NoDup_cons in Hnd as [Hnotin Hnd].
  destruct (IH Hall Hnd) as [IH1 IH2].
  rewrite filter_cons. case_decide; [|done]. simpl. split.
  - by constructor.
  - constructor; [|done]. intros Hin. apply Hnotin.
    apply list_elem_of_fmap in Hin as (r' & Hid & Hr').
    apply list_elem_of_filter in Hr' as [_ Hr'].
    apply list_elem_of_fmap. eauto.
Qed.

Lemma delete_aquarium_wf now k w :
  engine_wf (self w) → engine_wf (self (delete_aquarium now k w)).
Proof.
  intros (Hpk & _). unfold delete_aquarium. apply reload_wf. simpl.
  by apply filter_keeps_key.
Qed.

(** So the hypotheses of the theorems on [tick] are met in every state
    that [reload] produces from a store with a primary key, and in every
    state reached from there. *)
Lemma reload_ids now w :
  primary_key (Database.aquariums_seq (_database (self w)))
    (map Aquarium.id (Database.aquariums_rows (_database (self w)))) →
  Forall (fun a => is_Some (Aquarium.id a)) (_aquariums (self (reload now w)))
  ∧ NoDup (cached_ids (_aquariums (self (reload now w)))).
Proof. intros Hpk. by apply engine_wf_ids, reload_wf. Qed.

(** ** Fish under [tick] *)

(** C1. On a tick with elapsed minutes [Δ > 0], every fish cached for a
    cached aquarium ends with hunger [min(100, hunger + 0.45·Δ)], and its
    health is lowered by the sum of the three penalties and clamped to
    [[10, 100]].  The penalties are evaluated in the order the tick
    proceeds: on the hunger just updated, and on the temperature gap and
    the cleanliness of the aquarium as just updated by this tick.  The
    ids of the cached aquariums are pairwise distinct (they are the
    store's primary key). *)
Theorem tick_fish_hunger_health now s j a k i fish :
  let Δ := elapsed_minutes now s in
  (0 < Δ)%R →
  NoDup (cached_ids (_aquariums s)) →
  _aquariums s !! j = Some a →
  Aquarium.id a = Some k →
  fish_for s k !! i = Some fish →
  ∃ a' fish',
    _aquariums (tick now s) !! j = Some a' ∧
    fish_for (tick now s) k !! i = Some fish' ∧
    Fish.hunger fish' = Rmin 100 (Fish.hunger fish + 0.45 * Δ) ∧
    Fish.health fish' =
      Rmax 10 (Rmin 100
        (Fish.health fish
         - (hunger_penalty Δ (Fish.hunger fish')
            + temperature_penalty Δ
                (Rabs (Aquarium.current_temperature a'
                       - Aquarium.target_temperature a'))
            + cleanliness_penalty Δ (Aquarium.cleanliness a')))) ∧
    Fish.id fish' = Fish.id fish ∧
    Fish.aquarium_id fish' = Fish.aquarium_id fish ∧
    Fish.name fish' = Fish.name fish ∧
    Fish.species fish' = Fish.species fish ∧
    Fish.created_at fish' = Fish.created_at fish.
Proof.
  intros Δ HΔ Hnd Hj Hk Hi.
  exists (tick_aquarium Δ a), (tick_fish Δ (tick_aquarium Δ a) fish).
  split; [by apply tick_lookup_aquarium|]. split.
  - unfold fish_for in *. apply elapsed_minutes_pos in HΔ.
    rewrite tick_unfold by done. simpl. fold Δ.
    rewrite (tick_loop_fish _ _ _ _ j a) by done.
    destruct (_fish s !! k) as [fs|]; simpl in *; [|done].
    by rewrite list_lookup_fmap, Hi.
  - apply tick_fish_spec.
Qed.

(** The hunger penalty of a tick is taken on the hunger the tick has just
    computed: a fish at hunger 69 and health 50, in an aquarium at its
    target temperature with cleanliness 85, ticked for 20 minutes, ends
    at hunger 78 and pays [(78 − 70)·0.02·20 = 3.2] health, although its
    hunger before the tick was below 70. *)
Lemma tick_penalty_on_updated_hunger :
  let fish := Fish.mk (Some 1%Z) 1 "Bolhas" "Tetra Neon" 69 50 0 in
  let fish' := tick_fish 20 (tick_aquarium 20 sample_aquarium) fish in
  Fish.hunger fish' = 78%R ∧ Fish.health fish' = 46.8%R ∧
  hunger_penalty 20 (Fish.hunger fish) = 0%R.
Proof.
  intros fish fish'.
  destruct (tick_fish_spec 20 (tick_aquarium 20 sample_aquarium) fish)
    as (Hhunger & Hhealth & _).
  fold fish' in Hhunger, Hhealth.
  assert (Fish.hunger fish' = 78%R) as H78.
  { rewrite Hhunger. simpl. unfold Rmin. destruct (Rle_dec _ _); lra. }
  split; [exact H78|]. split.
  - rewrite Hhealth, H78. simpl. rewrite py_max_Rmax.
    unfold hunger_penalty, temperature_penalty, cleanliness_penalty.
    repeat match goal with
           | |- context [Rlt_dec ?x ?y] => destruct (Rlt_dec x y)
           end;
      unfold Rabs, Rmax, Rmin in *;
      repeat match goal with
             | H : context [Rcase_abs ?x] |- _ => destruct (Rcase_abs x)
             | |- context [Rcase_abs ?x] => destruct (Rcase_abs x)
             | H : context [Rle_dec ?x ?y] |- _ => destruct (Rle_dec x y)
             | |- context [Rle_dec ?x ?y] => destruct (Rle_dec x y)
             end; lra.
  - unfold hunger_penalty. simpl. destruct (Rlt_dec _ _); lra.
Qed.

(** ** Cleanliness under [tick] *)

(** C2. On a tick with elapsed minutes [Δ > 0], every cached aquarium
    (one that carries an id, as every aquarium read from or written to the
    store does) ends with cleanliness [max(0, cleanliness − 0.18·Δ)]; with
    cleanliness 85 and [Δ = 50] that is exactly 76. *)
Theorem tick_cleanliness now s j a :
  let Δ := elapsed_minutes now s in
  (0 < Δ)%R →
  _aquariums s !! j = Some a →
  is_Some (Aquarium.id a) →
  ∃ a', _aquariums (tick now s) !! j = Some a' ∧
        Aquarium.cleanliness a' = Rmax 0 (Aquarium.cleanliness a - 0.18 * Δ) ∧
        (Δ = 50%R → Aquarium.cleanliness a = 85%R →
         Aquarium.cleanliness a' = 76%R).
Proof.
  intros Δ HΔ Hj Hid. eexists. split; [by apply tick_lookup_aquarium|].
  fold Δ. simpl. rewrite py_max_Rmax. split.
  - f_equal. lra.
  - intros -> ->. unfold Rmax. destruct (Rle_dec _ _); lra.
Qed.

(** ** Temperature under [tick] *)



Section binary64.
Import Floats.

End binary64.

(** ** Feeding *)

Lemma feed_fish_cache s k :
  fish_for (feed_fish k s) k = map feed_one (fish_for s k).
Proof.
  unfold feed_fish, fish_for.
  destruct (map feed_one (default [] (_fish s !! k))) as [|f fs] eqn:Hm.
  - destruct (_fish s !! k) as [l|]; simpl in *; [|done].
    by destruct l.
  - simpl. by rewrite lookup_insert_eq.
Qed.

(** C4. After [feed_fish(aquarium_id)] every fish cached for that
    aquarium has hunger [max(0, hunger − 45)] and health
    [min(100, health + 8)]; nothing else about the fish changes. *)
Theorem feed_fish_hunger_health s k i fish :
  fish_for s k !! i = Some fish →
  ∃ fish',
    fish_for (feed_fish k s) k !! i = Some fish' ∧
    Fish.hunger fish' = Rmax 0 (Fish.hunger fish - 45) ∧
    Fish.health fish' = Rmin 100 (Fish.health fish + 8) ∧
    Fish.id fish' = Fish.id fish ∧
    Fish.aquarium_id fish' = Fish.aquarium_id fish ∧
    Fish.name fish' = Fish.name fish ∧
    Fish.species fish' = Fish.species fish ∧
    Fish.created_at fish' = Fish.created_at fish.
Proof.
  intros Hi. exists (feed_one fish). split.
  - by rewrite feed_fish_cache, list_lookup_fmap, Hi.
  - unfold feed_one. simpl. by rewrite py_max_Rmax, py_min_Rmin.
Qed.

(** ** Due tasks *)

Lemma task_due_iff now task :
  task_due now task = true ↔
  (Task.last_run_at task + timedelta_minutes (Task.interval_minutes task)
   ≤ now)%Z.
Proof. unfold task_due. rewrite Z.geb_le. done. Qed.

Lemma elem_of_due_in now objs a tasks ref b :
  (ref, b) ∈ due_in now objs a tasks ↔
  b = a ∧ ref ∈ tasks ∧
  ∃ task, objs !! ref = Some task ∧ task_due now task = true.
Proof.
  unfold due_in. rewrite list_elem_of_In, in_flat_map. split.
  - intros (r & Hr & Hin). apply list_elem_of_In in Hr.
    destruct (objs !! r) as [task|] eqn:Hobj; [|by destruct Hin].
    destruct (task_due now task) eqn:Hdue; [|by destruct Hin].
    destruct Hin as [[= <- <-]|[]]. eauto.
  - intros (-> & Hr & task & Hobj & Hdue). exists ref.
    split; [by apply list_elem_of_In|]. rewrite Hobj, Hdue. by left.
Qed.

Lemma elem_of_due_tasks now w ref b :
  (ref, b) ∈ due_tasks now w ↔
  ∃ k, b ∈ _aquariums (self w) ∧ Aquarium.id b = Some k ∧
       ref ∈ tasks_for (self w) k ∧
       ∃ task, objects w !! ref = Some task ∧ task_due now task = true.
Proof.
  unfold due_tasks, tasks_for. rewrite list_elem_of_In, in_flat_map. split.
  - intros (a & Ha & Hin). apply list_elem_of_In in Ha.
    destruct (Aquarium.id a) as [k|] eqn:Hk; [|by destruct Hin].
    apply list_elem_of_In, elem_of_due_in in Hin as (-> & Hr & Htask).
    eauto.
  - intros (k & Hb & Hk & Hr & Htask). exists b.
    split; [by apply list_elem_of_In|]. rewrite Hk.
    apply list_elem_of_In, elem_of_due_in. eauto.
Qed.

Lemma due_tasks_cached now w a k ref task :
  a ∈ _aquariums (self w) →
  Aquarium.id a = Some k →
  ref ∈ tasks_for (self w) k →
  objects w !! ref = Some task →
  (ref, a) ∈ due_tasks now w ↔
  (Task.last_run_at task + timedelta_minutes (Task.interval_minutes task)
   ≤ now)%Z.
Proof.
  intros Ha Hk Hr Hobj. rewrite elem_of_due_tasks, <- task_due_iff. split.
  - intros (k' & _ & _ & _ & task' & Hobj' & Hdue). congruence.
  - intros Hdue. exists k. eauto 10.
Qed.

(** C5. A task cached under a cached aquarium is reported by
    [due_tasks()] exactly when [now ≥ last_run + interval_minutes], the
    interval being counted in minutes. *)
Theorem due_tasks_iff now w a k ref task :
  a ∈ _aquariums (self w) →
  Aquarium.id a = Some k →
  ref ∈ tasks_for (self w) k →
  objects w !! ref = Some task →
  (ref, a) ∈ due_tasks now w ↔
  (Task.last_run_at task + timedelta_minutes (Task.interval_minutes task)
   ≤ now)%Z.
Proof. apply due_tasks_cached. Qed.

(** ** Creating tasks and marking them done *)

Lemma touched_rows (rows : list Task.t) kid ts row :
  row ∈ map (fun r => if id_is (Task.id r) kid
                      then Task.set_last_run_at ts r else r) rows →
  Task.id row = Some kid →
  Task.last_run_at row = ts.
Proof.
  intros Hin Hid. apply list_elem_of_fmap in Hin as (r & -> & _).
  destruct (id_is (Task.id r) kid) eqn:Hr; [done|].
  apply id_is_false in Hr. done.
Qed.

Lemma touched_row_kept (rows : list Task.t) kid ts r :
  r ∈ rows →
  Task.id r = Some kid →
  Task.set_last_run_at ts r
    ∈ map (fun r => if id_is (Task.id r) kid
                    then Task.set_last_run_at ts r else r) rows.
Proof.
  intros Hin Hid. apply list_elem_of_fmap. exists r. split; [|done].
  apply id_is_true in Hid. by rewrite Hid.
Qed.

(** What [mark_task_done] leaves behind for a task object that is
    already persisted, or that can be (its aquarium has a row). *)
Lemma mark_task_done_spec now ref w task :
  objects w !! ref = Some task →
  is_Some (Task.id task)
  ∨ Database.aquarium_exists (_database (self w)) (Task.aquarium_id task)
    = true →
  ∃ w' task',
    mark_task_done now ref w = Returns () w' ∧
    objects w' !! ref = Some task' ∧
    Task.last_run_at task' = now ∧
    Task.interval_minutes task' = Task.interval_minutes task ∧
    is_Some (Task.id task') ∧
    (is_Some (Task.id task) → Task.id task' = Task.id task) ∧
    (∀ row, row ∈ Database.tasks_rows (_database (self w')) →
            Task.id row = Task.id task' → Task.last_run_at row = now) ∧
    ((∃ row, row ∈ Database.tasks_rows (_database (self w)) ∧
             Task.id row = Task.id task) →
     ∃ row, row ∈ Database.tasks_rows (_database (self w')) ∧
            Task.id row = Task.id task') ∧
    _aquariums (self w') = _aquariums (self w) ∧
    _tasks (self w') = _tasks (self w).
Proof.
  intros Hobj Hpers. unfold mark_task_done. rewrite Hobj.
  pose proof (lookup_lt_Some _ _ _ Hobj) as Hlt.
  destruct (Task.id task) as [kid|] eqn:Hid.
  - eexists _, (Task.set_last_run_at now task).
    split; [reflexivity|]. simpl.
    split; [by apply list_lookup_insert_eq|]. simpl.
    rewrite Hid. repeat split; eauto.
    + intros row Hin Hrow. simpl in Hin.
      exact (touched_rows _ kid now row Hin Hrow).
    + intros (row & Hin & Hrow).
      exists (Task.set_last_run_at now row).
      split; [|done]. simpl. by apply touched_row_kept.
  - destruct Hpers as [[? [=]]|Hex].
    unfold Database.upsert_task. rewrite Hid, Hex.
    eexists _, (Task.set_last_run_at now (Task.set_id (Some _) task)).
    split; [reflexivity|]. simpl.
    split; [by apply list_lookup_insert_eq|]. simpl.
    repeat split; eauto.
    + by intros [? [=]].
    + intros row Hin Hrow.
      exact (touched_rows _ _ now row Hin Hrow).
    + intros _.
      exists (Task.set_last_run_at now
                (Task.set_id
                   (Some (Database.tasks_seq (_database (self w)) + 1)%Z)
                   task)).
      split; [|done].
      apply touched_row_kept; [|done].
      apply elem_of_app. right. by left.
Qed.

Lemma add_task_spec now k kind n w :
  Database.aquarium_exists (_database (self w)) k = true →
  ∃ ref w' task,
    add_task now k kind n w = Returns ref w' ∧
    objects w' !! ref = Some task ∧
    is_Some (Task.id task) ∧
    Task.interval_minutes task = n ∧
    Task.last_run_at task = (now - timedelta_minutes n)%Z ∧
    task ∈ Database.tasks_rows (_database (self w')) ∧
    ref ∈ tasks_for (self w') k ∧
    _aquariums (self w') = _aquariums (self w) ∧
    task_due now task = true ∧
    (∀ a, a ∈ _aquariums (self w') → Aquarium.id a = Some k →
          (ref, a) ∈ due_tasks now w').
Proof.
  intros Hex. unfold add_task, Database.upsert_task.
  simpl. rewrite Hex. eexists _, _, _. split; [reflexivity|]. simpl.
  assert (∀ l (x : Task.t), (l ++ [x]) !! length l = Some x) as Hlast.
  { intros l x. by rewrite lookup_app_r, Nat.sub_diag. }
  split; [apply Hlast|]. split; [by eexists|]. do 2 (split; [done|]).
  split; [apply elem_of_app; right; by left|].
  assert (length (objects w)
            ∈ default [] (<[k:=default [] (_tasks (self w) !! k)
                               ++ [length (objects w)]]>
                            (_tasks (self w)) !! k)) as Hin.
  { rewrite lookup_insert_eq. simpl. apply elem_of_app. right.
    by left. }
  assert (task_due now
            (Task.set_id (Some (Database.tasks_seq (_database (self w)) + 1)%Z)
               (Task.mk None k kind n (now - timedelta_minutes n)%Z))
          = true) as Hdue.
  { apply task_due_iff. simpl. lia. }
  split; [exact Hin|]. split; [done|]. split; [exact Hdue|].
  intros a Ha Hk. apply elem_of_due_tasks. exists k.
  split; [done|]. split; [done|]. split; [exact Hin|].
  eexists. split; [apply Hlast|exact Hdue].
Qed.

(** In a state the engine can reach, the aquarium of the new task is in
    the cache, and [due_tasks] reports the task at once. *)
Lemma add_task_reported now k kind n w :
  engine_wf (self w) →
  Database.aquarium_exists (_database (self w)) k = true →
  ∃ ref w' a,
    add_task now k kind n w = Returns ref w' ∧
    (ref, a) ∈ due_tasks now w'.
Proof.
  intros (_ & Hperm & _) Hex.
  destruct (add_task_spec now k kind n w Hex)
    as (ref & w' & task & Hret & _ & _ & _ & _ & _ & _ & Haq & _ & Hdue).
  apply aquarium_exists_iff in Hex. rewrite <- Hperm in Hex.
  apply list_elem_of_fmap in Hex as (a & Hk & Ha).
  exists ref, w', a. split; [done|]. apply Hdue; [by rewrite Haq|done].
Qed.

(** C6. [add_task] gives the new task the last-run timestamp
    [now − interval], so that it is due at once; [mark_task_done] sets the
    last-run timestamp of the task to [now], in the object and in its
    row of the store, and from then on the task is due exactly from
    [now + interval] onwards. *)
Theorem add_task_due_then_done :
  (∀ now k kind n w,
     Database.aquarium_exists (_database (self w)) k = true →
     ∃ ref w' task,
       add_task now k kind n w = Returns ref w' ∧
       objects w' !! ref = Some task ∧
       is_Some (Task.id task) ∧
       Task.interval_minutes task = n ∧
       Task.last_run_at task = (now - timedelta_minutes n)%Z ∧
       task ∈ Database.tasks_rows (_database (self w')) ∧
       ref ∈ tasks_for (self w') k ∧
       _aquariums (self w') = _aquariums (self w) ∧
       task_due now task = true ∧
       (∀ a, a ∈ _aquariums (self w') → Aquarium.id a = Some k →
             (ref, a) ∈ due_tasks now w')) ∧
  (∀ now ref w task,
     objects w !! ref = Some task →
     is_Some (Task.id task) →
     ∃ w' task',
       mark_task_done now ref w = Returns () w' ∧
       objects w' !! ref = Some task' ∧
       Task.id task' = Task.id task ∧
       Task.interval_minutes task' = Task.interval_minutes task ∧
       Task.last_run_at task' = now ∧
       (∀ row, row ∈ Database.tasks_rows (_database (self w')) →
               Task.id row = Task.id task → Task.last_run_at row = now) ∧
       ((∃ row, row ∈ Database.tasks_rows (_database (self w)) ∧
                Task.id row = Task.id task) →
        ∃ row, row ∈ Database.tasks_rows (_database (self w')) ∧
               Task.id row = Task.id task) ∧
       (∀ later a k,
          a ∈ _aquariums (self w) → Aquarium.id a = Some k →
          ref ∈ tasks_for (self w) k →
          (ref, a) ∈ due_tasks later w' ↔
          (now + timedelta_minutes (Task.interval_minutes task) ≤ later)%Z)).
Proof.
  split; [apply add_task_spec|].
  intros now ref w task Hobj Hid.
  destruct (mark_task_done_spec now ref w task Hobj (or_introl Hid))
    as (w' & task' & Hrun & Hobj' & Hlast & Hint & _ & Hsame & Hrows
        & Hrow & Haq & Htasks).
  specialize (Hsame Hid). rewrite Hsame in *.
  exists w', task'. do 7 (split; [done|]).
  intros later a k Ha Hk Hr.
  rewrite (due_tasks_cached later w' a k ref task'), Hlast, Hint; [done|..].
  - by rewrite Haq.
  - done.
  - unfold tasks_for. by rewrite Htasks.
  - done.
Qed.

(** ** A tick without elapsed time *)

(** C7. When the time since the last tick is not positive, [tick] returns
    the engine as it was: cache, store (rows, counters and number of
    commits) and last-tick timestamp are untouched, and [tick] never has
    access to the [Task] objects.  Hence a tick repeated at the instant of
    a first one, whatever the first one did, changes nothing. *)
Theorem tick_no_elapsed_time now s :
  ((now - _last_tick s ≤ 0)%Z →
   tick now s = s ∧
   Database.commits (_database (tick now s))
     = Database.commits (_database s)) ∧
  tick now (tick now s) = tick now s.
Proof.
  split.
  - intros H. by rewrite (tick_skipped now s) by lia.
  - destruct (Z.le_gt_cases now (_last_tick s)) as [H|H].
    + by rewrite !(tick_skipped now s).
    + apply tick_skipped. rewrite tick_last_tick by done. lia.
Qed.

(** ** Unknown identities *)

Lemma no_match_unknown k s :
  unknown_aquarium k s →
  ∀ a, a ∈ _aquariums s → id_is (Aquarium.id a) k = false.
Proof. intros [H _] a Ha. apply id_is_false. by apply H. Qed.

(** C8, as the code has it.  No operation of the engine raises a
    not-found error: [clean_aquarium], [adjust_temperature] and
    [feed_fish] called with an aquarium id the cache does not know return
    normally and leave the cache and the store exactly as they were. *)
Theorem unknown_aquarium_ignored now k temp s :
  unknown_aquarium k s →
  call (clean_aquarium now k) s = Returns () s ∧
  call (adjust_temperature k temp) s = Returns () s ∧
  call (feed_fish k) s = Returns () s.
Proof.
  intros Hu. pose proof (no_match_unknown k s Hu) as Hno.
  destruct Hu as (_ & Hfish & _). unfold call.
  unfold clean_aquarium, adjust_temperature, feed_fish.
  rewrite !update_first_None by done. by rewrite Hfish.
Qed.

(** What does raise is the store: [create_fish] and [add_task] for an
    aquarium without a row fail on the foreign key, before anything is
    changed. *)
Lemma missing_aquarium_row now k name species kind n w :
  Database.aquarium_exists (_database (self w)) k = false →
  create_fish now k name species (self w) = Raises IntegrityError (self w) ∧
  add_task now k kind n w = Raises IntegrityError w.
Proof.
  intros Hex.
  unfold create_fish, add_task, Database.insert_fish, Database.upsert_task.
  simpl. by rewrite Hex.
Qed.

Lemma sample_unknown_aquarium : unknown_aquarium 7 sample_engine.
Proof.
  split; [|split; reflexivity].
  intros a Ha. apply list_elem_of_singleton in Ha as ->. discriminate.
Defined.

(** C8, as the specification has it, fails: with aquarium 7 unknown to
    the cache, none of the three calls raises. *)
Lemma unknown_aquarium_does_not_raise :
  unknown_aquarium 7 sample_engine ∧
  ¬ raises (call (clean_aquarium 5 7) sample_engine) ∧
  ¬ raises (call (adjust_temperature 7 26) sample_engine) ∧
  ¬ raises (call (feed_fish 7) sample_engine).
Proof.
  split; [exact sample_unknown_aquarium|].
  repeat split; intros [].
Qed.

(** ** The bounds on cleanliness, hunger and health *)

Lemma tick_aquarium_ok m a :
  (0 <= m)%R → aquarium_ok a → aquarium_ok (tick_aquarium m a).
Proof. unfold aquarium_ok. intros Hm Ha. simpl. clamp. Qed.

Lemma tick_fish_ok m a f :
  (0 <= m)%R → fish_ok f → fish_ok (tick_fish m a f).
Proof.
  unfold fish_ok. intros Hm [Hh Hp]. unfold tick_fish. simpl. split; clamp.
Qed.

Lemma feed_one_ok f : fish_ok f → fish_ok (feed_one f).
Proof. unfold fish_ok. intros [Hh Hp]. simpl. split; clamp. Qed.

Lemma update_fish_row_ok rows f :
  Forall fish_ok rows → fish_ok f →
  Forall fish_ok (Database.update_fish_row rows f).
Proof.
  intros Hrows Hf. unfold Database.update_fish_row.
  destruct (Fish.id f) as [k|]; [|done].
  apply Forall_fmap. eapply Forall_impl; [exact Hrows|].
  intros r Hr. simpl. by destruct (id_is (Fish.id r) k).
Qed.

Lemma update_fish_ok db fishes :
  store_ok db → Forall fish_ok fishes →
  store_ok (Database.update_fish db fishes).
Proof.
  intros [Ha Hf] Hfs. split; [done|]. simpl.
  revert Hf. generalize (Database.fish_rows db).
  induction Hfs as [|f fs Hf0 Hfs IH]; intros rows Hrows; [done|].
  simpl. apply IH. by apply update_fish_row_ok.
Qed.

Lemma upsert_aquarium_ok db a :
  store_ok db → aquarium_ok a →
  aquarium_ok (Database.upsert_aquarium db a).1 ∧
  store_ok (Database.upsert_aquarium db a).2.
Proof.
  intros [Ha Hf] Hok. unfold Database.upsert_aquarium.
  destruct (Aquarium.id a) as [k|]; simpl; (split; [done|]);
    (split; [|done]); simpl.
  - apply Forall_fmap. eapply Forall_impl; [exact Ha|].
    intros r Hr. simpl. by destruct (id_is (Aquarium.id r) k).
  - apply Forall_app. split; [done|]. by apply Forall_singleton.
Qed.

Lemma tick_loop_ok m l db fish :
  (0 <= m)%R →
  Forall aquarium_ok l → fish_cache_ok fish → store_ok db →
  let r := tick_loop m l db fish in
  Forall aquarium_ok r.1.1 ∧ fish_cache_ok r.2 ∧ store_ok r.1.2.
Proof.
  intros Hm Hl. revert db fish.
  induction Hl as [|a l Ha Hl IH]; intros db fish Hfish Hdb; [done|].
  simpl. destruct (Aquarium.id a) as [k|] eqn:Hk.
  - set (a' := tick_aquarium m a).
    set (fishes := map (tick_fish m a') (default [] (fish !! k))).
    assert (aquarium_ok a') as Ha' by (by apply tick_aquarium_ok).
    assert (Forall fish_ok fishes) as Hfishes.
    { apply Forall_fmap.
      destruct (fish !! k) as [fs|] eqn:Hfs; simpl; [|done].
      eapply Forall_impl; [exact (Hfish k fs Hfs)|].
      intros f Hf. by apply tick_fish_ok. }
    specialize (IH (Database.upsert_aquarium
                      (Database.update_fish db fishes) a').2
                   (alter (fun _ => fishes) k fish)).
    destruct (tick_loop m l _ _) as [[l' db'] fish'].
    simpl in *. destruct IH as (IH1 & IH2 & IH3).
    + intros k0 fs. rewrite lookup_alter.
      case_decide as Hkk; [|apply Hfish].
      destruct (fish !! k); [|done]. by intros [= <-].
    + apply upsert_aquarium_ok; [|done]. by apply update_fish_ok.
    + split; [|done]. by constructor.
  - specialize (IH db fish Hfish Hdb).
    destruct (tick_loop m l db fish) as [[l' db'] fish'].
    simpl in *. destruct IH as (IH1 & IH2 & IH3).
    split; [|done]. by constructor.
Qed.

Lemma tick_ok now s : engine_ok s → engine_ok (tick now s).
Proof.
  intros (Ha & Hf & Hdb).
  destruct (Z.le_gt_cases now (_last_tick s)) as [H|H].
  - by rewrite tick_skipped.
  - rewrite tick_unfold by done.
    apply elapsed_minutes_pos in H.
    destruct (tick_loop_ok (elapsed_minutes now s) (_aquariums s)
                (_database s) (_fish s)) as (H1 & H2 & H3);
      [lra|done..|].
    done.
Qed.

Lemma feed_fish_ok k s : engine_ok s → engine_ok (feed_fish k s).
Proof.
  intros (Ha & Hf & Hdb). unfold feed_fish.
  assert (Forall fish_ok (map feed_one (default [] (_fish s !! k)))) as Hup.
  { apply Forall_fmap. destruct (_fish s !! k) as [fs|] eqn:Hfs; [|done].
    eapply Forall_impl; [exact (Hf k fs Hfs)|]. apply feed_one_ok. }
  destruct (map feed_one _) as [|f fs] eqn:Hm; [done|].
  split; [done|]. split; [|by apply update_fish_ok].
  intros k0 fs0. simpl. rewrite lookup_insert. case_decide.
  - by intros [= <-].
  - apply Hf.
Qed.

Lemma clean_aquarium_ok now k s :
  engine_ok s → engine_ok (clean_aquarium now k s).
Proof.
  intros (Ha & Hf & Hdb & Hdbf). unfold clean_aquarium.
  destruct (update_first _ _ _) as [[l' a']|] eqn:Hup; [|done].
  apply (update_first_Forall aquarium_ok) in Hup as [Hl' _]; [|done|].
  - split; [done|]. split; [done|]. split; [|done]. simpl.
    apply Forall_fmap. eapply Forall_impl; [exact Hdb|].
    intros r Hr. simpl. destruct (id_is (Aquarium.id r) k); [|done].
    unfold aquarium_ok. simpl. lra.
  - intros a _. unfold aquarium_ok. simpl. lra.
Qed.

Lemma create_aquarium_ok now name target s :
  engine_ok s →
  engine_ok (state_of (create_aquarium now name target s)).
Proof.
  intros (Ha & Hf & Hdb & Hdbf). unfold create_aquarium. simpl.
  assert (aquarium_ok
            (Aquarium.set_id
               (Some (Database.aquariums_seq (_database s) + 1)%Z)
               (Aquarium.mk None name target target 90 now))) as Hnew.
  { unfold aquarium_ok. simpl. lra. }
  split; [|split; [|split]]; simpl.
  - apply Forall_app. split; [done|]. by apply Forall_singleton.
  - intros k0 fs0. rewrite lookup_insert. case_decide; [|apply Hf].
    by intros [= <-].
  - apply Forall_app. split; [done|]. by apply Forall_singleton.
  - done.
Qed.

Lemma create_fish_ok now k name species s :
  engine_ok s →
  engine_ok (state_of (create_fish now k name species s)).
Proof.
  intros (Ha & Hf & Hdb & Hdbf). unfold create_fish, Database.insert_fish.
  simpl. destruct (Database.aquarium_exists (_database s) k); [|done].
  simpl.
  assert (fish_ok
            (Fish.set_id (Some (Database.fish_seq (_database s) + 1)%Z)
               (Fish.mk None k name species 35 95 now))) as Hnew.
  { unfold fish_ok. simpl. lra. }
  split; [done|]. split; [|split]; simpl.
  - intros k0 fs0. rewrite lookup_insert. case_decide; [|apply Hf].
    intros [= <-]. apply Forall_app. split; [|by apply Forall_singleton].
    destruct (_fish s !! k) as [fs|] eqn:Hfs; [|done]. by apply (Hf k).
  - done.
  - apply Forall_app. split; [done|]. by apply Forall_singleton.
Qed.

Lemma refresh_aquarium_environment_ok db a dt dc :
  store_ok db →
  aquarium_ok (Database.refresh_aquarium_environment db a dt dc).1 ∧
  store_ok (Database.refresh_aquarium_environment db a dt dc).2.
Proof.
  intros [Ha Hf].
  assert (0 <= py_max 0 (py_min 100 (Aquarium.cleanliness a + dc)) <= 100)%R
    as Hc by clamp.
  split; [exact Hc|]. split; [|done]. simpl.
  apply Forall_fmap. eapply Forall_impl; [exact Ha|].
  intros r Hr. simpl.
  destruct (where_id (Aquarium.id r) (Aquarium.id a)); [|done].
  exact Hc.
Qed.

(** C9. [tick], [feed_fish], [clean_aquarium], [create_aquarium],
    [create_fish] and the store's [refresh_aquarium_environment] keep
    cleanliness within [[0, 100]] for every aquarium and hunger within
    [[0, 100]] and health within [[10, 100]] for every fish, in the cache
    and in the store, when that was so before the call. *)
Theorem bounds_preserved s :
  engine_ok s →
  (∀ now, engine_ok (tick now s)) ∧
  (∀ k, engine_ok (feed_fish k s)) ∧
  (∀ now k, engine_ok (clean_aquarium now k s)) ∧
  (∀ now name target,
     engine_ok (state_of (create_aquarium now name target s))) ∧
  (∀ now k name species,
     engine_ok (state_of (create_fish now k name species s))) ∧
  (∀ a dt dc,
     let r := Database.refresh_aquarium_environment (_database s) a dt dc in
     aquarium_ok r.1 ∧ store_ok r.2).
Proof.
  intros Hs. split; [intros; by apply tick_ok|].
  split; [intros; by apply feed_fish_ok|].
  split; [intros; by apply clean_aquarium_ok|].
  split; [intros; by apply create_aquarium_ok|].
  split; [intros; by apply create_fish_ok|].
  intros a dt dc. apply refresh_aquarium_environment_ok. apply Hs.
Qed.

(** The commands the theorem on bounds does not list keep them as
    well. *)
Lemma other_commands_ok s :
  engine_ok s →
  (∀ k target, engine_ok (adjust_temperature k target s)) ∧
  (∀ k temp, engine_ok (register_temperature k temp s)) ∧
  (∀ fish_id k, engine_ok (remove_fish fish_id k s)).
Proof.
  intros (Ha & Hf & Hdb).
  assert (∀ k f,
            (∀ x, Aquarium.cleanliness (f x) = Aquarium.cleanliness x) →
            engine_ok
              match update_first (fun a => id_is (Aquarium.id a) k) f
                      (_aquariums s) with
              | Some (aquariums', aquarium) =>
                  mk (Database.upsert_aquarium (_database s) aquarium).2
                     aquariums' (_fish s) (_tasks s) (_last_tick s)
              | None => s
              end) as Hup.
  { intros k f Hc.
    destruct (update_first _ _ _) as [[l' a']|] eqn:Hup; [|done].
    apply (update_first_Forall aquarium_ok) in Hup as [Hl' Ha'];
      [|done|intros x; unfold aquarium_ok; by rewrite Hc].
    split; [done|]. split; [done|]. by apply upsert_aquarium_ok. }
  split; [intros; by apply Hup|]. split; [intros; by apply Hup|].
  intros fish_id k. destruct Hdb as [Hrows Hfrows].
  split; [done|]. split; [|split; [done|]]; simpl.
  - intros k0 fs0. rewrite lookup_insert. case_decide; [|apply Hf].
    intros [= <-]. destruct (_fish s !! k) as [fs|] eqn:Hfs; [|done].
    simpl. apply Forall_forall. intros f Hin.
    apply list_elem_of_filter in Hin as [_ Hin].
    pose proof (Hf k fs Hfs) as Hall. rewrite Forall_forall in Hall. auto.
  - apply Forall_forall. intros f Hin.
    apply list_elem_of_filter in Hin as [_ Hin].
    rewrite Forall_forall in Hfrows. auto.
Qed.

Lemma sample_engine_ok : engine_ok sample_engine.
Proof.
  assert (aquarium_ok sample_aquarium) as Ha
    by (unfold aquarium_ok; simpl; lra).
  assert (fish_ok sample_fish) as Hf by (unfold fish_ok; simpl; lra).
  split; [|split; [|split]].
  - by apply Forall_singleton.
  - intros k fs Hfs. simpl in Hfs.
    apply lookup_singleton_Some in Hfs as [_ <-].
    by apply Forall_singleton.
  - by apply Forall_singleton.
  - by apply Forall_singleton.
Defined.

(** ** Setting the temperature directly *)

(** C10. [register_temperature(aquarium_id, current_temperature)]
    overwrites the current temperature of the first cached aquarium with
    that id by the value given, as it is, and writes that aquarium to its
    row of the store; its name, target temperature, cleanliness and
    last-cleaned timestamp, the other aquariums, the fish and the tasks
    stay as they were.  For an id no cached aquarium has it changes
    nothing. *)
Theorem register_temperature_frame k temp s :
  (∀ l1 a l2,
     _aquariums s = l1 ++ a :: l2 →
     (∀ b, b ∈ l1 → Aquarium.id b ≠ Some k) →
     Aquarium.id a = Some k →
     let a' :=
       Aquarium.mk (Some k) (Aquarium.name a) (Aquarium.target_temperature a)
                   temp (Aquarium.cleanliness a) (Aquarium.last_cleaned_at a)
     in
     let s' := register_temperature k temp s in
     _aquariums s' = l1 ++ a' :: l2 ∧
     _database s' = (Database.upsert_aquarium (_database s) a').2 ∧
     Database.aquariums_rows (_database s') =
       map (fun r => if id_is (Aquarium.id r) k then a' else r)
           (Database.aquariums_rows (_database s)) ∧
     Database.fish_rows (_database s') = Database.fish_rows (_database s) ∧
     Database.tasks_rows (_database s') = Database.tasks_rows (_database s) ∧
     _fish s' = _fish s ∧
     _tasks s' = _tasks s ∧
     _last_tick s' = _last_tick s) ∧
  ((∀ a, a ∈ _aquariums s → Aquarium.id a ≠ Some k) →
   register_temperature k temp s = s).
Proof.
  split.
  - intros l1 a l2 Hl Hl1 Hk a' s'. subst s'. unfold register_temperature.
    rewrite Hl, (update_first_Some _ _ l1 a l2).
    + assert (Aquarium.set_current_temperature temp a = a') as ->.
      { unfold a', Aquarium.set_current_temperature. by rewrite Hk. }
      simpl. done.
    + intros b Hb. apply id_is_false. by apply Hl1.
    + by apply id_is_true.
  - intros H. unfold register_temperature. rewrite update_first_None; [done|].
    intros a Ha. apply id_is_false. by apply H.
Qed.

(** ** The theorems at work on the concrete engine *)

Lemma tick_fish_hunger_health_witness :
  ∃ fish',
    fish_for (tick (timedelta_minutes 20) sample_engine) 1 !! 0%nat
      = Some fish' ∧
    Fish.hunger fish' = 69%R ∧
    hunger_penalty 20 (Fish.hunger fish') = 0%R.
Proof.
  destruct (tick_fish_hunger_health (timedelta_minutes 20) sample_engine
              0 sample_aquarium 1 0 sample_fish)
    as (a' & fish' & _ & Hfish & Hhunger & _).
  - rewrite sample_elapsed. lra.
  - apply NoDup_singleton.
  - reflexivity.
  - reflexivity.
  - reflexivity.
  - rewrite sample_elapsed in Hhunger. simpl in Hhunger.
    assert (Fish.hunger fish' = 69%R) as H69.
    { rewrite Hhunger. unfold Rmin. destruct (Rle_dec _ _); lra. }
    exists fish'. split; [exact Hfish|]. split; [exact H69|].
    rewrite H69. unfold hunger_penalty. destruct (Rlt_dec _ _); lra.
Defined.

Lemma tick_cleanliness_witness :
  ∃ a', _aquariums (tick (timedelta_minutes 50) sample_engine) !! 0%nat
          = Some a' ∧
        Aquarium.cleanliness a' = 76%R.
Proof.
  destruct (tick_cleanliness (timedelta_minutes 50) sample_engine 0
              sample_aquarium) as (a' & Ha' & _ & H76).
  - rewrite sample_elapsed. lra.
  - reflexivity.
  - by eexists.
  - exists a'. split; [exact Ha'|]. apply H76; [|reflexivity].
    apply sample_elapsed.
Defined.


Lemma feed_fish_hunger_health_witness :
  ∃ fish',
    fish_for (feed_fish 1 sample_engine) 1 !! 0%nat = Some fish' ∧
    Fish.hunger fish' = 15%R ∧ Fish.health fish' = 90%R.
Proof.
  destruct (feed_fish_hunger_health sample_engine 1 0 sample_fish eq_refl)
    as (fish' & Hfish & Hhunger & Hhealth & _).
  exists fish'. split; [exact Hfish|]. split.
  - rewrite Hhunger. simpl. unfold Rmax. destruct (Rle_dec _ _); lra.
  - rewrite Hhealth. simpl. unfold Rmin. destruct (Rle_dec _ _); lra.
Defined.

Lemma due_tasks_iff_witness :
  ((0%nat, sample_aquarium)
     ∈ due_tasks (timedelta_minutes 240) sample_world) ∧
  ((0%nat, sample_aquarium)
     ∉ due_tasks (timedelta_minutes 240 - 1) sample_world).
Proof.
  assert (sample_aquarium ∈ _aquariums (self sample_world)) as Ha
    by apply list_elem_of_here.
  assert (0%nat ∈ tasks_for (self sample_world) 1) as Hr
    by apply list_elem_of_here.
  split.
  - apply (due_tasks_iff _ sample_world sample_aquarium 1 0 sample_task Ha
             eq_refl Hr eq_refl).
    simpl. unfold timedelta_minutes. lia.
  - intros Hin.
    apply (due_tasks_iff _ sample_world sample_aquarium 1 0 sample_task Ha
             eq_refl Hr eq_refl) in Hin.
    simpl in Hin. unfold timedelta_minutes in Hin. lia.
Defined.

Lemma add_task_due_then_done_witness :
  ∃ ref w1 w2,
    add_task 1000 1 "limpeza" 240 sample_world = Returns ref w1 ∧
    (ref, sample_aquarium) ∈ due_tasks 1000 w1 ∧
    mark_task_done 2000 ref w1 = Returns () w2 ∧
    ((ref, sample_aquarium)
       ∉ due_tasks (2000 + timedelta_minutes 240 - 1) w2) ∧
    ((ref, sample_aquarium) ∈ due_tasks (2000 + timedelta_minutes 240) w2).
Proof.
  destruct add_task_due_then_done as [Hadd Hdone].
  destruct (Hadd 1000%Z 1%Z "limpeza" 240%Z sample_world eq_refl)
    as (ref & w1 & task & Hret & Hobj & Hid & Hint & _ & _ & Hr & Haq & _
        & Hdue).
  assert (sample_aquarium ∈ _aquariums (self w1)) as Ha
    by (rewrite Haq; apply list_elem_of_here).
  destruct (Hdone 2000%Z ref w1 task Hobj Hid)
    as (w2 & task' & Hret2 & _ & _ & _ & _ & _ & _ & Hlater).
  exists ref, w1, w2. split; [exact Hret|]. split; [by apply Hdue|].
  split; [exact Hret2|]. rewrite Hint in Hlater. split.
  - intros Hin. apply (Hlater _ sample_aquarium 1%Z Ha eq_refl Hr) in Hin.
    lia.
  - apply (Hlater _ sample_aquarium 1%Z Ha eq_refl Hr). lia.
Defined.

Lemma tick_no_elapsed_time_witness :
  tick 0 sample_engine = sample_engine ∧
  tick 0 (tick 0 sample_engine) = tick 0 sample_engine.
Proof.
  destruct (tick_no_elapsed_time 0 sample_engine) as [Hskip Htwice].
  split; [|exact Htwice]. apply Hskip. simpl. lia.
Defined.

Lemma unknown_aquarium_ignored_witness :
  call (clean_aquarium 5 7) sample_engine = Returns () sample_engine ∧
  call (adjust_temperature 7 26) sample_engine = Returns () sample_engine ∧
  call (feed_fish 7) sample_engine = Returns () sample_engine.
Proof. exact (unknown_aquarium_ignored 5 7 26 sample_engine
                sample_unknown_aquarium). Defined.

Lemma bounds_preserved_witness :
  engine_ok sample_engine ∧
  engine_ok (tick (timedelta_minutes 50) sample_engine) ∧
  engine_ok (feed_fish 1 sample_engine) ∧
  engine_ok (clean_aquarium 5 1 sample_engine).
Proof.
  pose proof (bounds_preserved sample_engine sample_engine_ok)
    as (Htick & Hfeed & Hclean & _).
  split; [exact sample_engine_ok|]. split; [apply Htick|].
  split; [apply Hfeed|apply Hclean].
Defined.

Lemma register_temperature_frame_witness :
  _aquariums (register_temperature 1 30 sample_engine)
    = [Aquarium.mk (Some 1%Z) "Aquário Principal" 25 30 85 0] ∧
  Database.aquariums_rows (_database (register_temperature 1 30 sample_engine))
    = [Aquarium.mk (Some 1%Z) "Aquário Principal" 25 30 85 0] ∧
  register_temperature 7 30 sample_engine = sample_engine.
Proof.
  destruct (register_temperature_frame 1 30 sample_engine) as [Hknown _].
  destruct (register_temperature_frame 7 30 sample_engine) as [_ Hunknown].
  destruct (Hknown [] sample_aquarium [] eq_refl) as (Hcache & _ & Hrows & _).
  - intros b Hb. inversion Hb.
  - reflexivity.
  - split; [exact Hcache|]. split; [exact Hrows|]. apply Hunknown.
    intros a Ha. apply list_elem_of_singleton in Ha as ->. discriminate.
Defined.

(** * Further properties *)

(** ** Tables *)

Section tables.
Context {A : Type} (id : A → option Z).

#[local] Instance by_id_transitive : Transitive (Database.by_id id).
Proof. intros x y z. unfold Database.by_id. lia. Qed.

#[local] Instance by_id_total : Total (Database.by_id id).
Proof. intros x y. unfold Database.by_id. lia. Qed.

Lemma table_wf_nil seq : table_wf id seq [].
Proof. split; constructor. Qed.

Lemma table_wf_grow seq seq' rows :
  (seq ≤ seq')%Z → table_wf id seq rows → table_wf id seq' rows.
Proof.
  intros Hle [Hall Hsorted]. split; [|done].
  eapply Forall_impl; [exact Hall|]. intros r (k & Hk & Hks).
  exists k. split; [done|lia].
Qed.

Lemma table_wf_snoc seq rows r :
  table_wf id seq rows →
  id r = Some (seq + 1)%Z →
  table_wf id (seq + 1) (rows ++ [r]).
Proof.
  intros [Hall Hsorted] Hr. split.
  - apply Forall_app. split.
    + eapply Forall_impl; [exact Hall|]. intros x (k & Hk & Hks).
      exists k. split; [done|lia].
    + apply Forall_singleton. exists (seq + 1)%Z. split; [done|lia].
  - apply StronglySorted_app_2; [|done|repeat constructor].
    intros x y Hx ->%list_elem_of_singleton.
    rewrite Forall_forall in Hall. destruct (Hall x Hx) as (k & Hk & Hks).
    unfold id_lt. rewrite Hk, Hr. simpl. lia.
Qed.

Lemma StronglySorted_fmap_keys (g : A → A) rows :
  (∀ r, id (g r) = id r) →
  StronglySorted (id_lt id) rows → StronglySorted (id_lt id) (map g rows).
Proof.
  intros Hg. induction 1 as [|x l Hl IH Hx]; simpl; constructor; [done|].
  apply Forall_fmap. eapply Forall_impl; [exact Hx|].
  intros y Hy. unfold id_lt in *. simpl. by rewrite !Hg.
Qed.

Lemma table_wf_map seq (g : A → A) rows :
  (∀ r, id (g r) = id r) →
  table_wf id seq rows → table_wf id seq (map g rows).
Proof.
  intros Hg [Hall Hsorted]. split.
  - apply Forall_fmap. eapply Forall_impl; [exact Hall|].
    intros r Hr. simpl. by rewrite Hg.
  - by apply StronglySorted_fmap_keys.
Qed.

Lemma StronglySorted_filter (P : A → Prop) `{∀ r, Decision (P r)} rows :
  StronglySorted (id_lt id) rows →
  StronglySorted (id_lt id) (filter P rows).
Proof.
  induction 1 as [|x l Hl IH Hx]; [constructor|].
  rewrite filter_cons. case_decide; [|done]. constructor; [done|].
  apply Forall_forall. intros y Hy. apply list_elem_of_filter in Hy as [_ Hy].
  rewrite Forall_forall in Hx. auto.
Qed.

Lemma table_wf_filter seq (P : A → Prop) `{∀ r, Decision (P r)} rows :
  table_wf id seq rows → table_wf id seq (filter P rows).
Proof.
  intros [Hall Hsorted]. split; [|by apply StronglySorted_filter].
  apply Forall_forall. intros y Hy. apply list_elem_of_filter in Hy as [_ Hy].
  rewrite Forall_forall in Hall. auto.
Qed.

(** No two rows of a table share an id. *)
Lemma table_same_key rows x y :
  StronglySorted (id_lt id) rows →
  x ∈ rows → y ∈ rows →
  Database.key (id x) = Database.key (id y) → x = y.
Proof.
  induction 1 as [|z l Hl IH Hz]; intros Hx Hy Hid; [by inversion Hx|].
  rewrite Forall_forall in Hz. unfold id_lt in Hz.
  apply elem_of_cons in Hx as [->|Hx]; apply elem_of_cons in Hy as [->|Hy].
  - done.
  - specialize (Hz y Hy). lia.
  - specialize (Hz x Hx). lia.
  - by apply IH.
Qed.

Lemma table_same_id rows x y :
  StronglySorted (id_lt id) rows →
  x ∈ rows → y ∈ rows → id x = id y → x = y.
Proof.
  intros Hsorted Hx Hy Hid. apply (table_same_key rows); [done..|].
  by rewrite Hid.
Qed.

(** [ORDER BY id] returns a table as it lies. *)
Lemma sorted_by_id rows :
  StronglySorted (id_lt id) rows →
  merge_sort (Database.by_id id) rows = rows.
Proof.
  intros Hsorted.
  apply (Sorted_unique_strong (Database.by_id id)).
  - intros x y Hx Hy Hxy Hyx.
    rewrite merge_sort_Permutation in Hx.
    unfold Database.by_id in *.
    apply (table_same_key rows); [done..|lia].
  - apply Sorted_merge_sort. apply _.
  - apply StronglySorted_Sorted.
    induction Hsorted as [|z l Hl IH Hz]; constructor; [done|].
    eapply Forall_impl; [exact Hz|].
    intros y. unfold id_lt, Database.by_id. lia.
  - apply merge_sort_Permutation.
Qed.

Lemma table_wf_primary_key seq rows :
  table_wf id seq rows → primary_key seq (map id rows).
Proof.
  intros [Hall Hsorted]. split.
  - apply Forall_fmap. eapply Forall_impl; [exact Hall|]. done.
  - clear Hall. induction Hsorted as [|x l Hl IH Hx]; [constructor|].
    simpl. constructor; [|done]. intros Hin.
    apply list_elem_of_fmap in Hin as (y & Hid & Hy).
    rewrite Forall_forall in Hx. specialize (Hx y Hy).
    unfold id_lt in Hx. rewrite Hid in Hx. lia.
Qed.
End tables.

(** ** The store keeps its keys *)

Lemma aquarium_exists_same_ids db db' k :
  map Aquarium.id (Database.aquariums_rows db')
    = map Aquarium.id (Database.aquariums_rows db) →
  Database.aquarium_exists db' k = Database.aquarium_exists db k.
Proof.
  intros Hids. apply eq_true_iff_eq.
  by rewrite !aquarium_exists_iff, Hids.
Qed.

Lemma foreign_key_kept {A} (aid : A → Z) db db' (g : A → A) rows :
  (∀ k, Database.aquarium_exists db k = true →
        Database.aquarium_exists db' k = true) →
  (∀ r, aid (g r) = aid r) →
  Forall (fun r => Database.aquarium_exists db (aid r) = true) rows →
  Forall (fun r => Database.aquarium_exists db' (aid r) = true) (map g rows).
Proof.
  intros Hex Hg Hall. apply Forall_fmap. eapply Forall_impl; [exact Hall|].
  intros r Hr. simpl. rewrite Hg. by apply Hex.
Qed.

Lemma foreign_key_same {A} (aid : A → Z) db db' rows :
  (∀ k, Database.aquarium_exists db k = true →
        Database.aquarium_exists db' k = true) →
  Forall (fun r => Database.aquarium_exists db (aid r) = true) rows →
  Forall (fun r => Database.aquarium_exists db' (aid r) = true) rows.
Proof.
  intros Hex Hall. eapply Forall_impl; [exact Hall|]. intros r. apply Hex.
Qed.

Lemma upsert_aquarium_store_wf db a :
  store_wf db → store_wf (Database.upsert_aquarium db a).2.
Proof.
  intros (Ha & Hf & Ht & Hfk & Htk). unfold Database.upsert_aquarium.
  destruct (Aquarium.id a) as [k|] eqn:Hk; simpl.
  - assert (map Aquarium.id
              (map (fun r => if id_is (Aquarium.id r) k
                             then Aquarium.set_id (Some k) a else r)
                   (Database.aquariums_rows db))
            = map Aquarium.id (Database.aquariums_rows db)) as Hids.
    { apply updated_rows_ids. intros r Hr. apply id_is_true in Hr.
      by rewrite Hr. }
    split; [|split; [done|split; [done|]]].
    + apply table_wf_map; [|done]. intros r.
      destruct (id_is (Aquarium.id r) k) eqn:Hrk; [|done].
      apply id_is_true in Hrk. by rewrite Hrk.
    + split; (eapply foreign_key_same; [|done]); intros j Hj;
        rewrite <- Hj; apply aquarium_exists_same_ids; exact Hids.
  - split; [|split; [done|split; [done|]]].
    + by apply table_wf_snoc.
    + split; (eapply foreign_key_same; [|done]); intros j;
        rewrite !aquarium_exists_iff; simpl; rewrite map_app;
        intros Hin; apply elem_of_app; by left.
Qed.

Lemma update_fish_row_keys rows fish :
  map Fish.id (Database.update_fish_row rows fish) = map Fish.id rows ∧
  map Fish.aquarium_id (Database.update_fish_row rows fish)
    = map Fish.aquarium_id rows.
Proof.
  unfold Database.update_fish_row. destruct (Fish.id fish) as [k|]; [|done].
  rewrite <- !list_fmap_compose.
  split; apply list_fmap_ext; intros i r _; simpl;
    by destruct (id_is (Fish.id r) k).
Qed.

Lemma update_fish_rows_keys rows fishes :
  map Fish.id (foldl Database.update_fish_row rows fishes) = map Fish.id rows ∧
  map Fish.aquarium_id (foldl Database.update_fish_row rows fishes)
    = map Fish.aquarium_id rows.
Proof.
  revert rows. induction fishes as [|f fs IH]; intros rows; [done|].
  simpl. destruct (IH (Database.update_fish_row rows f)) as [-> ->].
  apply update_fish_row_keys.
Qed.

Lemma Forall_same_image {A B} (f : A → B) (P : B → Prop) l l' :
  map f l' = map f l →
  Forall (fun x => P (f x)) l → Forall (fun x => P (f x)) l'.
Proof.
  intros Hmap Hall. revert l' Hmap.
  induction Hall as [|x l Hx Hl IH]; intros [|y l'] [=]; constructor.
  - congruence.
  - by apply IH.
Qed.

(** Whether a list of rows is a table depends on its ids only. *)
Lemma table_wf_ids {A} (id : A → option Z) seq rows rows' :
  map id rows' = map id rows →
  table_wf id seq rows → table_wf id seq rows'.
Proof.
  intros Hids [Hall Hsorted]. split.
  - exact (Forall_same_image id
             (fun o => ∃ k, o = Some k ∧ (k ≤ seq)%Z) rows rows' Hids Hall).
  - clear Hall. revert rows' Hids.
    induction Hsorted as [|x l Hl IH Hx]; intros [|y l'] Heq;
      try discriminate; [constructor|].
    injection Heq as Hy Hl'. constructor.
    + by apply IH.
    + unfold id_lt. rewrite Hy.
      exact (Forall_same_image id
               (fun o => (Database.key (id x) < Database.key o)%Z)
               l l' Hl' Hx).
Qed.

Lemma foreign_key_ids {A} (aid : A → Z) db rows rows' :
  map aid rows' = map aid rows →
  Forall (fun r => Database.aquarium_exists db (aid r) = true) rows →
  Forall (fun r => Database.aquarium_exists db (aid r) = true) rows'.
Proof.
  intros Hids Hall.
  exact (Forall_same_image aid
           (fun k => Database.aquarium_exists db k = true)
           rows rows' Hids Hall).
Qed.

Lemma update_fish_store_wf db fishes :
  store_wf db → store_wf (Database.update_fish db fishes).
Proof.
  intros (Ha & Hf & Ht & Hfk & Htk).
  destruct (update_fish_rows_keys (Database.fish_rows db) fishes)
    as [Hids Haids].
  split; [done|]. split; [by eapply table_wf_ids|].
  split; [done|]. split; [|done].
  eapply (foreign_key_ids Fish.aquarium_id db); [exact Haids|done].
Qed.

Lemma insert_fish_store_wf db fish stored db' :
  store_wf db →
  Database.insert_fish db fish = inr (stored, db') →
  store_wf db'.
Proof.
  intros (Ha & Hf & Ht & Hfk & Htk). unfold Database.insert_fish.
  destruct (Database.aquarium_exists db (Fish.aquarium_id fish)) eqn:Hex;
    [|done].
  intros [= <- <-]. split; [done|]. split; [by apply table_wf_snoc|].
  split; [done|]. split; [|done]. simpl.
  apply Forall_app. split; [done|]. by apply Forall_singleton.
Qed.

Lemma delete_fish_store_wf db fish_id :
  store_wf db → store_wf (Database.delete_fish db fish_id).
Proof.
  intros (Ha & Hf & Ht & Hfk & Htk).
  split; [done|]. split; [by apply table_wf_filter|].
  split; [done|]. split; [|done]. simpl.
  apply Forall_forall. intros r Hr. apply list_elem_of_filter in Hr as [_ Hr].
  rewrite Forall_forall in Hfk. by apply Hfk.
Qed.

Lemma delete_aquarium_store_wf db aquarium_id :
  store_wf db → store_wf (Database.delete_aquarium db aquarium_id).
Proof.
  intros (Ha & Hf & Ht & Hfk & Htk).
  assert (∀ k, k ≠ aquarium_id →
               Database.aquarium_exists db k = true →
               Database.aquarium_exists
                 (Database.delete_aquarium db aquarium_id) k = true) as Hex.
  { intros k Hk. rewrite !aquarium_exists_iff. simpl.
    intros Hin. apply list_elem_of_fmap in Hin as (r & Hid & Hr).
    apply list_elem_of_fmap. exists r. split; [done|].
    apply list_elem_of_filter. split; [|done].
    apply id_is_false. congruence. }
  split; [by apply table_wf_filter|]. split; [by apply table_wf_filter|].
  split; [by apply table_wf_filter|].
  split; apply Forall_forall; intros r Hr;
    apply list_elem_of_filter in Hr as [Hne Hr].
  - rewrite Forall_forall in Hfk. by apply Hex, Hfk.
  - rewrite Forall_forall in Htk. by apply Hex, Htk.
Qed.

Lemma upsert_task_store_wf db task stored db' :
  store_wf db →
  Database.upsert_task db task = inr (stored, db') →
  store_wf db'.
Proof.
  intros (Ha & Hf & Ht & Hfk & Htk). unfold Database.upsert_task.
  destruct (Task.id task) as [k|] eqn:Hk.
  - intros [= <- <-]. split; [done|]. split; [done|].
    split; [|split; [done|]]; simpl.
    + apply table_wf_map; [|done]. intros r.
      by destruct (id_is (Task.id r) k).
    + apply (foreign_key_kept Task.aquarium_id db); [done| |done].
      intros r. by destruct (id_is (Task.id r) k).
  - destruct (Database.aquarium_exists db (Task.aquarium_id task)) eqn:Hex;
      [|done].
    intros [= <- <-]. split; [done|]. split; [done|].
    split; [by apply table_wf_snoc|]. split; [done|]. simpl.
    apply Forall_app. split; [done|]. by apply Forall_singleton.
Qed.

Lemma update_task_timestamp_store_wf db task_id timestamp :
  store_wf db →
  store_wf (Database.update_task_timestamp db task_id timestamp).
Proof.
  intros (Ha & Hf & Ht & Hfk & Htk). split; [done|]. split; [done|].
  split; [|split; [done|]]; simpl.
  - apply table_wf_map; [|done]. intros r.
    by destruct (id_is (Task.id r) task_id).
  - apply (foreign_key_kept Task.aquarium_id db); [done| |done].
    intros r. by destruct (id_is (Task.id r) task_id).
Qed.

Lemma retouched_aquariums_store_wf db (hit : Aquarium.t → bool) g :
  (∀ r, Aquarium.id (g r) = Aquarium.id r) →
  store_wf db →
  store_wf
    (Database.commit
       (Database.with_aquariums
          (map (fun r => if hit r then g r else r)
               (Database.aquariums_rows db)) db)).
Proof.
  intros Hg (Ha & Hf & Ht & Hfk & Htk).
  assert (map Aquarium.id
            (map (fun r => if hit r then g r else r)
                 (Database.aquariums_rows db))
          = map Aquarium.id (Database.aquariums_rows db)) as Hids.
  { apply updated_rows_ids. intros r _. apply Hg. }
  split; [by eapply table_wf_ids|]. split; [done|]. split; [done|].
  split; (eapply foreign_key_same; [|done]); intros j Hj;
    rewrite <- Hj; apply aquarium_exists_same_ids; exact Hids.
Qed.

Lemma set_aquarium_cleaned_store_wf db aquarium_id timestamp :
  store_wf db →
  store_wf (Database.set_aquarium_cleaned db aquarium_id timestamp).
Proof. by apply retouched_aquariums_store_wf. Qed.

Lemma refresh_aquarium_environment_store_wf db a dt dc :
  store_wf db →
  store_wf (Database.refresh_aquarium_environment db a dt dc).2.
Proof. by apply retouched_aquariums_store_wf. Qed.

(** X1. Every operation of the store keeps its tables well formed: each
    row has an id, ids are unique, increase along the table and stay
    within the AUTOINCREMENT counter, and every fish and task row refers
    to an aquarium that has a row ([delete_aquarium] takes the dependent
    rows along). *)
Theorem store_operations_keep_keys db :
  store_wf db →
  (∀ a, store_wf (Database.upsert_aquarium db a).2) ∧
  (∀ fish stored db',
     Database.insert_fish db fish = inr (stored, db') → store_wf db') ∧
  (∀ fishes, store_wf (Database.update_fish db fishes)) ∧
  (∀ fish_id, store_wf (Database.delete_fish db fish_id)) ∧
  (∀ aquarium_id, store_wf (Database.delete_aquarium db aquarium_id)) ∧
  (∀ task stored db',
     Database.upsert_task db task = inr (stored, db') → store_wf db') ∧
  (∀ task_id timestamp,
     store_wf (Database.update_task_timestamp db task_id timestamp)) ∧
  (∀ a dt dc, store_wf (Database.refresh_aquarium_environment db a dt dc).2) ∧
  (∀ aquarium_id timestamp,
     store_wf (Database.set_aquarium_cleaned db aquarium_id timestamp)).
Proof.
  intros Hdb.
  split; [intros; by apply upsert_aquarium_store_wf|].
  split; [intros; by eapply insert_fish_store_wf|].
  split; [intros; by apply update_fish_store_wf|].
  split; [intros; by apply delete_fish_store_wf|].
  split; [intros; by apply delete_aquarium_store_wf|].
  split; [intros; by eapply upsert_task_store_wf|].
  split; [intros; by apply update_task_timestamp_store_wf|].
  split; [intros; by apply refresh_aquarium_environment_store_wf|].
  intros; by apply set_aquarium_cleaned_store_wf.
Qed.

(** ** Reading back what was written *)

Lemma aquariums_rows_sorted db :
  store_wf db → Database.aquariums db = Database.aquariums_rows db.
Proof. intros ([_ Hsorted] & _). by apply sorted_by_id. Qed.

Lemma fish_for_aquarium_rows db k :
  store_wf db →
  Database.fish_for_aquarium db k
    = filter (fun r => Fish.aquarium_id r = k) (Database.fish_rows db).
Proof.
  intros (_ & [_ Hsorted] & _). unfold Database.fish_for_aquarium.
  by apply sorted_by_id, StronglySorted_filter.
Qed.

Lemma tasks_for_aquarium_rows db k :
  store_wf db →
  Database.tasks_for_aquarium db k
    = filter (fun r => Task.aquarium_id r = k) (Database.tasks_rows db).
Proof.
  intros (_ & _ & [_ Hsorted] & _). unfold Database.tasks_for_aquarium.
  by apply sorted_by_id, StronglySorted_filter.
Qed.

(** X2. An insert is read back by the list accessor of its table, after
    all the rows that were there: [upsert_aquarium] of an aquarium without
    id, [insert_fish] and [upsert_task] of a task without id return the
    row with a fresh id, and [aquariums()], [fish_for_aquarium] and
    [tasks_for_aquarium] then return the former answer followed by that
    row, and the former answer for every other aquarium. *)
Theorem insert_then_list db :
  store_wf db →
  (∀ a, Aquarium.id a = None →
     let r := Database.upsert_aquarium db a in
     r.1 = Aquarium.set_id (Some (Database.aquariums_seq db + 1)%Z) a ∧
     Database.aquariums r.2 = Database.aquariums db ++ [r.1]) ∧
  (∀ fish stored db',
     Database.insert_fish db fish = inr (stored, db') →
     stored = Fish.set_id (Some (Database.fish_seq db + 1)%Z) fish ∧
     Database.fish_for_aquarium db' (Fish.aquarium_id fish)
       = Database.fish_for_aquarium db (Fish.aquarium_id fish) ++ [stored] ∧
     ∀ k, k ≠ Fish.aquarium_id fish →
          Database.fish_for_aquarium db' k = Database.fish_for_aquarium db k) ∧
  (∀ task stored db',
     Task.id task = None →
     Database.upsert_task db task = inr (stored, db') →
     stored = Task.set_id (Some (Database.tasks_seq db + 1)%Z) task ∧
     Database.tasks_for_aquarium db' (Task.aquarium_id task)
       = Database.tasks_for_aquarium db (Task.aquarium_id task) ++ [stored] ∧
     ∀ k, k ≠ Task.aquarium_id task →
          Database.tasks_for_aquarium db' k
            = Database.tasks_for_aquarium db k).
Proof.
  intros Hdb. split; [|split].
  - intros a Ha r.
    pose proof (upsert_aquarium_store_wf db a Hdb) as Hdb'. fold r in Hdb'.
    rewrite !aquariums_rows_sorted by done.
    subst r. unfold Database.upsert_aquarium. by rewrite Ha.
  - intros fish stored db' Hins.
    pose proof (insert_fish_store_wf db fish stored db' Hdb Hins) as Hdb'.
    rewrite !fish_for_aquarium_rows by done.
    unfold Database.insert_fish in Hins.
    destruct (Database.aquarium_exists db (Fish.aquarium_id fish)); [|done].
    injection Hins as <- <-. simpl. split; [done|].
    rewrite filter_app, filter_cons, filter_nil. simpl.
    split; [by rewrite decide_True|].
    intros k Hk. rewrite !fish_for_aquarium_rows by done. simpl.
    rewrite filter_app, filter_cons, filter_nil. simpl.
    rewrite decide_False by congruence. by rewrite app_nil_r.
  - intros task stored db' Hid Hins.
    pose proof (upsert_task_store_wf db task stored db' Hdb Hins) as Hdb'.
    rewrite !tasks_for_aquarium_rows by done.
    unfold Database.upsert_task in Hins. rewrite Hid in Hins.
    destruct (Database.aquarium_exists db (Task.aquarium_id task)); [|done].
    injection Hins as <- <-. simpl. split; [done|].
    rewrite filter_app, filter_cons, filter_nil. simpl.
    split; [by rewrite decide_True|].
    intros k Hk. rewrite !tasks_for_aquarium_rows by done. simpl.
    rewrite filter_app, filter_cons, filter_nil. simpl.
    rewrite decide_False by congruence. by rewrite app_nil_r.
Qed.

(** ** Writes addressed to a row that is not there *)

Lemma untouched_rows {A} (hit : A → bool) (g : A → A) rows :
  (∀ r, r ∈ rows → hit r = false) →
  map (fun r => if hit r then g r else r) rows = rows.
Proof.
  intros Hno. induction rows as [|r rows IH]; [done|]. simpl.
  rewrite (Hno r) by (by left). f_equal. apply IH.
  intros x Hx. apply Hno. by right.
Qed.

Lemma filter_keeps_all {A} (P : A → Prop) `{∀ r, Decision (P r)}
    (rows : list A) :
  (∀ r, r ∈ rows → P r) → filter P rows = rows.
Proof.
  intros Hall. induction rows as [|r rows IH]; [done|].
  rewrite filter_cons, decide_True by (apply Hall; by left).
  f_equal. apply IH. intros x Hx. apply Hall. by right.
Qed.

Lemma no_row_with_id {A} (id : A → option Z) rows k :
  Some k ∉ map id rows → ∀ r, r ∈ rows → id_is (id r) k = false.
Proof.
  intros Hno r Hr. apply id_is_false. intros Hid. apply Hno.
  rewrite <- Hid. apply list_elem_of_fmap. eauto.
Qed.

Lemma update_fish_rows_absent rows fishes :
  (∀ f k, f ∈ fishes → Fish.id f = Some k → Some k ∉ map Fish.id rows) →
  foldl Database.update_fish_row rows fishes = rows.
Proof.
  induction fishes as [|f fs IH]; intros Hno; [done|]. simpl.
  assert (Database.update_fish_row rows f = rows) as ->.
  { unfold Database.update_fish_row.
    destruct (Fish.id f) as [k|] eqn:Hk; [|done].
    apply untouched_rows. apply (no_row_with_id Fish.id).
    apply (Hno f); [by left|done]. }
  apply IH. intros g k Hg. apply Hno. by right.
Qed.

(** X3. A write addressed to an id that no row of the table has changes
    no row and raises nothing; all it leaves is one more commit.  This
    holds of the update branch of [upsert_aquarium] and of [upsert_task],
    of [set_aquarium_cleaned], [update_task_timestamp], [delete_fish], and
    of [update_fish] on fish that have no id or no row. *)
Theorem write_to_missing_row db :
  (∀ k, Some k ∉ map Aquarium.id (Database.aquariums_rows db) →
     (∀ a, Aquarium.id a = Some k →
           Database.upsert_aquarium db a = (a, Database.commit db)) ∧
     (∀ timestamp,
        Database.set_aquarium_cleaned db k timestamp = Database.commit db)) ∧
  (∀ k, Some k ∉ map Task.id (Database.tasks_rows db) →
     (∀ task, Task.id task = Some k →
              Database.upsert_task db task = inr (task, Database.commit db)) ∧
     (∀ timestamp,
        Database.update_task_timestamp db k timestamp = Database.commit db)) ∧
  (∀ k, Some k ∉ map Fish.id (Database.fish_rows db) →
        Database.delete_fish db k = Database.commit db) ∧
  (∀ fishes,
     (∀ f k, f ∈ fishes → Fish.id f = Some k →
             Some k ∉ map Fish.id (Database.fish_rows db)) →
     Database.update_fish db fishes = Database.commit db).
Proof.
  destruct db as [ar fr tr sa sf st c]. simpl.
  split; [|split; [|split]].
  - intros k Hno. pose proof (no_row_with_id Aquarium.id ar k Hno) as Hrows.
    split.
    + intros a Ha. unfold Database.upsert_aquarium. rewrite Ha. simpl.
      by rewrite untouched_rows.
    + intros timestamp. unfold Database.set_aquarium_cleaned. simpl.
      by rewrite untouched_rows.
  - intros k Hno. pose proof (no_row_with_id Task.id tr k Hno) as Hrows.
    split.
    + intros task Htask. unfold Database.upsert_task. rewrite Htask. simpl.
      by rewrite untouched_rows.
    + intros timestamp. unfold Database.update_task_timestamp. simpl.
      by rewrite untouched_rows.
  - intros k Hno. pose proof (no_row_with_id Fish.id fr k Hno) as Hrows.
    unfold Database.delete_fish. simpl. by rewrite filter_keeps_all.
  - intros fishes Hno. unfold Database.update_fish. simpl.
    by rewrite update_fish_rows_absent.
Qed.

(** ** Cleaning and retargeting *)

(** X4. [clean_aquarium(aquarium_id)] sets the cleanliness of the first
    cached aquarium with that id to 100 and its last-cleaned timestamp to
    the time of the call, and nothing else in the cache; in the store the
    rows with that id get the same two values and keep their other
    columns, and the other rows are untouched. *)
Theorem clean_aquarium_effect now k s l1 a l2 :
  _aquariums s = l1 ++ a :: l2 →
  (∀ b, b ∈ l1 → Aquarium.id b ≠ Some k) →
  Aquarium.id a = Some k →
  let s' := clean_aquarium now k s in
  _aquariums s' =
    l1 ++ Aquarium.mk (Some k) (Aquarium.name a)
            (Aquarium.target_temperature a) (Aquarium.current_temperature a)
            100 now :: l2 ∧
  Database.aquariums_rows (_database s') =
    map (fun r => if id_is (Aquarium.id r) k
                  then Aquarium.mk (Aquarium.id r) (Aquarium.name r)
                         (Aquarium.target_temperature r)
                         (Aquarium.current_temperature r) 100 now
                  else r)
        (Database.aquariums_rows (_database s)) ∧
  Database.fish_rows (_database s') = Database.fish_rows (_database s) ∧
  Database.tasks_rows (_database s') = Database.tasks_rows (_database s) ∧
  _fish s' = _fish s ∧ _tasks s' = _tasks s ∧ _last_tick s' = _last_tick s.
Proof.
  intros Hl Hl1 Hk s'. subst s'. unfold clean_aquarium.
  rewrite Hl, (update_first_Some _ _ l1 a l2).
  - simpl. unfold Aquarium.set_last_cleaned_at, Aquarium.set_cleanliness.
    simpl. by rewrite Hk.
  - intros b Hb. apply id_is_false. by apply Hl1.
  - by apply id_is_true.
Qed.

(** X5. [adjust_temperature(aquarium_id, target)] changes the target
    temperature of the first cached aquarium with that id and nothing
    else of it, the current temperature included, and writes that
    aquarium to the rows of the store with its id; for an id that no
    cached aquarium has the engine stays as it is. *)
Theorem adjust_temperature_effect k target s :
  (∀ l1 a l2,
     _aquariums s = l1 ++ a :: l2 →
     (∀ b, b ∈ l1 → Aquarium.id b ≠ Some k) →
     Aquarium.id a = Some k →
     let a' :=
       Aquarium.mk (Some k) (Aquarium.name a) target
                   (Aquarium.current_temperature a) (Aquarium.cleanliness a)
                   (Aquarium.last_cleaned_at a) in
     let s' := adjust_temperature k target s in
     _aquariums s' = l1 ++ a' :: l2 ∧
     Database.aquariums_rows (_database s') =
       map (fun r => if id_is (Aquarium.id r) k then a' else r)
           (Database.aquariums_rows (_database s)) ∧
     Database.fish_rows (_database s') = Database.fish_rows (_database s) ∧
     Database.tasks_rows (_database s') = Database.tasks_rows (_database s) ∧
     _fish s' = _fish s ∧ _tasks s' = _tasks s ∧
     _last_tick s' = _last_tick s) ∧
  ((∀ a, a ∈ _aquariums s → Aquarium.id a ≠ Some k) →
   adjust_temperature k target s = s).
Proof.
  split.
  - intros l1 a l2 Hl Hl1 Hk a' s'. subst s'. unfold adjust_temperature.
    rewrite Hl, (update_first_Some _ _ l1 a l2).
    + assert (Aquarium.set_target_temperature target a = a') as ->.
      { unfold a', Aquarium.set_target_temperature. by rewrite Hk. }
      simpl. done.
    + intros b Hb. apply id_is_false. by apply Hl1.
    + by apply id_is_true.
  - intros H. unfold adjust_temperature. rewrite update_first_None; [done|].
    intros a Ha. apply id_is_false. by apply H.
Qed.

(** ** Which way ticks and feedings move *)

Lemma tick_fish_for now s j a k :
  (_last_tick s < now)%Z →
  NoDup (cached_ids (_aquariums s)) →
  _aquariums s !! j = Some a →
  Aquarium.id a = Some k →
  fish_for (tick now s) k =
    map (tick_fish (elapsed_minutes now s)
           (tick_aquarium (elapsed_minutes now s) a))
        (fish_for s k).
Proof.
  intros Hlt Hnd Hj Hk. unfold fish_for.
  rewrite tick_unfold by done. simpl.
  rewrite (tick_loop_fish _ _ _ _ j a) by done.
  by destruct (_fish s !! k).
Qed.

Lemma elapsed_minutes_nonneg now s :
  (_last_tick s ≤ now)%Z → (0 <= elapsed_minutes now s)%R.
Proof.
  intros H. unfold elapsed_minutes, total_seconds.
  assert (0 <= IZR (now - _last_tick s))%R by (apply IZR_le; lia). lra.
Qed.

Lemma tick_aquarium_wears m a :
  (0 <= m)%R → (0 <= Aquarium.cleanliness a)%R →
  (Aquarium.cleanliness (tick_aquarium m a) <= Aquarium.cleanliness a)%R.
Proof. intros Hm Hc. simpl. clamp. Qed.

Lemma tick_fish_wears m a fish :
  (0 <= m)%R → fish_ok fish →
  let fish' := tick_fish m a fish in
  (Fish.hunger fish <= Fish.hunger fish')%R ∧
  (Fish.health fish' <= Fish.health fish)%R ∧
  ((Fish.hunger fish' <= 70)%R →
   (Rabs (Aquarium.current_temperature a - Aquarium.target_temperature a)
    <= 2.5)%R →
   (40 <= Aquarium.cleanliness a)%R →
   Fish.health fish' = Fish.health fish).
Proof.
  intros Hm [Hh Hp] fish'. subst fish'. unfold tick_fish. simpl.
  rewrite py_abs_Rabs.
  set (gap := Rabs _). assert (0 <= gap)%R as Hgap by apply Rabs_pos.
  set (hunger' := py_min 100 (Fish.hunger fish + m * 0.45)).
  assert (Fish.hunger fish <= hunger')%R as Hhunger by (unfold hunger'; clamp).
  clearbody hunger' gap. split; [done|].
  destruct (Rgt_dec hunger' 70) as [G1|G1];
    destruct (Rgt_dec gap 2.5) as [G2|G2];
    destruct (Rlt_dec (Aquarium.cleanliness a) 40) as [G3|G3];
    unfold Rgt in *;
    try (assert (0 <= (hunger' - 70) * 0.02 * m)%R by nra);
    try (assert (0 <= (gap - 2.5) * 0.5 * m)%R by nra);
    try (assert (0 <= (40 - Aquarium.cleanliness a) * 0.01 * m)%R by nra);
    (split; [clamp_all|intros; clamp_all]).
Qed.

Lemma cached_fish_ok s k i fish :
  engine_ok s → fish_for s k !! i = Some fish → fish_ok fish.
Proof.
  intros (_ & Hf & _) Hi. unfold fish_for in Hi.
  destruct (_fish s !! k) as [fs|] eqn:Hfs; [|done]. simpl in Hi.
  pose proof (Hf k fs Hfs) as Hall. rewrite Forall_lookup in Hall. eauto.
Qed.

(** X7. A tick only wears things down: within the bounds on hunger and
    health, no cached aquarium gets cleaner, no cached fish gets less
    hungry or healthier, and the health of a fish stays exactly as it was
    when after the tick its hunger is at most 70, the temperature within
    2.5 degrees of the target and the cleanliness at least 40. *)
Theorem tick_wears_down now s j a k i fish :
  engine_ok s →
  NoDup (cached_ids (_aquariums s)) →
  _aquariums s !! j = Some a →
  Aquarium.id a = Some k →
  fish_for s k !! i = Some fish →
  ∃ a' fish',
    _aquariums (tick now s) !! j = Some a' ∧
    fish_for (tick now s) k !! i = Some fish' ∧
    (Aquarium.cleanliness a' <= Aquarium.cleanliness a)%R ∧
    (Fish.hunger fish <= Fish.hunger fish')%R ∧
    (Fish.health fish' <= Fish.health fish)%R ∧
    ((Fish.hunger fish' <= 70)%R →
     (Rabs (Aquarium.current_temperature a' - Aquarium.target_temperature a')
      <= 2.5)%R →
     (40 <= Aquarium.cleanliness a')%R →
     Fish.health fish' = Fish.health fish).
Proof.
  intros Hok Hnd Hj Hk Hi.
  pose proof (cached_fish_ok s k i fish Hok Hi) as Hfish.
  destruct (Z.le_gt_cases now (_last_tick s)) as [H|H].
  { rewrite tick_skipped by done. exists a, fish.
    repeat split; (done || lra). }
  pose proof (elapsed_minutes_nonneg now s ltac:(lia)) as Hm.
  set (m := elapsed_minutes now s) in *.
  exists (tick_aquarium m a), (tick_fish m (tick_aquarium m a) fish).
  split.
  { apply tick_lookup_aquarium; [by apply elapsed_minutes_pos|done|].
    by eexists. }
  split.
  { rewrite (tick_fish_for now s j a k) by done.
    by rewrite list_lookup_fmap, Hi. }
  split.
  { apply tick_aquarium_wears; [done|].
    destruct Hok as (Ha & _). rewrite Forall_lookup in Ha.
    apply (Ha j a Hj). }
  apply tick_fish_wears; done.
Qed.

(** X8. Feeding only restores: within the bounds, no fish of the
    aquarium gets hungrier or less healthy; a fish that was hungry at all
    ends strictly less hungry, and one below full health strictly
    healthier. *)
Theorem feed_fish_restores s k i fish :
  engine_ok s →
  fish_for s k !! i = Some fish →
  ∃ fish',
    fish_for (feed_fish k s) k !! i = Some fish' ∧
    (Fish.hunger fish' <= Fish.hunger fish)%R ∧
    (Fish.health fish <= Fish.health fish')%R ∧
    ((0 < Fish.hunger fish)%R → (Fish.hunger fish' < Fish.hunger fish)%R) ∧
    ((Fish.health fish < 100)%R → (Fish.health fish < Fish.health fish')%R).
Proof.
  intros Hok Hi. destruct (cached_fish_ok s k i fish Hok Hi) as [Hh Hp].
  exists (feed_one fish). split.
  - by rewrite feed_fish_cache, list_lookup_fmap, Hi.
  - unfold feed_one. simpl. repeat split; intros; clamp.
Qed.

(** ** Creating and removing *)

Lemma fresh_aquarium_id s :
  engine_wf s →
  Some (Database.aquariums_seq (_database s) + 1)%Z
    ∉ map Aquarium.id (_aquariums s).
Proof.
  intros ([Hall _] & Hperm & _) Hin. rewrite Hperm in Hin.
  rewrite Forall_forall in Hall.
  destruct (Hall _ Hin) as (k & [= <-] & Hk). lia.
Qed.

(** X9. [create_aquarium] never raises.  It returns the new aquarium, at
    its target temperature, with cleanliness 90 and an id that no cached
    aquarium has; the aquarium is appended to the cache and to the table,
    with an empty list of fish and of tasks, and the fish and tasks of
    the other aquariums stay as they are. *)
Theorem create_aquarium_effect now name target s :
  let k := (Database.aquariums_seq (_database s) + 1)%Z in
  let stored := Aquarium.mk (Some k) name target target 90 now in
  ∃ s',
    create_aquarium now name target s = Returns stored s' ∧
    _aquariums s' = _aquariums s ++ [stored] ∧
    Database.aquariums_rows (_database s')
      = Database.aquariums_rows (_database s) ++ [stored] ∧
    fish_for s' k = [] ∧ tasks_for s' k = [] ∧
    (∀ j, j ≠ k → fish_for s' j = fish_for s j ∧
                  tasks_for s' j = tasks_for s j) ∧
    _last_tick s' = _last_tick s ∧
    (engine_wf s → (Some k ∉ map Aquarium.id (_aquariums s))).
Proof.
  intros k stored. eexists. split; [reflexivity|]. simpl.
  split; [done|]. split; [done|]. unfold fish_for, tasks_for. simpl.
  fold k. rewrite !lookup_insert_eq. split; [done|]. split; [done|].
  split; [|split; [done|apply fresh_aquarium_id]].
  intros j Hj. by rewrite !lookup_insert_ne.
Qed.


(** X11. [remove_fish(fish_id, aquarium_id)] deletes the fish from the
    table whatever aquarium it lives in, but from the cache only in the
    list of the aquarium given: that list loses exactly the fish with that
    id and keeps the others in order, while the lists of the other
    aquariums are untouched, so a fish cached under another aquarium
    stays in the cache although its row is gone. *)
Theorem remove_fish_effect fish_id k s :
  let s' := remove_fish fish_id k s in
  fish_for s' k
    = filter (fun f => Fish.id f ≠ Some fish_id) (fish_for s k) ∧
  (∀ j, j ≠ k → fish_for s' j = fish_for s j) ∧
  Database.fish_rows (_database s')
    = filter (fun r => Fish.id r ≠ Some fish_id)
             (Database.fish_rows (_database s)) ∧
  (Some fish_id ∉ map Fish.id (Database.fish_rows (_database s'))) ∧
  (∀ j f, j ≠ k → f ∈ fish_for s j → Fish.id f = Some fish_id →
          f ∈ fish_for s' j) ∧
  _aquariums s' = _aquariums s ∧ _tasks s' = _tasks s.
Proof.
  intros s'. subst s'. unfold remove_fish, Database.delete_fish, fish_for.
  simpl. rewrite lookup_insert_eq. simpl.
  assert (∀ l : list Fish.t,
            filter (fun f => id_is (Fish.id f) fish_id = false) l
            = filter (fun f => Fish.id f ≠ Some fish_id) l) as Hfilter.
  { intros l. apply list_filter_iff. intros f. apply id_is_false. }
  rewrite !Hfilter. split; [done|].
  split; [intros j Hj; by rewrite lookup_insert_ne|].
  split; [done|]. split.
  - intros Hin. apply list_elem_of_fmap in Hin as (r & Hid & Hr).
    apply list_elem_of_filter in Hr as [Hne _]. by apply Hne.
  - split; [|done]. intros j f Hj Hf _. by rewrite lookup_insert_ne.
Qed.

(** ** Reloading *)

Lemma load_fish_lookup db l k :
  load_fish db l !! k =
    if decide (Some k ∈ map Aquarium.id l)
    then Some (Database.fish_for_aquarium db k) else None.
Proof.
  unfold load_fish.
  assert (∀ m : gmap Z (list Fish.t),
            foldl (fun m aquarium =>
                     match Aquarium.id aquarium with
                     | Some j => <[j := Database.fish_for_aquarium db j]> m
                     | None => m
                     end) m l !! k
            = if decide (Some k ∈ map Aquarium.id l)
              then Some (Database.fish_for_aquarium db k) else m !! k) as H.
  { induction l as [|a l IH]; intros m.
    - simpl foldl. destruct (decide _) as [Hin|Hin]; [|done].
      by apply elem_of_nil in Hin.
    - simpl foldl. rewrite IH.
      destruct (decide (Some k ∈ map Aquarium.id l)) as [Hin|Hin];
        destruct (decide (Some k ∈ map Aquarium.id (a :: l))) as [Hin'|Hin'].
      + done.
      + exfalso. apply Hin'. by right.
      + apply elem_of_cons in Hin' as [Heq|?]; [|done].
        rewrite <- Heq. by rewrite lookup_insert_eq.
      + destruct (Aquarium.id a) as [j|] eqn:Hj; [|done].
        rewrite lookup_insert_ne; [done|].
        intros ->. apply Hin'. simpl. rewrite Hj. by left. }
  rewrite H. by rewrite lookup_empty.
Qed.

Lemma seq_resolves (objs rows : list Task.t) :
  (fun ref => (objs ++ rows) !! ref) <$> seq (length objs) (length rows)
    = Some <$> rows.
Proof.
  apply list_eq. intros i. rewrite !list_lookup_fmap.
  destruct (decide (i < length rows)) as [Hi|Hi].
  - rewrite lookup_seq_lt by done. simpl.
    rewrite lookup_app_r by lia.
    replace (length objs + i - length objs) with i by lia.
    by destruct (lookup_lt_is_Some_2 rows i Hi) as [x ->].
  - rewrite lookup_seq_ge by lia. simpl.
    by rewrite lookup_ge_None_2 by lia.
Qed.

Lemma resolved_grows db objs rows m :
  resolved db objs m → resolved db (objs ++ rows) m.
Proof.
  intros Hres k refs Hk. rewrite <- (Hres k refs Hk).
  apply list_fmap_ext. intros i ref Hi.
  assert (is_Some (objs !! ref)) as [x Hx].
  { assert (((fun ref => objs !! ref) <$> refs) !! i
            = (Some <$> Database.tasks_for_aquarium db k) !! i) as Heq
      by (by rewrite (Hres k refs Hk)).
    rewrite !list_lookup_fmap, Hi in Heq. simpl in Heq.
    destruct (Database.tasks_for_aquarium db k !! i); simpl in Heq;
      [|done]. injection Heq as ->. by eexists. }
  rewrite Hx. by apply lookup_app_l_Some.
Qed.

Lemma load_tasks_spec db l objs :
  let r := load_tasks db l objs in
  resolved db r.1 r.2 ∧
  (∀ k, is_Some (r.2 !! k) ↔ Some k ∈ map Aquarium.id l) ∧
  objs `prefix_of` r.1.
Proof.
  intros r. subst r. unfold load_tasks.
  assert (∀ acc : list Task.t * gmap Z (list nat),
            resolved db acc.1 acc.2 →
            let r := foldl (fun '(objs, m) aquarium =>
                       match Aquarium.id aquarium with
                       | Some k =>
                           let rows := Database.tasks_for_aquarium db k in
                           (objs ++ rows,
                            <[k := seq (length objs) (length rows)]> m)
                       | None => (objs, m)
                       end) acc l in
            resolved db r.1 r.2 ∧
            (∀ k, is_Some (r.2 !! k) ↔
                  is_Some (acc.2 !! k) ∨ Some k ∈ map Aquarium.id l) ∧
            acc.1 `prefix_of` r.1) as H.
  { induction l as [|a l IH]; intros [os m] Hres; simpl.
    - split; [done|]. split; [|done]. intros k. split; [by left|].
      intros [?|?%elem_of_nil]; done.
    - destruct (Aquarium.id a) as [j|] eqn:Hj.
      + set (rows := Database.tasks_for_aquarium db j).
        destruct (IH (os ++ rows, <[j := seq (length os) (length rows)]> m))
          as (IH1 & IH2 & IH3).
        { intros k refs. simpl. rewrite lookup_insert.
          case_decide as Hjk.
          - subst k. intros [= <-]. apply seq_resolves.
          - apply resolved_grows. exact Hres. }
        split; [done|]. split.
        * intros k. rewrite IH2. simpl. rewrite lookup_insert.
          case_decide as Hjk.
          -- subst k. split; [intros _; right; by left|].
             intros _. left. by eexists.
          -- split; (intros [?|Hin]; [by left|right]).
             ++ by right.
             ++ apply elem_of_cons in Hin as [?|?]; [congruence|done].
        * etrans; [|exact IH3]. by apply prefix_app_r.
      + destruct (IH (os, m) Hres) as (IH1 & IH2 & IH3).
        split; [done|]. split; [|done].
        intros k. rewrite IH2. simpl.
        split; (intros [?|Hin]; [by left|right]).
        * by right.
        * apply elem_of_cons in Hin as [?|?]; [congruence|done]. }
  destruct (H (objs, ∅)) as (H1 & H2 & H3).
  { intros k refs. simpl. by rewrite lookup_empty. }
  split; [done|]. split; [|done].
  intros k. rewrite H2. simpl. rewrite lookup_empty. split.
  - intros [[? [=]]|?]; done.
  - by right.
Qed.

Lemma load_tasks_fresh db l objs k refs :
  (load_tasks db l objs).2 !! k = Some refs →
  Forall (fun ref => length objs ≤ ref) refs.
Proof.
  unfold load_tasks. set (n := length objs).
  assert (∀ acc : list Task.t * gmap Z (list nat),
            n ≤ length acc.1 →
            (∀ j rs, acc.2 !! j = Some rs → Forall (fun ref => n ≤ ref) rs) →
            ∀ j rs,
              (foldl (fun '(objs, m) aquarium =>
                        match Aquarium.id aquarium with
                        | Some k =>
                            let rows := Database.tasks_for_aquarium db k in
                            (objs ++ rows,
                             <[k := seq (length objs) (length rows)]> m)
                        | None => (objs, m)
                        end) acc l).2 !! j = Some rs →
              Forall (fun ref => n ≤ ref) rs) as H.
  { induction l as [|a l IH]; intros [os m] Hn Hacc; [exact Hacc|].
    simpl. destruct (Aquarium.id a) as [i|]; [|by apply IH].
    apply IH; simpl.
    - rewrite length_app. simpl in Hn. lia.
    - intros j rs. rewrite lookup_insert. case_decide; [|apply Hacc].
      intros [= <-]. apply Forall_forall. intros ref Href.
      apply elem_of_seq in Href. simpl in Hn. lia. }
  apply (H (objs, ∅)); [done|].
  intros j rs. simpl. by rewrite lookup_empty.
Qed.

Lemma reload_spec now w :
  let db := _database (self w) in
  let w' := reload now w in
  _aquariums (self w') = Database.aquariums db ∧
  (∀ k, Some k ∈ map Aquarium.id (Database.aquariums db) →
        fish_for (self w') k = Database.fish_for_aquarium db k ∧
        (fun ref => objects w' !! ref) <$> tasks_for (self w') k
          = Some <$> Database.tasks_for_aquarium db k ∧
        Forall (fun ref => length (objects w) ≤ ref) (tasks_for (self w') k)) ∧
  (∀ k, Some k ∉ map Aquarium.id (Database.aquariums db) →
        fish_for (self w') k = [] ∧ tasks_for (self w') k = []) ∧
  _last_tick (self w') = now ∧
  _database (self w') = db ∧
  objects w `prefix_of` objects w'.
Proof.
  intros db w'. subst w'. unfold reload. fold db.
  pose proof (load_tasks_spec db (Database.aquariums db) (objects w))
    as (Hres & Hkeys & Hprefix).
  destruct (load_tasks db (Database.aquariums db) (objects w))
    as [objs tasks] eqn:Hload.
  simpl in *. split; [done|]. unfold fish_for, tasks_for. simpl.
  split; [|split; [|done]].
  - intros k Hk. rewrite load_fish_lookup, decide_True by done.
    split; [done|].
    destruct (proj2 (Hkeys k) Hk) as [refs Hrefs]. rewrite Hrefs. simpl.
    split; [by apply Hres|].
    apply (load_tasks_fresh db (Database.aquariums db) (objects w) k).
    by rewrite Hload.
  - intros k Hk. rewrite load_fish_lookup, decide_False by done.
    split; [done|].
    destruct (tasks !! k) as [refs|] eqn:Hrefs; [|done].
    exfalso. apply Hk, Hkeys. by eexists.
Qed.

(** X12. [reload] makes the cache the image of the store: the cached
    aquariums are the rows of [aquariums()]; for each of them the cached
    fish are the rows of [fish_for_aquarium] and the cached task objects,
    all of them new, carry the rows of [tasks_for_aquarium]; an id that
    no aquarium row has gets no fish and no tasks; the last tick is the
    time of the call, the store is left alone and so are the task
    objects that existed before. *)
Theorem reload_mirrors_store now w :
  let db := _database (self w) in
  let w' := reload now w in
  _aquariums (self w') = Database.aquariums db ∧
  (∀ k, Some k ∈ map Aquarium.id (Database.aquariums db) →
        fish_for (self w') k = Database.fish_for_aquarium db k ∧
        (fun ref => objects w' !! ref) <$> tasks_for (self w') k
          = Some <$> Database.tasks_for_aquarium db k ∧
        Forall (fun ref => length (objects w) ≤ ref) (tasks_for (self w') k)) ∧
  (∀ k, Some k ∉ map Aquarium.id (Database.aquariums db) →
        fish_for (self w') k = [] ∧ tasks_for (self w') k = []) ∧
  _last_tick (self w') = now ∧
  _database (self w') = db ∧
  objects w `prefix_of` objects w'.
Proof. apply reload_spec. Qed.


(** ** The cache stays the image of the store *)

Lemma update_fish_row_pointwise rows u :
  Database.update_fish_row rows u = map (fun r => row_step r u) rows.
Proof.
  unfold Database.update_fish_row, row_step.
  destruct (Fish.id u) as [k|]; [done|].
  induction rows as [|r rows IHr]; [done|]. simpl. by rewrite <- IHr.
Qed.

Lemma update_fish_rows_pointwise rows us :
  foldl Database.update_fish_row rows us
    = map (fun r => foldl row_step r us) rows.
Proof.
  revert rows. induction us as [|u us IH]; intros rows; simpl.
  - induction rows as [|r rows IHr]; [done|]. simpl. by rewrite <- IHr.
  - rewrite IH, update_fish_row_pointwise.
    by rewrite <- list_fmap_compose.
Qed.

Section fish_rows.
Context (g : Fish.t → Fish.t).
Hypothesis g_shape :
  ∀ r, g r = Fish.set_health (Fish.health (g r))
               (Fish.set_hunger (Fish.hunger (g r)) r).

Lemma g_id r : Fish.id (g r) = Fish.id r.
Proof. by rewrite g_shape. Qed.

Lemma g_aquarium_id r : Fish.aquarium_id (g r) = Fish.aquarium_id r.
Proof. by rewrite g_shape. Qed.

Lemma row_untouched x fs :
  (∀ f, f ∈ fs → Fish.id f ≠ Fish.id x) →
  foldl row_step x (map g fs) = x.
Proof.
  induction fs as [|f fs IH]; intros Hno; [done|]. simpl.
  assert (row_step x (g f) = x) as ->.
  { unfold row_step. rewrite g_id.
    destruct (Fish.id f) as [k|] eqn:Hk; [|done].
    destruct (id_is (Fish.id x) k) eqn:Hx; [|done].
    apply id_is_true in Hx. exfalso. apply (Hno f); [by left|congruence]. }
  apply IH. intros h Hh. apply Hno. by right.
Qed.

Lemma row_settled r fs :
  is_Some (Fish.id r) →
  (∀ f, f ∈ fs → Fish.id f = Fish.id r → f = r) →
  foldl row_step (g r) (map g fs) = g r.
Proof.
  intros [k Hk]. induction fs as [|f fs IH]; intros Hsame; [done|]. simpl.
  assert (row_step (g r) (g f) = g r) as ->.
  { unfold row_step. rewrite !g_id.
    destruct (Fish.id f) as [j|] eqn:Hj; [|done].
    destruct (id_is (Fish.id r) j) eqn:Hx; [|done].
    apply id_is_true in Hx.
    rewrite (Hsame f) by (by left || congruence).
    by destruct (g r). }
  apply IH. intros h Hh. apply Hsame. by right.
Qed.

Lemma row_updated r fs :
  is_Some (Fish.id r) →
  r ∈ fs →
  (∀ f, f ∈ fs → Fish.id f = Fish.id r → f = r) →
  foldl row_step r (map g fs) = g r.
Proof.
  intros Hsome. induction fs as [|f fs IH]; intros Hin Hsame;
    [by apply elem_of_nil in Hin|].
  simpl. destruct (decide (Fish.id f = Fish.id r)) as [Heq|Hne].
  - rewrite (Hsame f) by (by left || done).
    assert (row_step r (g r) = g r) as ->.
    { unfold row_step. rewrite g_id. destruct Hsome as [k Hk]. rewrite Hk.
      assert (id_is (Some k) k = true) as -> by (by apply id_is_true).
      by rewrite <- g_shape. }
    apply row_settled; [done|]. intros h Hh. apply Hsame. by right.
  - assert (row_step r (g f) = r) as ->.
    { unfold row_step. rewrite g_id.
      destruct (Fish.id f) as [j|] eqn:Hj; [|done].
      destruct (id_is (Fish.id r) j) eqn:Hx; [|done].
      apply id_is_true in Hx. congruence. }
    apply IH.
    + apply elem_of_cons in Hin as [->|?]; [done|done].
    + intros h Hh. apply Hsame. by right.
Qed.

(** [update_fish] on the rows selected by [P], as changed by [g]. *)
Lemma update_fish_rows_selected seq rows (P : Fish.t → Prop)
    `{∀ r, Decision (P r)} :
  table_wf Fish.id seq rows →
  foldl Database.update_fish_row rows (map g (filter P rows))
    = map (fun r => if decide (P r) then g r else r) rows.
Proof.
  intros [Hall Hsorted]. rewrite update_fish_rows_pointwise.
  apply list_fmap_ext. intros i r Hi.
  apply list_elem_of_lookup_2 in Hi.
  assert (is_Some (Fish.id r)) as Hsome.
  { rewrite Forall_forall in Hall. destruct (Hall r Hi) as (k & -> & _).
    by eexists. }
  assert (∀ f, f ∈ filter P rows → Fish.id f = Fish.id r → f = r) as Hsame.
  { intros f Hf Hid. apply list_elem_of_filter in Hf as [_ Hf].
    by apply (table_same_id Fish.id rows). }
  destruct (decide (P r)) as [HP|HP].
  - apply row_updated; [done| |done]. by apply list_elem_of_filter.
  - apply row_untouched. intros f Hf Hid.
    rewrite (Hsame f Hf Hid) in Hf.
    apply list_elem_of_filter in Hf as [? _]. done.
Qed.
End fish_rows.

Lemma mirror_rows s :
  engine_mirror s →
  _aquariums s = Database.aquariums_rows (_database s) ∧
  ∀ k, fish_for s k
       = filter (fun r => Fish.aquarium_id r = k)
                (Database.fish_rows (_database s)).
Proof.
  intros (Hdb & Haq & Hfish). split.
  - by rewrite Haq, aquariums_rows_sorted.
  - intros k. by rewrite Hfish, fish_for_aquarium_rows.
Qed.

Lemma mirror_intro s :
  store_wf (_database s) →
  _aquariums s = Database.aquariums_rows (_database s) →
  (∀ k, fish_for s k
        = filter (fun r => Fish.aquarium_id r = k)
                 (Database.fish_rows (_database s))) →
  engine_mirror s.
Proof.
  intros Hdb Haq Hfish. split; [done|]. split.
  - by rewrite aquariums_rows_sorted.
  - intros k. by rewrite fish_for_aquarium_rows.
Qed.

(** The fish rows of aquarium [j] after the rows of aquarium [k] have
    been changed by [g]. *)
Lemma filter_updated (g : Fish.t → Fish.t) k (rows : list Fish.t) j :
  (∀ r, Fish.aquarium_id (g r) = Fish.aquarium_id r) →
  filter (fun r => Fish.aquarium_id r = j)
         (map (fun r => if decide (Fish.aquarium_id r = k) then g r else r)
              rows)
  = if decide (j = k)
    then map g (filter (fun r => Fish.aquarium_id r = k) rows)
    else filter (fun r => Fish.aquarium_id r = j) rows.
Proof.
  intros Hg. induction rows as [|r rows IH]; simpl.
  - by destruct (decide (j = k)).
  - rewrite !filter_cons, IH.
    destruct (decide (Fish.aquarium_id r = k)) as [Hr|Hr];
      rewrite ?Hg; destruct (decide (j = k)) as [Hjk|Hjk];
      repeat destruct (decide _); simpl; congruence.
Qed.

Lemma feed_one_shape r :
  feed_one r = Fish.set_health (Fish.health (feed_one r))
                 (Fish.set_hunger (Fish.hunger (feed_one r)) r).
Proof. done. Qed.

Lemma tick_fish_shape m a r :
  tick_fish m a r = Fish.set_health (Fish.health (tick_fish m a r))
                      (Fish.set_hunger (Fish.hunger (tick_fish m a r)) r).
Proof. done. Qed.

Lemma feed_fish_mirror k s : engine_mirror s → engine_mirror (feed_fish k s).
Proof.
  intros Hm. pose proof (mirror_rows s Hm) as [Haq Hfish].
  destruct Hm as [Hdb _]. unfold feed_fish.
  fold (fish_for s k). rewrite (Hfish k).
  destruct (map feed_one _) as [|f fs] eqn:Hup.
  { by apply mirror_intro. }
  rewrite <- Hup. clear Hup f fs.
  set (rows := Database.fish_rows (_database s)) in *.
  assert (foldl Database.update_fish_row rows
            (map feed_one (filter (fun r => Fish.aquarium_id r = k) rows))
          = map (fun r => if decide (Fish.aquarium_id r = k)
                          then feed_one r else r) rows) as Hrows.
  { destruct Hdb as (_ & Hf & _).
    by eapply (update_fish_rows_selected feed_one feed_one_shape). }
  apply mirror_intro.
  - by apply update_fish_store_wf.
  - done.
  - intros j. unfold fish_for, Database.update_fish. simpl. fold rows.
    rewrite Hrows, filter_updated by done. rewrite lookup_insert.
    destruct (decide (j = k)) as [->|Hjk].
    + by rewrite decide_True.
    + rewrite decide_False by done. apply Hfish.
Qed.

Lemma update_first_as_map (f : Aquarium.t → Aquarium.t) k l l' y :
  StronglySorted (id_lt Aquarium.id) l →
  update_first (fun a => id_is (Aquarium.id a) k) f l = Some (l', y) →
  l' = map (fun r => if id_is (Aquarium.id r) k then f r else r) l ∧
  ∃ x, x ∈ l ∧ Aquarium.id x = Some k ∧ y = f x.
Proof.
  intros Hsorted. revert l' y.
  induction Hsorted as [|x l Hl IH Hx]; intros l' y; simpl; [done|].
  destruct (id_is (Aquarium.id x) k) eqn:Hxk.
  - intros [= <- <-]. apply id_is_true in Hxk. split.
    + f_equal. symmetry. apply untouched_rows. intros r Hr.
      apply id_is_false. intros Hrk. rewrite Forall_forall in Hx.
      specialize (Hx r Hr). unfold id_lt in Hx. rewrite Hxk, Hrk in Hx.
      simpl in Hx. lia.
    + exists x. split; [by left|done].
  - destruct (update_first _ f l) as [[rest z]|]; [|done].
    intros [= <- <-]. destruct (IH rest z eq_refl) as [-> (x0 & ? & ? & ?)].
    split; [done|]. exists x0. split; [by right|done].
Qed.

Lemma clean_aquarium_mirror now k s :
  engine_mirror s → engine_mirror (clean_aquarium now k s).
Proof.
  intros Hm. pose proof (mirror_rows s Hm) as [Haq Hfish].
  destruct Hm as [Hdb _]. unfold clean_aquarium.
  destruct (update_first _ _ _) as [[l' y]|] eqn:Hup;
    [|by apply mirror_intro].
  rewrite Haq in Hup.
  apply update_first_as_map in Hup as [-> _]; [|apply Hdb].
  apply mirror_intro.
  - by apply set_aquarium_cleaned_store_wf.
  - done.
  - exact Hfish.
Qed.

Lemma retarget_mirror k f s :
  (∀ x, Aquarium.id (f x) = Aquarium.id x) →
  engine_mirror s →
  engine_mirror
    match update_first (fun a => id_is (Aquarium.id a) k) f (_aquariums s) with
    | Some (aquariums', aquarium) =>
        mk (Database.upsert_aquarium (_database s) aquarium).2
           aquariums' (_fish s) (_tasks s) (_last_tick s)
    | None => s
    end.
Proof.
  intros Hf Hm. pose proof (mirror_rows s Hm) as [Haq Hfish].
  destruct Hm as [Hdb _].
  destruct (update_first _ _ _) as [[l' y]|] eqn:Hup;
    [|by apply mirror_intro].
  rewrite Haq in Hup.
  apply update_first_as_map in Hup as [-> (x & Hx & Hxk & ->)];
    [|apply Hdb].
  apply mirror_intro.
  - by apply upsert_aquarium_store_wf.
  - simpl. unfold Database.upsert_aquarium. rewrite Hf, Hxk. simpl.
    apply list_fmap_ext. intros i r Hr.
    destruct (id_is (Aquarium.id r) k) eqn:Hrk; [|done].
    apply id_is_true in Hrk. apply list_elem_of_lookup_2 in Hr.
    assert (r = x) as ->.
    { apply (table_same_id Aquarium.id (Database.aquariums_rows (_database s)));
        [apply Hdb|done..|congruence]. }
    unfold Aquarium.set_id. rewrite <- Hxk, <- (Hf x). by destruct (f x).
  - intros j. simpl. unfold Database.upsert_aquarium. rewrite Hf, Hxk.
    exact (Hfish j).
Qed.

Lemma adjust_temperature_mirror k target s :
  engine_mirror s → engine_mirror (adjust_temperature k target s).
Proof. by apply retarget_mirror. Qed.

Lemma register_temperature_mirror k temp s :
  engine_mirror s → engine_mirror (register_temperature k temp s).
Proof. by apply retarget_mirror. Qed.

Lemma filter_drops_all {A} (P : A → Prop) `{∀ r, Decision (P r)}
    (rows : list A) :
  (∀ r, r ∈ rows → ¬ P r) → filter P rows = [].
Proof.
  intros Hno. induction rows as [|r rows IH]; [done|].
  rewrite filter_cons, decide_False by (apply Hno; by left).
  apply IH. intros x Hx. apply Hno. by right.
Qed.

(** The foreign key: an id that no aquarium row has owns no fish row. *)
Lemma no_fish_without_aquarium db k :
  store_wf db →
  Some k ∉ map Aquarium.id (Database.aquariums_rows db) →
  filter (fun r => Fish.aquarium_id r = k) (Database.fish_rows db) = [].
Proof.
  intros (_ & _ & _ & Hfk & _) Hk. apply filter_drops_all.
  intros r Hr <-. apply Hk. apply aquarium_exists_iff.
  rewrite Forall_forall in Hfk. by apply Hfk.
Qed.

Lemma create_aquarium_mirror now name target s :
  engine_mirror s →
  engine_mirror (state_of (create_aquarium now name target s)).
Proof.
  intros Hm. pose proof (mirror_rows s Hm) as [Haq Hfish].
  destruct Hm as [Hdb _].
  pose proof (upsert_aquarium_store_wf (_database s)
                (Aquarium.mk None name target target 90 now) Hdb) as Hdb'.
  unfold create_aquarium. simpl in *. apply mirror_intro.
  - exact Hdb'.
  - simpl. by rewrite Haq.
  - intros j. unfold fish_for. simpl. rewrite lookup_insert.
    case_decide as Hj; [|apply Hfish]. subst j. simpl. symmetry.
    apply no_fish_without_aquarium; [done|].
    intros Hin. destruct Hdb as ([Hall _] & _).
    apply list_elem_of_fmap in Hin as (r & Hid & Hr).
    rewrite Forall_forall in Hall. destruct (Hall r Hr) as (i & Hi & Hle).
    rewrite Hi in Hid. injection Hid as Hid. lia.
Qed.

Lemma create_fish_mirror now k name species s :
  engine_mirror s →
  engine_mirror (state_of (create_fish now k name species s)).
Proof.
  intros Hm. pose proof (mirror_rows s Hm) as [Haq Hfish].
  destruct Hm as [Hdb Hmir]. unfold create_fish.
  destruct (Database.insert_fish _ _) as [e|[stored db']] eqn:Hins;
    [by split|].
  pose proof (insert_fish_store_wf _ _ _ _ Hdb Hins) as Hdb'.
  unfold Database.insert_fish in Hins. simpl in Hins.
  destruct (Database.aquarium_exists (_database s) k); [|done].
  injection Hins as <- <-. apply mirror_intro.
  - exact Hdb'.
  - done.
  - intros j. unfold fish_for. simpl.
    rewrite filter_app, filter_cons, filter_nil. simpl.
    rewrite lookup_insert. fold (fish_for s k).
    destruct (decide (k = j)) as [->|Hkj]; simpl.
    + by rewrite Hfish.
    + rewrite app_nil_r. apply Hfish.
Qed.

Lemma filter_filter_keeps {A} (P Q : A → Prop)
    `{∀ r, Decision (P r), ∀ r, Decision (Q r)} (l : list A) :
  (∀ x, x ∈ l → P x → Q x) → filter P (filter Q l) = filter P l.
Proof.
  intros Himp. induction l as [|r l IH]; [done|].
  rewrite (filter_cons Q). destruct (decide (Q r)) as [HQ|HQ].
  - rewrite !(filter_cons P). rewrite IH; [done|].
    intros x Hx. apply Himp. by right.
  - rewrite (filter_cons P), decide_False.
    + apply IH. intros x Hx. apply Himp. by right.
    + intros HP. apply HQ. apply Himp; [by left|done].
Qed.

Lemma remove_fish_mirror fish_id k s :
  (∀ r, r ∈ Database.fish_rows (_database s) →
        Fish.id r = Some fish_id → Fish.aquarium_id r = k) →
  engine_mirror s → engine_mirror (remove_fish fish_id k s).
Proof.
  intros Hhome Hm. pose proof (mirror_rows s Hm) as [Haq Hfish].
  destruct Hm as [Hdb _]. unfold remove_fish. apply mirror_intro.
  - by apply delete_fish_store_wf.
  - done.
  - intros j. unfold fish_for at 1. simpl. rewrite lookup_insert.
    pose proof (Hfish j) as Hj. unfold fish_for in Hj.
    set (rows := Database.fish_rows (_database s)) in *.
    destruct (decide (k = j)) as [->|Hkj]; simpl; rewrite Hj.
    + rewrite !list_filter_filter. apply list_filter_iff. tauto.
    + symmetry. apply filter_filter_keeps.
      intros r Hr Hrj. apply id_is_false. intros Hid.
      apply Hkj. rewrite <- Hrj. symmetry. by apply Hhome.
Qed.

Lemma tick_aquarium_id m a : Aquarium.id (tick_aquarium m a) = Aquarium.id a.
Proof. done. Qed.

Lemma tick_loop_mirror m l db fish :
  store_wf db →
  NoDup (map Aquarium.id l) →
  (∀ a, a ∈ l → a ∈ Database.aquariums_rows db) →
  (∀ k, Some k ∈ map Aquarium.id l →
        default [] (fish !! k)
        = filter (fun r => Fish.aquarium_id r = k) (Database.fish_rows db)) →
  let r := tick_loop m l db fish in
  store_wf r.1.2 ∧
  Database.aquariums_rows r.1.2
    = map (fun row =>
             if bool_decide (Aquarium.id row ∈ map Aquarium.id l)
             then tick_aquarium m row else row)
          (Database.aquariums_rows db) ∧
  (∀ k, Some k ∈ map Aquarium.id l →
        default [] (r.2 !! k)
        = filter (fun r => Fish.aquarium_id r = k)
                 (Database.fish_rows r.1.2)) ∧
  (∀ k, Some k ∉ map Aquarium.id l →
        r.2 !! k = fish !! k ∧
        filter (fun r => Fish.aquarium_id r = k) (Database.fish_rows r.1.2)
        = filter (fun r => Fish.aquarium_id r = k) (Database.fish_rows db)).
Proof.
  revert db fish. induction l as [|a l IH]; intros db fish Hdb Hnd Hin Hfish.
  { simpl. split; [done|]. split; [|split; [|done]].
    - symmetry. apply map_id.
    - intros k Hk. by apply elem_of_nil in Hk. }
  simpl in Hnd. apply NoDup_cons in Hnd as [Hk_l Hnd].
  assert (a ∈ Database.aquariums_rows db) as Ha by (apply Hin; by left).
  assert (∃ k, Aquarium.id a = Some k) as [k Hk].
  { destruct Hdb as ([Hall _] & _). rewrite Forall_forall in Hall.
    destruct (Hall a Ha) as (k & Hk & _). eauto. }
  rewrite Hk in Hk_l.
  set (a' := tick_aquarium m a).
  assert (Aquarium.id a' = Some k) as Hk' by exact Hk.
  set (g := tick_fish m a').
  set (frows := Database.fish_rows db) in *.
  assert (default [] (fish !! k)
          = filter (fun r => Fish.aquarium_id r = k) frows) as Hfs.
  { apply Hfish. simpl. rewrite Hk. by left. }
  set (fishes := map g (default [] (fish !! k))).
  set (db1 := Database.update_fish db fishes).
  set (db2 := (Database.upsert_aquarium db1 a').2).
  set (fish1 := alter (fun _ => fishes) k fish).
  assert (Database.fish_rows db2
          = map (fun r => if decide (Fish.aquarium_id r = k) then g r else r)
                frows) as Hfrows2.
  { unfold db2, Database.upsert_aquarium. rewrite Hk'.
    simpl. unfold fishes. rewrite Hfs. destruct Hdb as (_ & Hf & _).
    by eapply (update_fish_rows_selected g (tick_fish_shape m a')). }
  assert (Database.aquariums_rows db2
          = map (fun r => if id_is (Aquarium.id r) k then a' else r)
                (Database.aquariums_rows db)) as Harows2.
  { unfold db2, Database.upsert_aquarium. rewrite Hk'.
    simpl. apply list_fmap_ext. intros i r _.
    destruct (id_is (Aquarium.id r) k); [|done].
    unfold Aquarium.set_id. rewrite <- Hk'. by destruct a'. }
  assert (store_wf db2) as Hdb2.
  { apply upsert_aquarium_store_wf. by apply update_fish_store_wf. }
  assert (∀ j, j ≠ k →
            filter (fun r => Fish.aquarium_id r = j) (Database.fish_rows db2)
            = filter (fun r => Fish.aquarium_id r = j) frows) as Hother.
  { intros j Hj. rewrite Hfrows2, filter_updated by done.
    by rewrite decide_False. }
  assert (filter (fun r => Fish.aquarium_id r = k) (Database.fish_rows db2)
          = fishes) as Hthis.
  { rewrite Hfrows2, filter_updated by done. rewrite decide_True by done.
    unfold fishes. by rewrite Hfs. }
  destruct (IH db2 fish1) as (IH1 & IH2 & IH3 & IH4).
  { exact Hdb2. }
  { exact Hnd. }
  { intros b Hb. rewrite Harows2. apply list_elem_of_fmap. exists b.
    split; [|apply Hin; by right].
    destruct (id_is (Aquarium.id b) k) eqn:Hbk; [|done].
    apply id_is_true in Hbk. exfalso. apply Hk_l. rewrite <- Hbk.
    apply list_elem_of_fmap. eauto. }
  { intros j Hj. assert (j ≠ k) as Hjk by (intros ->; done).
    unfold fish1. rewrite lookup_alter_ne by done. rewrite Hother by done.
    apply Hfish. by right. }
  simpl. rewrite Hk. fold a' g fishes fish1 db1 db2.
  destruct (tick_loop m l db2 fish1) as [[l' db'] fish'] eqn:Hloop.
  simpl in *. split; [done|]. split; [|split].
  - rewrite IH2, Harows2, <- list_fmap_compose.
    apply list_fmap_ext. intros i r Hr. simpl.
    apply list_elem_of_lookup_2 in Hr.
    destruct (id_is (Aquarium.id r) k) eqn:Hrk.
    + apply id_is_true in Hrk.
      assert (r = a) as ->.
      { apply (table_same_id Aquarium.id (Database.aquariums_rows db));
          [apply Hdb|done..|congruence]. }
      change (Aquarium.id a') with (Aquarium.id a). rewrite Hrk.
      rewrite bool_decide_eq_false_2 by done.
      rewrite bool_decide_eq_true_2; [done|]. by left.
    + apply id_is_false in Hrk.
      destruct (bool_decide (Aquarium.id r ∈ map Aquarium.id l)) eqn:Hrl.
      * apply bool_decide_eq_true in Hrl.
        rewrite bool_decide_eq_true_2; [done|]. by right.
      * apply bool_decide_eq_false in Hrl.
        rewrite bool_decide_eq_false_2; [done|].
        intros [Heq|?]%elem_of_cons; [congruence|done].
  - intros j Hj. destruct (decide (j = k)) as [->|Hjk].
    + destruct (IH4 k Hk_l) as [-> ->]. rewrite Hthis.
      unfold fish1. rewrite lookup_alter_eq.
      destruct (fish !! k) eqn:Hfk; [done|]. by unfold fishes.
    + apply IH3. apply elem_of_cons in Hj as [?|?]; [congruence|done].
  - intros j Hj.
    assert (j ≠ k) as Hjk by (intros ->; apply Hj; by left).
    destruct (IH4 j) as [-> ->].
    { intros ?. apply Hj. by right. }
    unfold fish1. rewrite lookup_alter_ne by done. by rewrite Hother.
Qed.

Lemma tick_mirror now s : engine_mirror s → engine_mirror (tick now s).
Proof.
  intros Hm. pose proof (mirror_rows s Hm) as [Haq Hfish].
  destruct Hm as [Hdb _].
  destruct (Z.le_gt_cases now (_last_tick s)) as [H|H].
  { rewrite tick_skipped by done. by apply mirror_intro. }
  rewrite tick_unfold by done.
  set (m := elapsed_minutes now s).
  pose proof (tick_loop_aquariums m (_aquariums s) (_database s) (_fish s))
    as Hcache.
  destruct (tick_loop_mirror m (_aquariums s) (_database s) (_fish s))
    as (Hdb' & Harows & Hcached & Hothers).
  { exact Hdb. }
  { rewrite Haq. destruct Hdb as (Ha & _).
    apply (table_wf_primary_key Aquarium.id) in Ha. apply Ha. }
  { intros a Ha. by rewrite <- Haq. }
  { intros k _. apply Hfish. }
  destruct (tick_loop m (_aquariums s) (_database s) (_fish s))
    as [[l' db'] fish'].
  simpl in *. apply mirror_intro; simpl.
  - exact Hdb'.
  - rewrite Hcache, Harows, <- Haq.
    apply list_fmap_ext. intros i a Ha.
    apply list_elem_of_lookup_2 in Ha.
    rewrite bool_decide_eq_true_2 by (apply list_elem_of_fmap; eauto).
    unfold tick_cached.
    destruct Hdb as ([Hall _] & _). rewrite Forall_forall in Hall.
    rewrite Haq in Ha. destruct (Hall a Ha) as (k & -> & _). done.
  - intros j. unfold fish_for. simpl.
    destruct (decide (Some j ∈ map Aquarium.id (_aquariums s))) as [Hj|Hj].
    + by apply Hcached.
    + destruct (Hothers j Hj) as [-> ->]. apply Hfish.
Qed.

Lemma reload_mirror now w :
  store_wf (_database (self w)) → engine_mirror (self (reload now w)).
Proof.
  intros Hdb.
  destruct (reload_spec now w) as (Haq & Hsome & Hnone & _ & Hsame & _).
  unfold engine_mirror, mirror. rewrite Hsame.
  split; [done|]. split; [done|]. intros k.
  destruct (decide (Some k ∈ map Aquarium.id
                      (Database.aquariums (_database (self w)))))
    as [Hk|Hk].
  - by destruct (Hsome k Hk) as [-> _].
  - destruct (Hnone k Hk) as [-> _].
    rewrite fish_for_aquarium_rows by done. symmetry.
    apply no_fish_without_aquarium; [done|].
    by rewrite <- aquariums_rows_sorted.
Qed.

Lemma add_task_mirror now k kind n w :
  engine_mirror (self w) →
  engine_mirror (self (state_of (add_task now k kind n w))).
Proof.
  intros [Hdb Hmir]. unfold add_task.
  destruct (Database.upsert_task _ _) as [e|[stored db']] eqn:Hins;
    [by split|].
  pose proof (upsert_task_store_wf _ _ _ _ Hdb Hins) as Hdb'.
  unfold Database.upsert_task in Hins. simpl in Hins.
  destruct (Database.aquarium_exists (_database (self w)) k); [|done].
  injection Hins as <- <-. by split.
Qed.

Lemma mark_task_done_mirror now ref w :
  engine_mirror (self w) →
  engine_mirror (self (state_of (mark_task_done now ref w))).
Proof.
  intros [Hdb Hmir]. unfold mark_task_done.
  destruct (objects w !! ref) as [obj|]; [|by split].
  destruct (Task.id obj) as [kid|] eqn:Hid; simpl.
  - rewrite Hid. split; [|done]. simpl.
    by apply update_task_timestamp_store_wf.
  - destruct (Database.upsert_task _ obj) as [e|[stored db']] eqn:Hins;
      [by split|].
    pose proof (upsert_task_store_wf _ _ _ _ Hdb Hins) as Hdb'.
    unfold Database.upsert_task in Hins. rewrite Hid in Hins.
    destruct (Database.aquarium_exists _ _); [|done].
    injection Hins as <- <-. simpl. split; [|done]. simpl.
    by apply update_task_timestamp_store_wf.
Qed.

Lemma delete_aquarium_mirror now k w :
  store_wf (_database (self w)) →
  engine_mirror (self (delete_aquarium now k w)).
Proof.
  intros Hdb. unfold delete_aquarium. apply reload_mirror. simpl.
  by apply delete_aquarium_store_wf.
Qed.

(** X14. The commands keep the cache equal to what the store would
    return: if the cached aquariums are the rows of [aquariums()] and the
    cached fish of every aquarium the rows of [fish_for_aquarium], in a
    well-formed store, the same holds after [tick], [feed_fish],
    [clean_aquarium], [adjust_temperature], [register_temperature],
    [create_aquarium] and [create_fish], whether they return or raise,
    and after [remove_fish] when the fish removed belongs to the aquarium
    named in the call. *)
Theorem commands_keep_mirror s :
  engine_mirror s →
  (∀ now, engine_mirror (tick now s)) ∧
  (∀ k, engine_mirror (feed_fish k s)) ∧
  (∀ now k, engine_mirror (clean_aquarium now k s)) ∧
  (∀ k target, engine_mirror (adjust_temperature k target s)) ∧
  (∀ k temp, engine_mirror (register_temperature k temp s)) ∧
  (∀ now name target,
     engine_mirror (state_of (create_aquarium now name target s))) ∧
  (∀ now k name species,
     engine_mirror (state_of (create_fish now k name species s))) ∧
  (∀ fish_id k,
     (∀ r, r ∈ Database.fish_rows (_database s) →
           Fish.id r = Some fish_id → Fish.aquarium_id r = k) →
     engine_mirror (remove_fish fish_id k s)).
Proof.
  intros Hm.
  split; [intros; by apply tick_mirror|].
  split; [intros; by apply feed_fish_mirror|].
  split; [intros; by apply clean_aquarium_mirror|].
  split; [intros; by apply adjust_temperature_mirror|].
  split; [intros; by apply register_temperature_mirror|].
  split; [intros; by apply create_aquarium_mirror|].
  split; [intros; by apply create_fish_mirror|].
  intros; by apply remove_fish_mirror.
Qed.

(** X15. [reload] and [delete_aquarium] make the cache the image of a
    well-formed store, and [add_task] and [mark_task_done] keep it so.
    On a cache that already is the image of the store, [reload] changes
    neither the cached aquariums nor the cached fish of any aquarium. *)
Theorem reload_restores_mirror now w :
  (store_wf (_database (self w)) →
   engine_mirror (self (reload now w)) ∧
   ∀ k, engine_mirror (self (delete_aquarium now k w))) ∧
  (engine_mirror (self w) →
   (∀ k kind n, engine_mirror (self (state_of (add_task now k kind n w)))) ∧
   (∀ ref, engine_mirror (self (state_of (mark_task_done now ref w)))) ∧
   _aquariums (self (reload now w)) = _aquariums (self w) ∧
   ∀ k, fish_for (self (reload now w)) k = fish_for (self w) k).
Proof.
  split.
  - intros Hdb. split; [by apply reload_mirror|].
    intros k. by apply delete_aquarium_mirror.
  - intros Hm. split; [intros; by apply add_task_mirror|].
    split; [intros; by apply mark_task_done_mirror|].
    pose proof (reload_mirror now w (proj1 Hm)) as (_ & Haq' & Hfish').
    destruct (reload_spec now w) as (_ & _ & _ & _ & Hsame & _).
    rewrite Hsame in Haq', Hfish'. destruct Hm as (_ & Haq & Hfish).
    split; [by rewrite Haq', Haq|].
    intros k. by rewrite Hfish', Hfish.
Qed.

(** ** Seeding the store *)

Lemma ensure_defaults_nonempty now db :
  Database.aquariums_rows db ≠ [] → ensure_defaults now db = Returns () db.
Proof. unfold ensure_defaults. by destruct (Database.aquariums_rows db). Qed.

Lemma ensure_defaults_empty now db :
  Database.aquariums_rows db = [] →
  let k := (Database.aquariums_seq db + 1)%Z in
  let n := Database.fish_seq db in
  let m := Database.tasks_seq db in
  ensure_defaults now db =
  Returns ()
    (Database.mk
       [Aquarium.mk (Some k) "Aquário Principal" 25 25 85
                    (now - timedelta_days 2)%Z]
       (Database.fish_rows db ++
        [Fish.mk (Some (n + 1)%Z) k "Coral Blue" "Peixe-palhaço" 45 82 now;
         Fish.mk (Some (n + 1 + 1)%Z) k "Bolhas" "Tetra Neon" 45 82 now;
         Fish.mk (Some (n + 1 + 1 + 1)%Z) k "Foguete" "Guppy" 45 82 now])
       (Database.tasks_rows db ++
        [Task.mk (Some (m + 1)%Z) k "alimentacao" 240
                 (now - timedelta_minutes 240)%Z;
         Task.mk (Some (m + 1 + 1)%Z) k "limpeza" 1440
                 (now - timedelta_minutes 1440)%Z;
         Task.mk (Some (m + 1 + 1 + 1)%Z) k "temperatura" 180
                 (now - timedelta_minutes 180)%Z])
       k (n + 1 + 1 + 1)%Z (m + 1 + 1 + 1)%Z
       (S (S (S (S (S (S (S (Database.commits db))))))))).
Proof.
  intros Hrows k n m. unfold ensure_defaults. rewrite Hrows.
  unfold Database.upsert_aquarium. simpl. rewrite Hrows. simpl.
  unfold Database.insert_fish, Database.upsert_task, Database.aquarium_exists.
  simpl. fold k.
  repeat (rewrite (bool_decide_eq_true_2 (k = k)) by done; simpl;
          rewrite <- ?app_assoc; simpl).
  reflexivity.
Qed.

Lemma insert_fish_each_wf fishes db :
  store_wf db → store_wf (state_of (insert_fish_each fishes db)).
Proof.
  revert db. induction fishes as [|f l IH]; intros db Hdb; simpl; [done|].
  destruct (Database.insert_fish db f) as [e|[stored db']] eqn:H; simpl;
    [done|].
  apply IH. by eapply insert_fish_store_wf.
Qed.

Lemma upsert_task_each_wf tasks db :
  store_wf db → store_wf (state_of (upsert_task_each tasks db)).
Proof.
  revert db. induction tasks as [|f l IH]; intros db Hdb; simpl; [done|].
  destruct (Database.upsert_task db f) as [e|[stored db']] eqn:H; simpl;
    [done|].
  apply IH. by eapply upsert_task_store_wf.
Qed.

Lemma insert_fish_each_ok fishes db :
  store_ok db → Forall fish_ok fishes →
  store_ok (state_of (insert_fish_each fishes db)).
Proof.
  revert db. induction fishes as [|f l IH]; intros db Hdb Hok; simpl; [done|].
  inversion Hok as [|? ? Hf Hl]; subst.
  unfold Database.insert_fish.
  destruct (Database.aquarium_exists db (Fish.aquarium_id f)); simpl; [|done].
  apply IH; [|done]. destruct Hdb as [Ha Hfs]. split; simpl; [done|].
  apply Forall_app. split; [done|]. constructor; [exact Hf|constructor].
Qed.

Lemma upsert_task_each_ok tasks db :
  store_ok db → store_ok (state_of (upsert_task_each tasks db)).
Proof.
  revert db. induction tasks as [|f l IH]; intros db Hdb; simpl; [done|].
  unfold Database.upsert_task.
  destruct (Task.id f); simpl.
  - apply IH. exact Hdb.
  - destruct (Database.aquarium_exists db (Task.aquarium_id f)); simpl;
      [|done].
    apply IH. exact Hdb.
Qed.

Lemma ensure_defaults_wf now db :
  store_wf db → store_wf (state_of (ensure_defaults now db)).
Proof.
  intros Hdb. unfold ensure_defaults.
  destruct (Database.aquariums_rows db) eqn:Hrows; [|done].
  match goal with
  | |- context [Database.upsert_aquarium db ?a] =>
      pose proof (upsert_aquarium_store_wf db a Hdb) as H1;
      destruct (Database.upsert_aquarium db a) as [a1 db1]
  end.
  simpl in H1. destruct (Aquarium.id a1); [|done].
  match goal with
  | |- context [insert_fish_each ?l db1] =>
      pose proof (insert_fish_each_wf l db1 H1) as H2;
      destruct (insert_fish_each l db1) as [[] db2|e db2]
  end; simpl in H2; [|done].
  by apply upsert_task_each_wf.
Qed.

Lemma ensure_defaults_ok now db :
  store_ok db → store_ok (state_of (ensure_defaults now db)).
Proof.
  intros Hdb. unfold ensure_defaults.
  destruct (Database.aquariums_rows db) eqn:Hrows; [|done].
  match goal with
  | |- context [Database.upsert_aquarium db ?a] =>
      assert (aquarium_ok a) as Ha by (unfold aquarium_ok; simpl; lra);
      pose proof (proj2 (upsert_aquarium_ok db a Hdb Ha)) as H1;
      destruct (Database.upsert_aquarium db a) as [a1 db1]
  end.
  simpl in H1. destruct (Aquarium.id a1); [|done].
  match goal with
  | |- context [insert_fish_each ?l db1] =>
      assert (Forall fish_ok l) as Hl
        by (repeat constructor; simpl; lra);
      pose proof (insert_fish_each_ok l db1 H1 Hl) as H2;
      destruct (insert_fish_each l db1) as [[] db2|e db2]
  end; simpl in H2; [|done].
  by apply upsert_task_each_ok.
Qed.

Lemma empty_store_rows db :
  store_wf db → Database.aquariums_rows db = [] →
  Database.fish_rows db = [] ∧ Database.tasks_rows db = [].
Proof.
  intros (_ & _ & _ & Hf & Ht) Hrows.
  unfold Database.aquarium_exists in *. rewrite Hrows in *. simpl in *.
  split.
  - destruct (Database.fish_rows db) as [|r l]; [done|]. by inversion Hf.
  - destruct (Database.tasks_rows db) as [|r l]; [done|]. by inversion Ht.
Qed.

Lemma ensure_defaults_spec now db :
  ∃ db',
    ensure_defaults now db = Returns () db' ∧
    Database.aquariums_rows db' ≠ [] ∧
    (∀ later, ensure_defaults later db' = Returns () db') ∧
    (Database.aquariums_rows db ≠ [] → db' = db) ∧
    (store_wf db → store_wf db') ∧
    (store_ok db → store_ok db') ∧
    (store_wf db → Database.aquariums_rows db = [] →
     let k := (Database.aquariums_seq db + 1)%Z in
     Database.aquariums db' =
       [Aquarium.mk (Some k) "Aquário Principal" 25 25 85
                    (now - timedelta_days 2)%Z] ∧
     map (fun f => (Fish.name f, Fish.species f, Fish.hunger f, Fish.health f))
         (Database.fish_for_aquarium db' k)
       = [("Coral Blue", "Peixe-palhaço", 45%R, 82%R);
          ("Bolhas", "Tetra Neon", 45%R, 82%R);
          ("Foguete", "Guppy", 45%R, 82%R)] ∧
     map (fun t => (Task.kind t, Task.interval_minutes t))
         (Database.tasks_for_aquarium db' k)
       = [("alimentacao", 240%Z); ("limpeza", 1440%Z);
          ("temperatura", 180%Z)] ∧
     Forall (fun t => ∀ later, (now ≤ later)%Z → task_due later t = true)
            (Database.tasks_for_aquarium db' k)).
Proof.
  destruct (Database.aquariums_rows db) as [|a0 rows0] eqn:Hrows.
  - pose proof (ensure_defaults_empty now db Hrows) as Hrun. simpl in Hrun.
    eexists. split; [exact Hrun|].
    split; [done|]. split; [intros later; by apply ensure_defaults_nonempty|].
    split; [done|].
    split; [intros Hdb; pose proof (ensure_defaults_wf now db Hdb) as H;
            by rewrite Hrun in H|].
    split; [intros Hdb; pose proof (ensure_defaults_ok now db Hdb) as H;
            by rewrite Hrun in H|].
    intros Hdb _ k.
    pose proof (ensure_defaults_wf now db Hdb) as Hwf.
    rewrite Hrun in Hwf. simpl in Hwf.
    destruct (empty_store_rows db Hdb Hrows) as [Hf Ht].
    rewrite aquariums_rows_sorted, fish_for_aquarium_rows,
      tasks_for_aquarium_rows by exact Hwf.
    simpl. rewrite Hf, Ht. simpl. fold k.
    repeat (rewrite filter_cons_True by reflexivity). rewrite !filter_nil.
    simpl.
    split; [done|]. split; [done|]. split; [done|].
    repeat constructor; intros later Hlater; apply task_due_iff; simpl; lia.
  - exists db.
    assert (ensure_defaults now db = Returns () db) as Hrun
      by (apply ensure_defaults_nonempty; by rewrite Hrows).
    split; [exact Hrun|]. split; [by rewrite Hrows|].
    split; [intros later; apply ensure_defaults_nonempty; by rewrite Hrows|].
    split; [done|]. split; [done|]. split; [done|].
    intros _ H. discriminate H.
Qed.

(** X16. [Database.ensure_defaults] never raises and leaves a store with
    at least one aquarium, so that a second call changes nothing; a store
    that already has an aquarium is left as it is.  It keeps the keys and
    the bounds of the store.  On a well-formed store without aquariums it
    inserts the aquarium "Aquário Principal" with three fish at hunger 45
    and health 82 and the three reminders, each of them due from [now] on. *)
Theorem ensure_defaults_seeds now db :
  ∃ db',
    ensure_defaults now db = Returns () db' ∧
    Database.aquariums_rows db' ≠ [] ∧
    (∀ later, ensure_defaults later db' = Returns () db') ∧
    (Database.aquariums_rows db ≠ [] → db' = db) ∧
    (store_wf db → store_wf db') ∧
    (store_ok db → store_ok db') ∧
    (store_wf db → Database.aquariums_rows db = [] →
     let k := (Database.aquariums_seq db + 1)%Z in
     Database.aquariums db' =
       [Aquarium.mk (Some k) "Aquário Principal" 25 25 85
                    (now - timedelta_days 2)%Z] ∧
     map (fun f => (Fish.name f, Fish.species f, Fish.hunger f, Fish.health f))
         (Database.fish_for_aquarium db' k)
       = [("Coral Blue", "Peixe-palhaço", 45%R, 82%R);
          ("Bolhas", "Tetra Neon", 45%R, 82%R);
          ("Foguete", "Guppy", 45%R, 82%R)] ∧
     map (fun t => (Task.kind t, Task.interval_minutes t))
         (Database.tasks_for_aquarium db' k)
       = [("alimentacao", 240%Z); ("limpeza", 1440%Z);
          ("temperatura", 180%Z)] ∧
     Forall (fun t => ∀ later, (now ≤ later)%Z → task_due later t = true)
            (Database.tasks_for_aquarium db' k)).
Proof. apply ensure_defaults_spec. Qed.
(** ** Bounds across reload and the task operations *)

Lemma sorted_rows_ok {A} (R : relation A) `{!RelDecision R} (P : A → Prop)
    (rows : list A) :
  Forall P rows → Forall P (merge_sort R rows).
Proof. intros H. by rewrite merge_sort_Permutation. Qed.

Lemma filtered_rows_ok {A} (P : A → Prop) (Q : A → Prop)
    `{!∀ x, Decision (Q x)} (rows : list A) :
  Forall P rows → Forall P (filter Q rows).
Proof.
  rewrite !Forall_forall. intros Hall x Hx.
  apply list_elem_of_filter in Hx as [_ Hx]. by apply Hall.
Qed.

Lemma reload_fish now w :
  _fish (self (reload now w))
    = load_fish (_database (self w))
        (Database.aquariums (_database (self w))).
Proof.
  unfold reload.
  by destruct (load_tasks (_database (self w))
                 (Database.aquariums (_database (self w))) (objects w)).
Qed.

Lemma reload_ok now w :
  store_ok (_database (self w)) → engine_ok (self (reload now w)).
Proof.
  intros [Ha Hf].
  destruct (reload_spec now w) as (Haq & _ & _ & _ & Hdb & _).
  split; [|split].
  - rewrite Haq. by apply sorted_rows_ok.
  - intros k fs. rewrite reload_fish, load_fish_lookup.
    destruct (decide _); [|done]. intros [= <-].
    apply sorted_rows_ok. by apply filtered_rows_ok.
  - by rewrite Hdb.
Qed.

Lemma delete_aquarium_ok now k w :
  store_ok (_database (self w)) → engine_ok (self (delete_aquarium now k w)).
Proof.
  intros [Ha Hf]. unfold delete_aquarium. apply reload_ok. simpl.
  split; simpl; by apply filtered_rows_ok.
Qed.

Lemma add_task_ok now k kind n w :
  engine_ok (self w) → engine_ok (self (state_of (add_task now k kind n w))).
Proof.
  intros (Ha & Hf & Hs). unfold add_task, Database.upsert_task. simpl.
  destruct (Database.aquarium_exists _ _); simpl; [|done].
  done.
Qed.

Lemma mark_task_done_ok now ref w :
  engine_ok (self w) → engine_ok (self (state_of (mark_task_done now ref w))).
Proof.
  intros (Ha & Hf & Hs). unfold mark_task_done.
  destruct (objects w !! ref) as [obj|]; simpl; [|done].
  destruct (Task.id obj) as [j|] eqn:Hid; simpl.
  - rewrite Hid. done.
  - unfold Database.upsert_task. rewrite Hid.
    destruct (Database.aquarium_exists _ _); simpl; [|done].
    done.
Qed.

(** X17. The bounds on cleanliness, hunger and health also survive the
    operations that rebuild the cache or touch only tasks: [reload] and
    [delete_aquarium] yield an engine within bounds from any store within
    bounds, whatever the cache held, and [add_task], [mark_task_done],
    [adjust_temperature], [register_temperature] and [remove_fish] keep an
    engine within bounds. *)
Theorem bounds_kept_elsewhere now w :
  (store_ok (_database (self w)) →
   engine_ok (self (reload now w)) ∧
   ∀ k, engine_ok (self (delete_aquarium now k w))) ∧
  (engine_ok (self w) →
   (∀ k kind n, engine_ok (self (state_of (add_task now k kind n w)))) ∧
   (∀ ref, engine_ok (self (state_of (mark_task_done now ref w)))) ∧
   (∀ k target, engine_ok (adjust_temperature k target (self w))) ∧
   (∀ k temp, engine_ok (register_temperature k temp (self w))) ∧
   (∀ fish_id k, engine_ok (remove_fish fish_id k (self w)))).
Proof.
  split.
  - intros Hs. split; [by apply reload_ok|].
    intros k. by apply delete_aquarium_ok.
  - intros Hok. destruct (other_commands_ok (self w) Hok) as (H1 & H2 & H3).
    split; [intros; by apply add_task_ok|].
    split; [intros; by apply mark_task_done_ok|]. done.
Qed.
Lemma resolved_ref {A} (objs : list A) (refs : list nat) (rows : list A) ref :
  (fun ref => objs !! ref) <$> refs = Some <$> rows →
  ref ∈ refs → ∃ row, row ∈ rows ∧ objs !! ref = Some row.
Proof.
  intros Heq Href.
  assert (objs !! ref ∈ (Some <$> rows)) as Hin.
  { rewrite <- Heq. apply list_elem_of_fmap. by exists ref. }
  apply list_elem_of_fmap in Hin as (row & Hrow & Hin). by exists row.
Qed.

(** ** The window's handlers *)

Lemma find_snoc_fresh {A} (P : A → bool) (l : list A) (x : A) :
  (∀ y, y ∈ l → P y = false) → P x = true → find P (l ++ [x]) = Some x.
Proof.
  intros Hl Hx. induction l as [|y l IH]; simpl.
  - by rewrite Hx.
  - rewrite (Hl y) by apply list_elem_of_here. apply IH.
    intros z Hz. apply Hl. by apply list_elem_of_further.
Qed.

Lemma find_first {A} (P : A → bool) (l : list A) (x : A) :
  find P l = Some x → x ∈ l ∧ P x = true.
Proof.
  intros H. apply find_some in H as [Hin HP]. split; [|done].
  by apply list_elem_of_In.
Qed.

Lemma find_nothing {A} (P : A → bool) (l : list A) :
  find P l = None ↔ ∀ y, y ∈ l → P y = false.
Proof.
  split.
  - intros H y Hy. apply (find_none P l H). by apply list_elem_of_In.
  - intros H. induction l as [|y l IH]; simpl; [done|].
    rewrite (H y) by apply list_elem_of_here. apply IH.
    intros z Hz. apply H. by apply list_elem_of_further.
Qed.

Lemma find_task_spec now k kind w :
  Database.aquarium_exists (_database (self w)) k = true →
  (∀ ref, ref ∈ tasks_for (self w) k → is_Some (objects w !! ref)) →
  ∃ ref w' task,
    AquariumWindow._find_task now k kind w = Returns ref w' ∧
    ref ∈ tasks_for (self w') k ∧
    objects w' !! ref = Some task ∧
    Task.kind task = kind ∧
    (∀ later, AquariumWindow._find_task later k kind w' = Returns ref w') ∧
    ((∃ ref0 task0, ref0 ∈ tasks_for (self w) k ∧
                    objects w !! ref0 = Some task0 ∧ Task.kind task0 = kind) →
     w' = w) ∧
    ((∀ ref0 task0, ref0 ∈ tasks_for (self w) k →
                    objects w !! ref0 = Some task0 → Task.kind task0 ≠ kind) →
     w' = state_of (add_task now k kind 240 w) ∧
     tasks_for (self w') k = tasks_for (self w) k ++ [ref] ∧
     objects w' = objects w ++ [task] ∧
     is_Some (Task.id task) ∧
     Task.interval_minutes task = 240%Z ∧
     task_due now task = true) ∧
    (w' = w ∨ w' = state_of (add_task now k kind 240 w)) ∧
    (∀ ref, ref ∈ tasks_for (self w') k → is_Some (objects w' !! ref)) ∧
    ((∀ ref0 task0, ref0 ∈ tasks_for (self w) k →
                    objects w !! ref0 = Some task0 → is_Some (Task.id task0)) →
     is_Some (Task.id task)).
Proof.
  intros Hex Hrefs. unfold AquariumWindow._find_task.
  set (P := fun (objs : list Task.t) (ref : nat) =>
              match objs !! ref with
              | Some task => bool_decide (Task.kind task = kind)
              | None => false
              end).
  change (find _ (tasks_for (self w) k))
    with (find (P (objects w)) (tasks_for (self w) k)).
  destruct (find (P (objects w)) (tasks_for (self w) k)) as [ref|] eqn:Hfind.
  - destruct (find_first _ _ _ Hfind) as [Hin HP]. unfold P in HP.
    destruct (objects w !! ref) as [task|] eqn:Hobj; [|done].
    apply bool_decide_eq_true in HP.
    exists ref, w, task.
    split; [done|]. split; [done|]. split; [done|]. split; [done|].
    split.
    { intros later. unfold AquariumWindow._find_task.
      change (find _ (tasks_for (self w) k))
        with (find (P (objects w)) (tasks_for (self w) k)).
      by rewrite Hfind. }
    split; [done|].
    split; [intros Hnone; by destruct (Hnone ref task Hin Hobj)|].
    split; [by left|]. split; [done|].
    intros Hids. by apply (Hids ref task).
  - assert (∀ y, y ∈ tasks_for (self w) k → P (objects w) y = false)
      as Hnone by by apply find_nothing.
    unfold add_task, Database.upsert_task. simpl. rewrite Hex. simpl.
    set (stored := Task.set_id _ _).
    set (ref := length (objects w)).
    eexists ref, _, stored.
    split; [reflexivity|].
    assert (∀ y, y ∈ tasks_for (self w) k →
                 P (objects w ++ [stored]) y = false) as Hnone'.
    { intros y Hy. specialize (Hnone y Hy). unfold P in *.
      destruct (Hrefs y Hy) as [t Ht].
      rewrite Ht in Hnone. by rewrite (lookup_app_l_Some _ _ _ _ Ht). }
    assert (P (objects w ++ [stored]) ref = true) as Href.
    { unfold P, ref. rewrite lookup_app_r, Nat.sub_diag by done. simpl.
      by apply bool_decide_eq_true. }
    unfold tasks_for in *. simpl. rewrite lookup_insert_eq. simpl.
    split; [apply elem_of_app; right; apply list_elem_of_here|].
    split; [unfold ref; by rewrite lookup_app_r, Nat.sub_diag|].
    split; [done|].
    split.
    { intros later. unfold AquariumWindow._find_task, tasks_for. simpl.
      change (find _ (?l ++ [ref]))
        with (find (P (objects w ++ [stored])) (l ++ [ref])).
      by rewrite (find_snoc_fresh _ _ _ Hnone' Href). }
    split.
    { intros (ref0 & task0 & Hin0 & Hobj0 & Hkind0).
      specialize (Hnone ref0 Hin0). unfold P in Hnone. rewrite Hobj0 in Hnone.
      by rewrite bool_decide_eq_true_2 in Hnone. }
    split.
    { intros _. split; [done|]. split; [done|]. split; [done|].
      split; [by eexists|]. split; [done|].
      apply task_due_iff. simpl. lia. }
    split; [by right|].
    split; [|intros _; by eexists].
    intros y Hy. apply elem_of_app in Hy as [Hy|Hy].
    + destruct (Hrefs y Hy) as [t Ht]. exists t.
      by apply lookup_app_l_Some.
    + apply list_elem_of_singleton in Hy as ->. exists stored.
      unfold ref. by rewrite lookup_app_r, Nat.sub_diag.
Qed.

(** X19. [_find_task] gets or creates: for an aquarium that has a row,
    and whose cached task references denote objects, it returns a task of
    the requested kind from the aquarium's task list, and asking again
    returns the same task and changes nothing.  If the list already had a
    task of that kind nothing changes at all; otherwise exactly one task
    is added, with an interval of 240 minutes, and it is due at once. *)
Theorem find_task_get_or_create now k kind w :
  Database.aquarium_exists (_database (self w)) k = true →
  (∀ ref, ref ∈ tasks_for (self w) k → is_Some (objects w !! ref)) →
  ∃ ref w' task,
    AquariumWindow._find_task now k kind w = Returns ref w' ∧
    ref ∈ tasks_for (self w') k ∧
    objects w' !! ref = Some task ∧
    Task.kind task = kind ∧
    (∀ later, AquariumWindow._find_task later k kind w' = Returns ref w') ∧
    ((∃ ref0 task0, ref0 ∈ tasks_for (self w) k ∧
                    objects w !! ref0 = Some task0 ∧ Task.kind task0 = kind) →
     w' = w) ∧
    ((∀ ref0 task0, ref0 ∈ tasks_for (self w) k →
                    objects w !! ref0 = Some task0 → Task.kind task0 ≠ kind) →
     tasks_for (self w') k = tasks_for (self w) k ++ [ref] ∧
     objects w' = objects w ++ [task] ∧
     Task.interval_minutes task = 240%Z ∧
     task_due now task = true).
Proof.
  intros Hex Hrefs.
  destruct (find_task_spec now k kind w Hex Hrefs)
    as (ref & w' & task & Hrun & Href & Hobj & Hkind & Hagain & Hold & Hnew
        & _).
  exists ref, w', task. repeat (split; [done|]).
  intros Hnone. by destruct (Hnew Hnone) as (_ & ? & ? & _ & ? & ?).
Qed.
Lemma add_task_returns now k kind n w :
  Database.aquarium_exists (_database (self w)) k = true →
  let s := self w in
  let db := _database s in
  let stored :=
    Task.mk (Some (Database.tasks_seq db + 1)%Z) k kind n
            (now - timedelta_minutes n)%Z in
  add_task now k kind n w =
  Returns (length (objects w))
    (World (objects w ++ [stored])
       (mk (Database.commit
              (Database.mk (Database.aquariums_rows db) (Database.fish_rows db)
                 (Database.tasks_rows db ++ [stored])
                 (Database.aquariums_seq db) (Database.fish_seq db)
                 (Database.tasks_seq db + 1)%Z (Database.commits db)))
           (_aquariums s) (_fish s)
           (<[k := tasks_for s k ++ [length (objects w)]]> (_tasks s))
           (_last_tick s))).
Proof.
  intros Hex s db stored. subst s db stored.
  unfold add_task, Database.upsert_task. simpl. by rewrite Hex.
Qed.

Lemma aquarium_exists_snoc rows a k fs ts n1 n2 n3 c :
  Aquarium.id a = Some k →
  Database.aquarium_exists
    (Database.mk (rows ++ [a]) fs ts n1 n2 n3 c) k = true.
Proof.
  intros Hid. unfold Database.aquarium_exists. simpl.
  rewrite existsb_app. simpl. rewrite Hid. simpl.
  rewrite bool_decide_eq_true_2 by done. by rewrite orb_true_r.
Qed.

Lemma handle_add_aquarium_spec now0 now1 now2 now3 name target w :
  let k := (Database.aquariums_seq (_database (self w)) + 1)%Z in
  let a := Aquarium.mk (Some k) name target target 90 now0 in
  let n := length (objects w) in
  ∃ w' t1 t2 t3,
    AquariumWindow._handle_add_aquarium now0 now1 now2 now3 name target w
      = Returns () w' ∧
    w' = state_of (add_task now3 k "temperatura" 180
           (state_of (add_task now2 k "limpeza" 1440
              (state_of (add_task now1 k "alimentacao" 240
                 (World (objects w)
                    (state_of (create_aquarium now0 name target
                                 (self w))))))))) ∧
    aquariums (self w') = aquariums (self w) ++ [a] ∧
    fish_for (self w') k = [] ∧
    tasks_for (self w') k = [n; S n; S (S n)] ∧
    objects w' = objects w ++ [t1; t2; t3] ∧
    (Task.kind t1, Task.interval_minutes t1) = ("alimentacao", 240%Z) ∧
    (Task.kind t2, Task.interval_minutes t2) = ("limpeza", 1440%Z) ∧
    (Task.kind t3, Task.interval_minutes t3) = ("temperatura", 180%Z) ∧
    Task.last_run_at t1 = (now1 - timedelta_minutes 240)%Z ∧
    Task.last_run_at t2 = (now2 - timedelta_minutes 1440)%Z ∧
    Task.last_run_at t3 = (now3 - timedelta_minutes 180)%Z.
Proof.
  intros k a n.
  set (s0 := state_of (create_aquarium now0 name target (self w))).
  assert (create_aquarium now0 name target (self w) = Returns a s0) as R0
    by reflexivity.
  set (w0 := World (objects w) s0).
  assert (Database.aquarium_exists (_database (self w0)) k = true) as H0
    by by apply aquarium_exists_snoc.
  pose proof (add_task_returns now1 k "alimentacao" 240 w0 H0) as R1.
  cbv zeta in R1. set (w1 := World _ _) in R1.
  assert (Database.aquarium_exists (_database (self w1)) k = true) as H1
    by by apply aquarium_exists_snoc.
  pose proof (add_task_returns now2 k "limpeza" 1440 w1 H1) as R2.
  cbv zeta in R2. set (w2 := World _ _) in R2.
  assert (Database.aquarium_exists (_database (self w2)) k = true) as H2
    by by apply aquarium_exists_snoc.
  pose proof (add_task_returns now3 k "temperatura" 180 w2 H2) as R3.
  cbv zeta in R3. set (w3 := World _ _) in R3.
  eexists w3, _, _, _.
  split.
  { unfold AquariumWindow._handle_add_aquarium. rewrite R0.
    cbn [Aquarium.id a]. fold w0. by rewrite R1, R2, R3. }
  split.
  { rewrite R1. cbn [state_of]. rewrite R2. cbn [state_of]. by rewrite R3. }
  split; [reflexivity|].
  subst w3 w2 w1 w0 s0 k. simpl.
  repeat (unfold fish_for, tasks_for; simpl; rewrite ?lookup_insert_eq).
  simpl. split; [reflexivity|].
  split.
  { rewrite !length_app. simpl. fold n.
    by replace (n + 1 + 1)%nat with (S (S n)) by lia;
       replace (n + 1)%nat with (S n) by lia. }
  split; [by rewrite <- !app_assoc|].
  simpl. done.
Qed.
Lemma handle_add_aquarium_keeps now0 now1 now2 now3 name target w :
  (engine_mirror (self w) →
   engine_mirror
     (self (state_of (AquariumWindow._handle_add_aquarium
                        now0 now1 now2 now3 name target w)))) ∧
  (engine_ok (self w) →
   engine_ok
     (self (state_of (AquariumWindow._handle_add_aquarium
                        now0 now1 now2 now3 name target w)))).
Proof.
  destruct (handle_add_aquarium_spec now0 now1 now2 now3 name target w)
    as (w' & t1 & t2 & t3 & Hrun & -> & _).
  rewrite Hrun. cbn [state_of]. split; intros H.
  - do 3 apply add_task_mirror. simpl. by apply create_aquarium_mirror.
  - do 3 apply add_task_ok. simpl. by apply create_aquarium_ok.
Qed.

(** X20. [_handle_add_aquarium], from the call of [create_aquarium] on,
    never raises: the new aquarium is appended to the engine's list with
    cleanliness 90 and both temperatures at the target, it has no fish,
    and its task list holds exactly the three reminders "alimentacao"
    (240 min), "limpeza" (1440 min) and "temperatura" (180 min);
    [due_tasks] reports each of them as soon as the last of them has
    been added. *)
Theorem handle_add_aquarium_effect now0 now1 now2 now3 name target w :
  let k := (Database.aquariums_seq (_database (self w)) + 1)%Z in
  let a := Aquarium.mk (Some k) name target target 90 now0 in
  ∃ w',
    AquariumWindow._handle_add_aquarium now0 now1 now2 now3 name target w
      = Returns () w' ∧
    aquariums (self w') = aquariums (self w) ++ [a] ∧
    fish_for (self w') k = [] ∧
    (fun ref => (fun t => (Task.kind t, Task.interval_minutes t))
                  <$> objects w' !! ref) <$> tasks_for (self w') k
      = [Some ("alimentacao", 240%Z); Some ("limpeza", 1440%Z);
         Some ("temperatura", 180%Z)] ∧
    (∀ later ref,
       (now1 ≤ later)%Z → (now2 ≤ later)%Z → (now3 ≤ later)%Z →
       ref ∈ tasks_for (self w') k → (ref, a) ∈ due_tasks later w') ∧
    objects w `prefix_of` objects w'.
Proof.
  intros k a.
  destruct (handle_add_aquarium_spec now0 now1 now2 now3 name target w)
    as (w' & t1 & t2 & t3 & Hrun & _ & Haq & Hfish & Htasks & Hobjs
        & Hk1 & Hk2 & Hk3 & Hr1 & Hr2 & Hr3).
  fold k a in Haq, Hfish, Htasks.
  assert (objects w' !! length (objects w) = Some t1) as Ho1.
  { rewrite Hobjs, lookup_app_r, Nat.sub_diag by done. done. }
  assert (objects w' !! S (length (objects w)) = Some t2) as Ho2.
  { rewrite Hobjs, lookup_app_r by lia.
    by replace (S (length (objects w)) - length (objects w))%nat
      with 1%nat by lia. }
  assert (objects w' !! S (S (length (objects w))) = Some t3) as Ho3.
  { rewrite Hobjs, lookup_app_r by lia.
    by replace (S (S (length (objects w))) - length (objects w))%nat
      with 2%nat by lia. }
  exists w'. split; [exact Hrun|]. split; [exact Haq|].
  split; [exact Hfish|].
  split.
  { rewrite Htasks. simpl. rewrite Ho1, Ho2, Ho3. simpl.
    by rewrite Hk1, Hk2, Hk3. }
  split; [|rewrite Hobjs; by apply prefix_app_r].
  intros later ref L1 L2 L3 Href.
  apply elem_of_due_tasks. exists k.
  split; [unfold aquariums in Haq; rewrite Haq; apply elem_of_app; right;
          apply list_elem_of_here|].
  split; [done|]. split; [exact Href|].
  rewrite Htasks in Href.
  injection Hk1 as _ Hi1. injection Hk2 as _ Hi2. injection Hk3 as _ Hi3.
  apply elem_of_cons in Href as [->|Href]; [exists t1|].
  { split; [done|]. apply task_due_iff. rewrite Hr1, Hi1. lia. }
  apply elem_of_cons in Href as [->|Href]; [exists t2|].
  { split; [done|]. apply task_due_iff. rewrite Hr2, Hi2. lia. }
  apply list_elem_of_singleton in Href as ->. exists t3.
  split; [done|]. apply task_due_iff. rewrite Hr3, Hi3. lia.
Qed.
(** ** Feeding and cleaning from the window *)

Lemma selected_cached sel w k :
  AquariumWindow.selected_id sel w = Some k →
  ∃ a, AquariumWindow._current_aquarium sel w = Some a ∧
       a ∈ _aquariums (self w) ∧ Aquarium.id a = Some k.
Proof.
  unfold AquariumWindow.selected_id, AquariumWindow._current_aquarium.
  destruct sel as [j|]; [|done].
  destruct (find _ _) as [a|] eqn:Hfind; [|done].
  intros Hid. apply find_first in Hfind as [Hin _]. by exists a.
Qed.

Lemma cached_aquarium_exists s a k :
  engine_mirror s → a ∈ _aquariums s → Aquarium.id a = Some k →
  Database.aquarium_exists (_database s) k = true.
Proof.
  intros Hm Hin Hid. destruct (mirror_rows s Hm) as [Haq _].
  apply aquarium_exists_iff. rewrite <- Haq, <- Hid.
  apply list_elem_of_fmap. by exists a.
Qed.

Lemma add_task_cache now k kind n w :
  let w' := state_of (add_task now k kind n w) in
  _aquariums (self w') = _aquariums (self w) ∧
  _fish (self w') = _fish (self w) ∧
  _last_tick (self w') = _last_tick (self w).
Proof.
  unfold add_task. destruct (Database.upsert_task _ _) as [e|[stored db]];
    by simpl.
Qed.

Lemma mark_task_done_cache now ref w :
  let w' := state_of (mark_task_done now ref w) in
  _aquariums (self w') = _aquariums (self w) ∧
  _fish (self w') = _fish (self w) ∧
  _tasks (self w') = _tasks (self w) ∧
  _last_tick (self w') = _last_tick (self w).
Proof.
  unfold mark_task_done. destruct (objects w !! ref) as [obj|]; [|by simpl].
  destruct (Task.id obj); [by simpl|].
  destruct (Database.upsert_task _ _) as [e|[stored db]]; by simpl.
Qed.

(** What the two handlers share: the engine has been updated ([w1]), the
    task of [kind] is looked up or created, and marked done. *)
Lemma record_done_spec now1 now2 k kind w1 :
  engine_mirror (self w1) → tasks_live w1 →
  (∃ a, a ∈ _aquariums (self w1) ∧ Aquarium.id a = Some k) →
  ∃ w2 w' ref task,
    AquariumWindow._find_task now1 k kind w1 = Returns ref w2 ∧
    (w2 = w1 ∨ w2 = state_of (add_task now1 k kind 240 w1)) ∧
    mark_task_done now2 ref w2 = Returns () w' ∧
    _aquariums (self w') = _aquariums (self w1) ∧
    _fish (self w') = _fish (self w1) ∧
    ref ∈ tasks_for (self w') k ∧
    objects w' !! ref = Some task ∧
    Task.kind task = kind ∧
    Task.last_run_at task = now2 ∧
    (∀ later a, a ∈ _aquariums (self w') → Aquarium.id a = Some k →
       (ref, a) ∈ due_tasks later w' ↔
       (now2 + timedelta_minutes (Task.interval_minutes task) ≤ later)%Z).
Proof.
  intros Hm Hlive (a & Hin & Hid).
  pose proof (cached_aquarium_exists _ _ _ Hm Hin Hid) as Hex.
  destruct (find_task_spec now1 k kind w1 Hex)
    as (ref & w2 & task & Hrun & Href & Hobj & Hkind & _ & _ & _ & Hw2 & _
        & Hsome).
  { intros ref Href. destruct (Hlive k ref Href) as (t & Ht & _). by exists t. }
  assert (is_Some (Task.id task)) as Hid'.
  { apply Hsome. intros ref0 task0 H1 H2.
    destruct (Hlive k ref0 H1) as (t & Ht & Hs). congruence. }
  destruct (mark_task_done_spec now2 ref w2 task Hobj (or_introl Hid'))
    as (w' & task' & Hmark & Hobj' & Hlast & Hint & _ & _ & _ & _ & Haq' & Ht').
  pose proof (mark_task_done_cache now2 ref w2) as Hc. rewrite Hmark in Hc.
  cbn [state_of] in Hc. destruct Hc as (_ & Hf' & _).
  assert (_aquariums (self w2) = _aquariums (self w1) ∧
          _fish (self w2) = _fish (self w1)) as [Haq2 Hf2].
  { destruct Hw2 as [->| ->]; [done|].
    by destruct (add_task_cache now1 k kind 240 w1) as (? & ? & _). }
  assert (ref ∈ tasks_for (self w') k) as Href'
    by (unfold tasks_for in *; by rewrite Ht').
  exists w2, w', ref, task'.
  split; [done|]. split; [done|]. split; [done|].
  split; [congruence|]. split; [congruence|]. split; [done|].
  split; [done|].
  split.
  { unfold mark_task_done in Hmark. rewrite Hobj in Hmark.
    destruct Hid' as [j Hj]. rewrite Hj in Hmark. simpl in Hmark.
    injection Hmark as <-. simpl in Hobj'.
    rewrite list_lookup_insert_eq in Hobj'
      by (by apply lookup_lt_Some in Hobj).
    injection Hobj' as <-. done. }
  split; [done|].
  intros later b Hb Hbid.
  rewrite (due_tasks_cached later w' b k ref task' Hb Hbid Href' Hobj').
  by rewrite Hlast.
Qed.
Lemma update_first_elem {A} (p : A → bool) f (xs xs' : list A) y :
  update_first p f xs = Some (xs', y) →
  y ∈ xs' ∧ length xs' = length xs ∧ ∃ x, x ∈ xs ∧ p x = true ∧ y = f x.
Proof.
  revert xs'. induction xs as [|x xs IH]; intros xs' H; simpl in H; [done|].
  destruct (p x) eqn:Hp.
  - injection H as <- <-. split; [apply list_elem_of_here|].
    split; [done|]. exists x. split; [apply list_elem_of_here|done].
  - destruct (update_first p f xs) as [[rest z]|]; [|done].
    injection H as <- <-. destruct (IH rest eq_refl) as (Hin & Hlen & x0 & Hx0 & Hpx & ->).
    split; [by apply list_elem_of_further|]. split; [simpl; by rewrite Hlen|].
    exists x0. split; [by apply list_elem_of_further|done].
Qed.

Lemma feed_fish_frame k s :
  _aquariums (feed_fish k s) = _aquariums s ∧
  _tasks (feed_fish k s) = _tasks s ∧
  _last_tick (feed_fish k s) = _last_tick s.
Proof. unfold feed_fish. by destruct (map feed_one _). Qed.

Lemma clean_aquarium_frame now k s :
  _fish (clean_aquarium now k s) = _fish s ∧
  _tasks (clean_aquarium now k s) = _tasks s ∧
  _last_tick (clean_aquarium now k s) = _last_tick s ∧
  length (_aquariums (clean_aquarium now k s)) = length (_aquariums s).
Proof.
  unfold clean_aquarium.
  destruct (update_first _ _ _) as [[l y]|] eqn:H; [|done]. simpl.
  by destruct (update_first_elem _ _ _ _ _ H) as (_ & ? & _).
Qed.

Lemma clean_aquarium_cleaned now k s a :
  a ∈ _aquariums s → Aquarium.id a = Some k →
  ∃ b, b ∈ _aquariums (clean_aquarium now k s) ∧ Aquarium.id b = Some k ∧
       Aquarium.cleanliness b = 100%R ∧ Aquarium.last_cleaned_at b = now.
Proof.
  intros Hin Hid. unfold clean_aquarium.
  destruct (update_first _ _ _) as [[l y]|] eqn:H.
  - destruct (update_first_elem _ _ _ _ _ H) as (Hy & _ & x & Hx & Hp & ->).
    apply id_is_true in Hp. simpl. eexists. split; [exact Hy|]. by simpl.
  - exfalso.
    assert (∀ x, x ∈ _aquariums s →
              id_is (Aquarium.id x) k = false) as Hnone.
    { clear Hin. revert H. induction (_aquariums s) as [|x l IH]; simpl.
      - intros _ x Hx. by apply elem_of_nil in Hx.
      - destruct (id_is (Aquarium.id x) k) eqn:Hp; [done|].
        destruct (update_first _ _ l) as [[? ?]|]; [done|].
        intros _ z Hz. apply elem_of_cons in Hz as [->|Hz]; [done|].
        by apply IH. }
    specialize (Hnone a Hin). by rewrite (proj2 (id_is_true _ _) Hid) in Hnone.
Qed.

Lemma handlers_record_spec sel w k :
  engine_mirror (self w) → tasks_live w →
  AquariumWindow.selected_id sel w = Some k →
  (∀ now1 now2, ∃ w' ref task,
     AquariumWindow._handle_feed sel now1 now2 w = Returns () w' ∧
     aquariums (self w') = aquariums (self w) ∧
     fish_for (self w') k = map feed_one (fish_for (self w) k) ∧
     ref ∈ tasks_for (self w') k ∧
     objects w' !! ref = Some task ∧
     Task.kind task = "alimentacao" ∧
     Task.last_run_at task = now2 ∧
     (∀ later a, a ∈ aquariums (self w') → Aquarium.id a = Some k →
        (ref, a) ∈ due_tasks later w' ↔
        (now2 + timedelta_minutes (Task.interval_minutes task) ≤ later)%Z)) ∧
  (∀ now0 now1 now2, ∃ w' a ref task,
     AquariumWindow._handle_clean sel now0 now1 now2 w = Returns () w' ∧
     a ∈ aquariums (self w') ∧ Aquarium.id a = Some k ∧
     Aquarium.cleanliness a = 100%R ∧ Aquarium.last_cleaned_at a = now0 ∧
     (∀ j, fish_for (self w') j = fish_for (self w) j) ∧
     ref ∈ tasks_for (self w') k ∧
     objects w' !! ref = Some task ∧
     Task.kind task = "limpeza" ∧
     Task.last_run_at task = now2 ∧
     (∀ later b, b ∈ aquariums (self w') → Aquarium.id b = Some k →
        (ref, b) ∈ due_tasks later w' ↔
        (now2 + timedelta_minutes (Task.interval_minutes task) ≤ later)%Z)).
Proof.
  intros Hm Hlive Hsel.
  destruct (selected_cached _ _ _ Hsel) as (a & _ & Hin & Hid).
  split.
  - intros now1 now2. unfold AquariumWindow._handle_feed. rewrite Hsel.
    set (w1 := World (objects w) (feed_fish k (self w))).
    destruct (feed_fish_frame k (self w)) as (Haq & Ht & _).
    destruct (record_done_spec now1 now2 k "alimentacao" w1)
      as (w2 & w' & ref & task & Hfind & _ & Hmark & Haq' & Hf' & Href & Hobj
          & Hkind & Hlast & Hdue).
    { by apply feed_fish_mirror. }
    { intros j ref Href. apply (Hlive j ref). unfold tasks_for in *.
      simpl in Href. by rewrite Ht in Href. }
    { exists a. simpl. by rewrite Haq. }
    rewrite Hfind. exists w', ref, task.
    split; [exact Hmark|]. unfold aquariums. simpl in Haq', Hf'.
    split; [congruence|].
    split; [unfold fish_for at 1; rewrite Hf'; apply feed_fish_cache|].
    done.
  - intros now0 now1 now2. unfold AquariumWindow._handle_clean. rewrite Hsel.
    set (w1 := World (objects w) (clean_aquarium now0 k (self w))).
    destruct (clean_aquarium_frame now0 k (self w)) as (Hf & Ht & _).
    destruct (clean_aquarium_cleaned now0 k (self w) a Hin Hid)
      as (b & Hb & Hbid & Hclean & Hat).
    destruct (record_done_spec now1 now2 k "limpeza" w1)
      as (w2 & w' & ref & task & Hfind & _ & Hmark & Haq' & Hf' & Href & Hobj
          & Hkind & Hlast & Hdue).
    { by apply clean_aquarium_mirror. }
    { intros j ref Href. apply (Hlive j ref). unfold tasks_for in *.
      simpl in Href. by rewrite Ht in Href. }
    { by exists b. }
    rewrite Hfind. exists w', b, ref, task.
    split; [exact Hmark|]. unfold aquariums. simpl in Haq', Hf'.
    split; [by rewrite Haq'|]. split; [done|]. split; [done|].
    split; [done|].
    split; [intros j; unfold fish_for; by rewrite Hf', Hf|].
    done.
Qed.

(** X21. Feeding and cleaning from the window, with an aquarium selected,
    on an engine whose cache mirrors the store and whose cached task
    references denote objects that have a row: [_handle_feed] does not
    raise, feeds every fish of the aquarium once and leaves a task of kind
    "alimentacao" in the aquarium's task list whose last run is the clock
    reading of [mark_task_done], so that [due_tasks] reports it again
    exactly when its interval has passed since then.  [_handle_clean] does
    the same with the cleanliness (100, cleaned at the clock reading of
    [clean_aquarium]) and the task "limpeza". *)
Theorem handlers_record_the_task sel w k :
  engine_mirror (self w) → tasks_live w →
  AquariumWindow.selected_id sel w = Some k →
  (∀ now1 now2, ∃ w' ref task,
     AquariumWindow._handle_feed sel now1 now2 w = Returns () w' ∧
     aquariums (self w') = aquariums (self w) ∧
     fish_for (self w') k = map feed_one (fish_for (self w) k) ∧
     ref ∈ tasks_for (self w') k ∧
     objects w' !! ref = Some task ∧
     Task.kind task = "alimentacao" ∧
     Task.last_run_at task = now2 ∧
     (∀ later a, a ∈ aquariums (self w') → Aquarium.id a = Some k →
        (ref, a) ∈ due_tasks later w' ↔
        (now2 + timedelta_minutes (Task.interval_minutes task) ≤ later)%Z)) ∧
  (∀ now0 now1 now2, ∃ w' a ref task,
     AquariumWindow._handle_clean sel now0 now1 now2 w = Returns () w' ∧
     a ∈ aquariums (self w') ∧ Aquarium.id a = Some k ∧
     Aquarium.cleanliness a = 100%R ∧ Aquarium.last_cleaned_at a = now0 ∧
     (∀ j, fish_for (self w') j = fish_for (self w) j) ∧
     ref ∈ tasks_for (self w') k ∧
     objects w' !! ref = Some task ∧
     Task.kind task = "limpeza" ∧
     Task.last_run_at task = now2 ∧
     (∀ later b, b ∈ aquariums (self w') → Aquarium.id b = Some k →
        (ref, b) ∈ due_tasks later w' ↔
        (now2 + timedelta_minutes (Task.interval_minutes task) ≤ later)%Z)).
Proof. apply handlers_record_spec. Qed.
(** ** The invariant of a session *)

Lemma tasks_stored_live w : tasks_stored w → tasks_live w.
Proof.
  intros H k ref Href.
  destruct (H k ref Href) as (task & row & Hobj & Hid & _). by exists task.
Qed.

Lemma session_frame w s' :
  session_ok w →
  engine_mirror s' → engine_wf s' → engine_ok s' →
  (∀ j ref, ref ∈ tasks_for s' j → ref ∈ tasks_for (self w) j) →
  Database.tasks_rows (_database s')
    = Database.tasks_rows (_database (self w)) →
  (_aquariums (self w) ≠ [] → _aquariums s' ≠ []) →
  session_ok (World (objects w) s').
Proof.
  intros (_ & _ & _ & Hstored & Hne) Hm Hwf Hok Ht Hrows Hl.
  split; [done|]. split; [done|]. split; [done|]. split.
  - intros j ref Href. simpl. rewrite Hrows.
    apply (Hstored j ref). by apply Ht.
  - by apply Hl.
Qed.

Lemma same_length_nonempty {A B} (l : list A) (l' : list B) :
  length l' = length l → l ≠ [] → l' ≠ [].
Proof. destruct l, l'; simpl; congruence. Qed.

Lemma upsert_aquarium_tasks_rows db a :
  Database.tasks_rows (Database.upsert_aquarium db a).2
    = Database.tasks_rows db.
Proof. unfold Database.upsert_aquarium. by destruct (Aquarium.id a). Qed.

Lemma tick_loop_tasks_rows m l db fish :
  Database.tasks_rows (tick_loop m l db fish).1.2 = Database.tasks_rows db.
Proof.
  revert db fish. induction l as [|a l IH]; intros db fish; [done|].
  simpl. destruct (Aquarium.id a) as [k|] eqn:Hk.
  - match goal with |- context [tick_loop m l ?d ?f] =>
      specialize (IH d f);
      destruct (tick_loop m l d f) as [[l' d'] f']
    end.
    simpl in *. by rewrite IH, upsert_aquarium_tasks_rows.
  - specialize (IH db fish).
    by destruct (tick_loop m l db fish) as [[l' d'] f'].
Qed.

Lemma tick_frame now s :
  _tasks (tick now s) = _tasks s ∧
  length (_aquariums (tick now s)) = length (_aquariums s) ∧
  Database.tasks_rows (_database (tick now s))
    = Database.tasks_rows (_database s).
Proof.
  destruct (Z.le_gt_cases now (_last_tick s)) as [H|H].
  - by rewrite tick_skipped.
  - split; [by rewrite tick_unfold|].
    split; [by rewrite tick_aquariums, length_map|].
    rewrite tick_unfold by done. simpl. apply tick_loop_tasks_rows.
Qed.

Lemma tick_session now w :
  session_ok w → session_ok (World (objects w) (tick now (self w))).
Proof.
  intros Hs. pose proof Hs as (Hm & Hwf & Hok & _).
  destruct (tick_frame now (self w)) as (Ht & Hl & Hrows).
  apply session_frame; [done|by apply tick_mirror|by apply tick_wf
                        |by apply tick_ok| |done|].
  - intros j ref. unfold tasks_for. by rewrite Ht.
  - by apply same_length_nonempty.
Qed.

Lemma feed_fish_tasks_rows k s :
  Database.tasks_rows (_database (feed_fish k s))
    = Database.tasks_rows (_database s).
Proof. unfold feed_fish. by destruct (map feed_one _). Qed.

Lemma feed_fish_session k w :
  session_ok w → session_ok (World (objects w) (feed_fish k (self w))).
Proof.
  intros Hs. pose proof Hs as (Hm & Hwf & Hok & _).
  destruct (feed_fish_frame k (self w)) as (Ha & Ht & _).
  apply session_frame; [done|by apply feed_fish_mirror|by apply feed_fish_wf
                        |by apply feed_fish_ok| |apply feed_fish_tasks_rows|].
  - intros j ref. unfold tasks_for. by rewrite Ht.
  - by rewrite Ha.
Qed.

Lemma clean_aquarium_tasks_rows now k s :
  Database.tasks_rows (_database (clean_aquarium now k s))
    = Database.tasks_rows (_database s).
Proof.
  unfold clean_aquarium. by destruct (update_first _ _ _) as [[l y]|].
Qed.

Lemma clean_aquarium_session now k w :
  session_ok w →
  session_ok (World (objects w) (clean_aquarium now k (self w))).
Proof.
  intros Hs. pose proof Hs as (Hm & Hwf & Hok & _).
  destruct (clean_aquarium_frame now k (self w)) as (_ & Ht & _ & Hl).
  apply session_frame; [done|by apply clean_aquarium_mirror
                        |by apply clean_aquarium_wf
                        |by apply clean_aquarium_ok|
                        |apply clean_aquarium_tasks_rows|].
  - intros j ref. unfold tasks_for. by rewrite Ht.
  - by apply same_length_nonempty.
Qed.

Lemma adjust_temperature_frame k target s :
  _tasks (adjust_temperature k target s) = _tasks s ∧
  length (_aquariums (adjust_temperature k target s))
    = length (_aquariums s) ∧
  Database.tasks_rows (_database (adjust_temperature k target s))
    = Database.tasks_rows (_database s).
Proof.
  unfold adjust_temperature.
  destruct (update_first _ _ _) as [[l y]|] eqn:H; [|done]. simpl.
  split; [done|].
  split; [by destruct (update_first_elem _ _ _ _ _ H) as (_ & ? & _)|].
  apply upsert_aquarium_tasks_rows.
Qed.

Lemma adjust_temperature_session k target w :
  session_ok w →
  session_ok (World (objects w) (adjust_temperature k target (self w))).
Proof.
  intros Hs. pose proof Hs as (Hm & Hwf & Hok & _).
  destruct (adjust_temperature_frame k target (self w)) as (Ht & Hl & Hrows).
  destruct (other_commands_ok (self w) Hok) as (Hadj & _).
  apply session_frame; [done|by apply adjust_temperature_mirror
                        |by apply adjust_temperature_wf|by apply Hadj|
                        |done|].
  - intros j ref. unfold tasks_for. by rewrite Ht.
  - by apply same_length_nonempty.
Qed.

Lemma create_aquarium_session now name target w :
  session_ok w →
  session_ok
    (World (objects w) (state_of (create_aquarium now name target (self w)))).
Proof.
  intros Hs. pose proof Hs as (Hm & Hwf & Hok & _).
  apply session_frame; [done|by apply create_aquarium_mirror
                        |by apply create_aquarium_wf
                        |by apply create_aquarium_ok| |done|].
  - intros j ref. unfold create_aquarium, Database.upsert_aquarium, tasks_for.
    simpl.
    destruct (decide (j = Database.aquariums_seq (_database (self w)) + 1)%Z)
      as [->|Hj].
    + rewrite lookup_insert_eq. simpl. intros H. by apply elem_of_nil in H.
    + by rewrite lookup_insert_ne.
  - intros _. unfold create_aquarium, Database.upsert_aquarium. simpl.
    by destruct (_aquariums (self w)).
Qed.

Lemma create_fish_session now k name species w :
  session_ok w →
  session_ok
    (World (objects w)
       (state_of (create_fish now k name species (self w)))).
Proof.
  intros Hs. pose proof Hs as (Hm & Hwf & Hok & _).
  apply session_frame; [done|by apply create_fish_mirror
                        |by apply create_fish_wf
                        |by apply create_fish_ok| | |].
  - intros j ref. unfold create_fish.
    by destruct (Database.insert_fish _ _) as [e|[stored db]].
  - unfold create_fish, Database.insert_fish.
    by destruct (Database.aquarium_exists _ _).
  - unfold create_fish.
    by destruct (Database.insert_fish _ _) as [e|[stored db]].
Qed.

Lemma remove_fish_session fish_id k w :
  (∀ r, r ∈ Database.fish_rows (_database (self w)) →
        Fish.id r = Some fish_id → Fish.aquarium_id r = k) →
  session_ok w →
  session_ok (World (objects w) (remove_fish fish_id k (self w))).
Proof.
  intros Hhome Hs. pose proof Hs as (Hm & Hwf & Hok & _).
  destruct (other_commands_ok (self w) Hok) as (_ & _ & Hrem).
  apply session_frame; [done|by apply remove_fish_mirror
                        |by apply remove_fish_wf|by apply Hrem| | |]; done.
Qed.

(** A row keeps its id and its aquarium under the updates of the tasks
    table, which only ever change the interval and the time stamp. *)
Lemma task_row_kept (hit : Task.t → bool) (g : Task.t → Task.t) rows row :
  (∀ r, Task.id (g r) = Task.id r ∧
        Task.aquarium_id (g r) = Task.aquarium_id r) →
  row ∈ rows →
  ∃ row', row' ∈ map (fun r => if hit r then g r else r) rows ∧
          Task.id row' = Task.id row ∧
          Task.aquarium_id row' = Task.aquarium_id row.
Proof.
  intros Hg Hrow. exists (if hit row then g row else row).
  split; [apply list_elem_of_fmap; by exists row|].
  destruct (hit row); [apply Hg|done].
Qed.

Lemma add_task_session now k kind n w :
  session_ok w → session_ok (state_of (add_task now k kind n w)).
Proof.
  intros (Hm & Hwf & Hok & Hstored & Hne).
  split; [by apply add_task_mirror|]. split; [by apply add_task_wf|].
  split; [by apply add_task_ok|].
  split.
  - unfold add_task, Database.upsert_task. simpl.
    destruct (Database.aquarium_exists _ _); simpl; [|done].
    set (stored := Task.set_id _ _).
    intros j ref. unfold tasks_for. simpl.
    assert (∀ i r, r ∈ tasks_for (self w) i →
              ∃ task row,
                (objects w ++ [stored]) !! r = Some task ∧
                is_Some (Task.id task) ∧
                row ∈ Database.tasks_rows (_database (self w)) ++ [stored] ∧
                Task.id row = Task.id task ∧ Task.aquarium_id row = i)
      as Hold.
    { intros i r Hr.
      destruct (Hstored i r Hr) as (t & row & Ht & Hs & Hrow & Hid & Haq).
      exists t, row. split; [by apply lookup_app_l_Some|].
      split; [done|]. split; [apply elem_of_app; by left|done]. }
    destruct (decide (j = k)) as [->|Hj].
    + rewrite lookup_insert_eq. simpl. intros Href.
      apply elem_of_app in Href as [Href|Href]; [by apply Hold|].
      apply list_elem_of_singleton in Href as ->. exists stored, stored.
      split; [by rewrite lookup_app_r, Nat.sub_diag|].
      split; [by eexists|].
      split; [apply elem_of_app; right; apply list_elem_of_here|done].
    + rewrite lookup_insert_ne by done. by apply Hold.
  - destruct (add_task_cache now k kind n w) as (Ha & _).
    unfold aquariums in *. by rewrite Ha.
Qed.

Lemma mark_task_done_session now ref w :
  session_ok w → session_ok (state_of (mark_task_done now ref w)).
Proof.
  intros (Hm & Hwf & Hok & Hstored & Hne).
  split; [by apply mark_task_done_mirror|].
  split; [by apply mark_task_done_wf|].
  split; [by apply mark_task_done_ok|].
  destruct (mark_task_done_cache now ref w) as (Ha & _ & Ht & _).
  split; [|unfold aquariums in *; by rewrite Ha].
  intros j r Hr. unfold tasks_for in Hr. rewrite Ht in Hr.
  destruct (Hstored j r Hr) as (t & row & Hobj & Hs & Hrow & Hid & Haq).
  clear Ha Ht. unfold mark_task_done.
  destruct (objects w !! ref) as [obj|] eqn:Href; [|by exists t, row].
  assert (∀ r0, Task.id (Task.set_last_run_at now r0) = Task.id r0 ∧
                Task.aquarium_id (Task.set_last_run_at now r0)
                  = Task.aquarium_id r0) as Hkeep by done.
  destruct (Task.id obj) as [i|] eqn:Hobjid.
  - simpl. rewrite Hobjid. simpl.
    destruct (task_row_kept (fun r0 => id_is (Task.id r0) i)
                (Task.set_last_run_at now) _ row Hkeep Hrow)
      as (row' & Hrow' & Hid' & Haq').
    destruct (decide (r = ref)) as [->|Hne'].
    + exists (Task.set_last_run_at now obj), row'.
      split; [apply list_lookup_insert_eq; by apply lookup_lt_Some in Href|].
      rewrite Href in Hobj. injection Hobj as <-.
      split; [simpl; by rewrite Hobjid|].
      split; [done|]. split; [by rewrite Hid'|congruence].
    + exists t, row'. split; [by rewrite list_lookup_insert_ne|].
      split; [done|]. split; [done|]. split; congruence.
  - assert (r ≠ ref) as Hne'.
    { intros ->. rewrite Href in Hobj. injection Hobj as <-.
      rewrite Hobjid in Hs. by destruct Hs. }
    unfold Database.upsert_task. rewrite Hobjid.
    destruct (Database.aquarium_exists _ _); simpl; [|by exists t, row].
    set (stored := Task.set_id _ obj).
    destruct (task_row_kept
                (fun r0 => id_is (Task.id r0)
                             (Database.tasks_seq (_database (self w)) + 1))
                (Task.set_last_run_at now)
                (Database.tasks_rows (_database (self w)) ++ [stored])
                row Hkeep) as (row' & Hrow' & Hid' & Haq').
    { apply elem_of_app. by left. }
    exists t, row'. split; [by rewrite list_lookup_insert_ne|].
    split; [done|]. split; [done|]. split; congruence.
Qed.

Lemma reload_stored now w :
  store_wf (_database (self w)) → tasks_stored (reload now w).
Proof.
  intros Hwf k ref Href.
  destruct (reload_spec now w) as (_ & Hin & Hout & _ & Hdb & _).
  destruct (decide (Some k ∈ map Aquarium.id
                      (Database.aquariums (_database (self w))))) as [Hk|Hk].
  - destruct (Hin k Hk) as (_ & Hres & _).
    destruct (resolved_ref _ _ _ _ Hres Href) as (row & Hrow & Hobj).
    exists row, row. split; [done|].
    rewrite tasks_for_aquarium_rows in Hrow by done.
    apply list_elem_of_filter in Hrow as [Haq Hrow].
    destruct Hwf as (_ & _ & [Hall _] & _).
    rewrite Forall_forall in Hall.
    destruct (Hall row Hrow) as (i & Hi & _).
    split; [rewrite Hi; by eexists|]. rewrite Hdb. done.
  - destruct (Hout k Hk) as [_ Hnil]. rewrite Hnil in Href.
    by apply elem_of_nil in Href.
Qed.

Lemma at_most_one_row {A} (id : A → option Z) k (rows : list A) :
  StronglySorted (id_lt id) rows →
  length rows ≤ S (length (filter (fun r => id_is (id r) k = false) rows)).
Proof.
  induction 1 as [|x l Hl IH Hx]; simpl; [lia|].
  destruct (id_is (id x) k) eqn:Hp.
  - rewrite filter_cons_False by (by rewrite Hp).
    rewrite filter_keeps_all; [lia|].
    intros r Hr. rewrite Forall_forall in Hx. specialize (Hx r Hr).
    unfold id_lt in Hx. apply id_is_true in Hp. rewrite Hp in Hx.
    apply id_is_false. intros Heq. rewrite Heq in Hx. simpl in Hx. lia.
  - rewrite filter_cons_True by done. simpl. lia.
Qed.

Lemma delete_aquarium_session now k w :
  (2 ≤ length (aquariums (self w)))%nat →
  session_ok w → session_ok (delete_aquarium now k w).
Proof.
  intros Hlen (Hm & Hwf & Hok & Hstored & Hne).
  pose proof Hm as [Hs _]. pose proof Hok as (_ & _ & Hsok).
  pose proof (delete_aquarium_store_wf _ k Hs) as Hs'.
  split; [by apply delete_aquarium_mirror|].
  split; [by apply delete_aquarium_wf|].
  split; [by apply delete_aquarium_ok|].
  split; [unfold delete_aquarium; by apply reload_stored|].
  unfold delete_aquarium, aquariums.
  match goal with
  | |- context [reload now ?w0] =>
      destruct (reload_spec now w0) as (Haq & _)
  end.
  simpl in Haq. rewrite Haq, aquariums_rows_sorted by done. simpl.
  destruct (mirror_rows _ Hm) as [Hrows _]. unfold aquariums in Hlen.
  rewrite Hrows in Hlen.
  pose proof (at_most_one_row Aquarium.id k
                (Database.aquariums_rows (_database (self w)))
                (proj2 (proj1 Hs))) as Hone.
  intros Hnil. rewrite Hnil in Hone. simpl in Hone. lia.
Qed.

(** ** Startup *)

Lemma startup_spec now now0 now1 db objs :
  store_wf db → store_ok db →
  let w := __init__ now0 now1 (state_of (ensure_defaults now db)) objs in
  session_ok w ∧
  _last_tick (self w) = now1 ∧
  objs `prefix_of` objects w ∧
  (Database.aquariums_rows db = [] →
   ∃ a k,
     aquariums (self w) = [a] ∧ Aquarium.id a = Some k ∧
     length (fish_for (self w) k) = 3%nat ∧
     length (tasks_for (self w) k) = 3%nat ∧
     ∀ later ref, (now ≤ later)%Z → ref ∈ tasks_for (self w) k →
                  (ref, a) ∈ due_tasks later w).
Proof.
  intros Hwf Hok w.
  destruct (ensure_defaults_spec now db)
    as (db' & Hrun & Hne & _ & _ & Hwf' & Hok' & Hnew).
  specialize (Hwf' Hwf). specialize (Hok' Hok). specialize (Hnew Hwf).
  subst w. rewrite Hrun. simpl. unfold __init__.
  set (w0 := World objs (mk db' [] ∅ ∅ now0)).
  destruct (reload_spec now1 w0) as (Haq & Hin & _ & Htick & Hdb & Hpre).
  simpl in Haq, Hin, Htick, Hdb, Hpre.
  split.
  { split; [by apply reload_mirror|].
    split; [apply reload_wf; apply table_wf_primary_key; apply Hwf'|].
    split; [by apply reload_ok|].
    split; [by apply reload_stored|].
    unfold aquariums. rewrite Haq, aquariums_rows_sorted by done. done. }
  split; [done|]. split; [done|].
  intros Hrows. destruct (Hnew Hrows) as (Ha & Hfish & Htasks & Hdue).
  eexists _, _. unfold aquariums. rewrite Haq.
  split; [exact Ha|]. split; [reflexivity|].
  destruct (Hin (Database.aquariums_seq db + 1)%Z) as (Hf & Ht & _).
  { rewrite Ha. simpl. apply list_elem_of_here. }
  split; [|split].
  - rewrite Hf. apply (f_equal length) in Hfish.
    by rewrite length_map in Hfish.
  - apply (f_equal length) in Ht, Htasks.
    rewrite !length_fmap in Ht. rewrite length_map in Htasks.
    by rewrite Ht.
  - intros later ref Hlater Href.
    destruct (resolved_ref _ _ _ _ Ht Href) as (row & Hrow & Hobj).
    apply elem_of_due_tasks. eexists. rewrite Haq, Ha.
    split; [apply list_elem_of_here|]. split; [reflexivity|].
    split; [exact Href|]. exists row. split; [exact Hobj|].
    rewrite Forall_forall in Hdue. by apply Hdue.
Qed.

(** X18. Startup as [main.py] does it, [ensure_defaults] and then
    [SimulationEngine(database)], on a store with sound keys and values
    within bounds: the session invariant holds (the engine's cache
    mirrors the store, the engine is well formed and within bounds,
    every reference in an aquarium's cached task list denotes an object
    that has an id and a row in the tasks table with that id belonging
    to that aquarium, and there is at least one aquarium), and
    [_last_tick] is the clock reading of [reload].  On a store without
    aquariums the engine starts with one aquarium, three fish and three
    tasks, and [due_tasks] reports every one of these tasks from the
    time of seeding on. *)
Theorem startup_invariants now now0 now1 db objs :
  store_wf db → store_ok db →
  let w := __init__ now0 now1 (state_of (ensure_defaults now db)) objs in
  session_ok w ∧
  _last_tick (self w) = now1 ∧
  objs `prefix_of` objects w ∧
  (Database.aquariums_rows db = [] →
   ∃ a k,
     aquariums (self w) = [a] ∧ Aquarium.id a = Some k ∧
     length (fish_for (self w) k) = 3%nat ∧
     length (tasks_for (self w) k) = 3%nat ∧
     ∀ later ref, (now ≤ later)%Z → ref ∈ tasks_for (self w) k →
                  (ref, a) ∈ due_tasks later w).
Proof. apply startup_spec. Qed.
Lemma find_task_session now k kind w :
  session_ok w → session_ok (state_of (AquariumWindow._find_task now k kind w)).
Proof.
  intros Hs. unfold AquariumWindow._find_task.
  destruct (find _ _); [done|]. by apply add_task_session.
Qed.

Lemma record_done_session now1 now2 k kind w1 :
  session_ok w1 →
  session_ok
    (state_of
       match AquariumWindow._find_task now1 k kind w1 with
       | Raises e w2 => Raises e w2
       | Returns task w2 => mark_task_done now2 task w2
       end).
Proof.
  intros H1. pose proof (find_task_session now1 k kind w1 H1) as H2.
  destruct (AquariumWindow._find_task now1 k kind w1) as [ref w2|e w2];
    simpl in H2; [|done].
  by apply mark_task_done_session.
Qed.

Lemma cached_fish_home s k fish fish_id :
  engine_mirror s → fish ∈ fish_for s k → Fish.id fish = Some fish_id →
  ∀ r, r ∈ Database.fish_rows (_database s) →
       Fish.id r = Some fish_id → Fish.aquarium_id r = k.
Proof.
  intros Hm Hin Hid r Hr Hrid.
  destruct (mirror_rows s Hm) as [_ Hf]. rewrite Hf in Hin.
  apply list_elem_of_filter in Hin as [Hk Hin].
  destruct Hm as [(_ & [_ Hsorted] & _) _].
  assert (r = fish) as ->
    by (apply (table_same_id Fish.id _ _ _ Hsorted Hr Hin); congruence).
  done.
Qed.

Lemma handlers_session w :
  session_ok w →
  (∀ now, session_ok (AquariumWindow._handle_simulation_tick now w)) ∧
  (∀ sel now1 now2,
     session_ok (state_of (AquariumWindow._handle_feed sel now1 now2 w))) ∧
  (∀ sel now0 now1 now2,
     session_ok
       (state_of (AquariumWindow._handle_clean sel now0 now1 now2 w))) ∧
  (∀ sel target, session_ok (AquariumWindow._handle_temperature sel target w)) ∧
  (∀ now0 now1 now2 now3 name target,
     session_ok
       (state_of (AquariumWindow._handle_add_aquarium
                    now0 now1 now2 now3 name target w))) ∧
  (∀ sel now name species,
     session_ok
       (state_of (AquariumWindow._handle_add_fish sel now name species w))) ∧
  (∀ sel row confirmed,
     session_ok (AquariumWindow._handle_remove_fish sel row confirmed w)) ∧
  (∀ sel now kind interval,
     session_ok
       (state_of (AquariumWindow._handle_add_task sel now kind interval w))) ∧
  (∀ sel row now,
     session_ok
       (state_of (AquariumWindow._handle_complete_task sel row now w))) ∧
  (∀ sel confirmed now,
     session_ok (AquariumWindow._handle_remove_aquarium sel confirmed now w)).
Proof.
  intros Hs.
  split; [intros; by apply tick_session|].
  split.
  { intros sel now1 now2. unfold AquariumWindow._handle_feed.
    destruct (AquariumWindow.selected_id sel w) as [k|]; [|done].
    apply record_done_session. by apply feed_fish_session. }
  split.
  { intros sel now0 now1 now2. unfold AquariumWindow._handle_clean.
    destruct (AquariumWindow.selected_id sel w) as [k|]; [|done].
    apply record_done_session. by apply clean_aquarium_session. }
  split.
  { intros sel target. unfold AquariumWindow._handle_temperature.
    destruct (AquariumWindow.selected_id sel w) as [k|]; [|done].
    by apply adjust_temperature_session. }
  split.
  { intros now0 now1 now2 now3 name target.
    destruct (handle_add_aquarium_spec now0 now1 now2 now3 name target w)
      as (w' & t1 & t2 & t3 & Hrun & -> & _).
    rewrite Hrun. cbn [state_of].
    do 3 apply add_task_session. by apply create_aquarium_session. }
  split.
  { intros sel now name species. unfold AquariumWindow._handle_add_fish.
    destruct (AquariumWindow.selected_id sel w) as [k|]; [|done].
    pose proof (create_fish_session now k name species w Hs) as H.
    by destruct (create_fish now k name species (self w)). }
  split.
  { intros sel row confirmed. unfold AquariumWindow._handle_remove_fish.
    destruct (AquariumWindow.selected_id sel w) as [k|]; [|done].
    destruct (row <? 0)%Z; [done|].
    destruct (fish_for (self w) k !! Z.to_nat row) as [fish|] eqn:Hrow;
      [|done].
    destruct confirmed; [|done].
    destruct (Fish.id fish) as [fish_id|] eqn:Hid; [|done].
    apply remove_fish_session; [|done].
    apply (cached_fish_home _ _ fish); [apply Hs| |done].
    by apply list_elem_of_lookup_2 in Hrow. }
  split.
  { intros sel now kind interval. unfold AquariumWindow._handle_add_task.
    destruct (AquariumWindow.selected_id sel w) as [k|]; [|done].
    pose proof (add_task_session now k kind interval w Hs) as H.
    by destruct (add_task now k kind interval w). }
  split.
  { intros sel row now. unfold AquariumWindow._handle_complete_task.
    destruct (AquariumWindow.selected_id sel w) as [k|]; [|done].
    destruct (row <? 0)%Z; [done|].
    destruct (tasks_for (self w) k !! Z.to_nat row) as [task|]; [|done].
    by apply mark_task_done_session. }
  intros sel confirmed now. unfold AquariumWindow._handle_remove_aquarium.
  destruct (AquariumWindow.selected_id sel w) as [k|]; [|done].
  destruct (Nat.leb_spec (length (aquariums (self w))) 1); [done|].
  destruct confirmed; [|done].
  apply delete_aquarium_session; [lia|done].
Qed.

(** X22. What holds between any two events of the window keeps holding
    whatever the user does: if the cache mirrors the store, the engine
    is well formed and within bounds, every reference in an aquarium's
    cached task list denotes an object that has an id and a row in the
    tasks table with that id belonging to that aquarium, and there is
    at least one aquarium, then the same is true after each handler (the timer tick, feed,
    clean, temperature, add aquarium, add fish, remove fish, add task,
    complete task and remove aquarium), whether it returns or raises. *)
Theorem window_session_invariant w :
  session_ok w →
  (∀ now, session_ok (AquariumWindow._handle_simulation_tick now w)) ∧
  (∀ sel now1 now2,
     session_ok (state_of (AquariumWindow._handle_feed sel now1 now2 w))) ∧
  (∀ sel now0 now1 now2,
     session_ok
       (state_of (AquariumWindow._handle_clean sel now0 now1 now2 w))) ∧
  (∀ sel target, session_ok (AquariumWindow._handle_temperature sel target w)) ∧
  (∀ now0 now1 now2 now3 name target,
     session_ok
       (state_of (AquariumWindow._handle_add_aquarium
                    now0 now1 now2 now3 name target w))) ∧
  (∀ sel now name species,
     session_ok
       (state_of (AquariumWindow._handle_add_fish sel now name species w))) ∧
  (∀ sel row confirmed,
     session_ok (AquariumWindow._handle_remove_fish sel row confirmed w)) ∧
  (∀ sel now kind interval,
     session_ok
       (state_of (AquariumWindow._handle_add_task sel now kind interval w))) ∧
  (∀ sel row now,
     session_ok
       (state_of (AquariumWindow._handle_complete_task sel row now w))) ∧
  (∀ sel confirmed now,
     session_ok (AquariumWindow._handle_remove_aquarium sel confirmed now w)).
Proof. apply handlers_session. Qed.
Lemma exactly_one_row {A} (id : A → option Z) k (rows : list A) x :
  StronglySorted (id_lt id) rows → x ∈ rows → id x = Some k →
  length rows = S (length (filter (fun r => id_is (id r) k = false) rows)).
Proof.
  intros Hsorted. revert x.
  induction Hsorted as [|y l Hl IH Hy]; intros x Hx Hid.
  { by apply elem_of_nil in Hx. }
  destruct (id_is (id y) k) eqn:Hp.
  - rewrite filter_cons_False by (by rewrite Hp).
    rewrite filter_keeps_all; [done|].
    intros r Hr. rewrite Forall_forall in Hy. specialize (Hy r Hr).
    unfold id_lt in Hy. apply id_is_true in Hp. rewrite Hp in Hy.
    apply id_is_false. intros Heq. rewrite Heq in Hy. simpl in Hy. lia.
  - rewrite filter_cons_True by done. simpl. f_equal.
    apply elem_of_cons in Hx as [->|Hx].
    + apply id_is_false in Hp. done.
    + by apply (IH x).
Qed.

(** X23. [_handle_remove_aquarium] never removes the last aquarium: with
    one aquarium or none, without a selection, or when the question is
    answered with no, it changes nothing.  Otherwise, on a cache that
    mirrors the store, it removes exactly the selected aquarium from
    the engine's list, keeps the others, and leaves no fish and no
    tasks under its id. *)
Theorem handle_remove_aquarium_effect sel confirmed now w :
  engine_mirror (self w) →
  let w' := AquariumWindow._handle_remove_aquarium sel confirmed now w in
  (aquariums (self w) ≠ [] → aquariums (self w') ≠ []) ∧
  ((length (aquariums (self w)) ≤ 1)%nat ∨ confirmed = false
   ∨ AquariumWindow.selected_id sel w = None → w' = w) ∧
  (∀ k, AquariumWindow.selected_id sel w = Some k →
        (2 ≤ length (aquariums (self w)))%nat → confirmed = true →
        S (length (aquariums (self w'))) = length (aquariums (self w)) ∧
        (∀ a, a ∈ aquariums (self w')
              ↔ a ∈ aquariums (self w) ∧ Aquarium.id a ≠ Some k) ∧
        fish_for (self w') k = [] ∧ tasks_for (self w') k = []).
Proof.
  intros Hm w'. subst w'. unfold AquariumWindow._handle_remove_aquarium.
  assert (∀ k, AquariumWindow.selected_id sel w = Some k →
            (2 ≤ length (aquariums (self w)))%nat →
            S (length (aquariums (self (delete_aquarium now k w))))
              = length (aquariums (self w)) ∧
            (∀ a, a ∈ aquariums (self (delete_aquarium now k w))
                  ↔ a ∈ aquariums (self w) ∧ Aquarium.id a ≠ Some k) ∧
            fish_for (self (delete_aquarium now k w)) k = [] ∧
            tasks_for (self (delete_aquarium now k w)) k = []) as Hdel.
  { intros k Hsel Hlen.
    destruct (selected_cached _ _ _ Hsel) as (x & _ & Hx & Hxid).
    pose proof Hm as [Hs _].
    pose proof (delete_aquarium_store_wf _ k Hs) as Hs'.
    destruct (mirror_rows _ Hm) as [Hrows _].
    unfold delete_aquarium, aquariums in *.
    match goal with
    | |- context [reload now ?w0] =>
        destruct (reload_spec now w0) as (Haq & _ & Hout & _)
    end.
    simpl in Haq, Hout.
    rewrite Haq, aquariums_rows_sorted by done. simpl.
    rewrite Hrows in *.
    split.
    { symmetry.
      apply (exactly_one_row Aquarium.id k _ x); [apply Hs|done|done]. }
    split.
    { intros a. rewrite list_elem_of_filter. rewrite id_is_false. tauto. }
    apply Hout. rewrite aquariums_rows_sorted by done. simpl.
    intros Hin. apply list_elem_of_fmap in Hin as (a & Ha & Hin).
    apply list_elem_of_filter in Hin as [Hne _].
    apply id_is_false in Hne. congruence. }
  destruct (AquariumWindow.selected_id sel w) as [k|] eqn:Hsel.
  - destruct (Nat.leb_spec (length (aquariums (self w))) 1) as [Hle|Hgt].
    + split; [done|]. split; [done|]. intros j _ Hlen. lia.
    + destruct confirmed.
      * destruct (Hdel k eq_refl ltac:(lia)) as (Hlen & Hrest).
        split.
        { intros _ Hnil. rewrite Hnil in Hlen. simpl in Hlen. lia. }
        split; [intros [H|[H|H]]; [lia|done|done]|].
        intros j [= <-] _ _. by split.
      * split; [done|]. split; [done|]. intros j _ _ H. discriminate H.
  - split; [done|]. split; [done|]. intros j H. discriminate H.
Qed.
(** ** The next-task metric *)

Lemma minutes_floor (d : Z) :
  Int_part (total_seconds d / 60) = (d / 60000000)%Z.
Proof.
  symmetry. apply Int_part_spec. unfold total_seconds.
  pose proof (Z.div_mod d 60000000 ltac:(lia)) as Hdm.
  pose proof (Z.mod_pos_bound d 60000000 ltac:(lia)) as [Hlo Hhi].
  set (q := (d / 60000000)%Z) in *. set (r := (d mod 60000000)%Z) in *.
  rewrite Hdm, plus_IZR, mult_IZR.
  apply IZR_le in Hlo. apply IZR_lt in Hhi.
  split; lra.
Qed.

Lemma soonest_due_snoc tasks task :
  AquariumWindow.soonest_due (tasks ++ [task]) =
  let due :=
    (Task.last_run_at task + timedelta_minutes (Task.interval_minutes task))%Z
  in
  match AquariumWindow.soonest_due tasks with
  | None => Some (task, due)
  | Some (t, best) =>
      if (due <? best)%Z then Some (task, due) else Some (t, best)
  end.
Proof.
  unfold AquariumWindow.soonest_due. rewrite foldl_app. simpl.
  by destruct (foldl _ None tasks) as [[t best]|].
Qed.

Lemma soonest_due_spec tasks :
  match AquariumWindow.soonest_due tasks with
  | None => tasks = []
  | Some (t, due) =>
      t ∈ tasks ∧
      due = (Task.last_run_at t
             + timedelta_minutes (Task.interval_minutes t))%Z ∧
      ∀ t', t' ∈ tasks →
        (due ≤ Task.last_run_at t'
               + timedelta_minutes (Task.interval_minutes t'))%Z
  end.
Proof.
  induction tasks as [|task tasks IH] using rev_ind; [done|].
  rewrite soonest_due_snoc. cbv zeta.
  destruct (AquariumWindow.soonest_due tasks) as [[t best]|].
  - destruct IH as (Hin & -> & Hmin).
    destruct (Z.ltb_spec
                (Task.last_run_at task
                 + timedelta_minutes (Task.interval_minutes task))
                (Task.last_run_at t
                 + timedelta_minutes (Task.interval_minutes t))) as [Hlt|Hge].
    + split; [apply elem_of_app; right; apply list_elem_of_here|].
      split; [done|]. intros t' Ht'.
      apply elem_of_app in Ht' as [Ht'|Ht'].
      * specialize (Hmin t' Ht'). lia.
      * apply list_elem_of_singleton in Ht' as ->. lia.
    + split; [apply elem_of_app; by left|]. split; [done|].
      intros t' Ht'. apply elem_of_app in Ht' as [Ht'|Ht'].
      * by apply Hmin.
      * apply list_elem_of_singleton in Ht' as ->. lia.
  - subst tasks. simpl.
    split; [apply list_elem_of_here|]. split; [done|].
    intros t' Ht'. apply list_elem_of_singleton in Ht' as ->. lia.
Qed.

(** X24. The next-task metric of [_update_metrics]: it reads "--"
    exactly when the aquarium has no task and "Agora" exactly when one
    of its tasks is due by the rule [due_tasks] uses.  Otherwise it
    shows the whole minutes left until the earliest due time, as hours
    and minutes with the minutes below 60 when that is an hour or more,
    and as minutes alone otherwise. *)
Theorem next_task_label_meaning now tasks :
  (AquariumWindow.next_task_label now tasks = AquariumWindow.Dashes
   ↔ tasks = []) ∧
  (AquariumWindow.next_task_label now tasks = AquariumWindow.Agora
   ↔ ∃ t, t ∈ tasks ∧ task_due now t = true) ∧
  (∀ hours minutes,
     AquariumWindow.next_task_label now tasks
       = AquariumWindow.HoursMinutes hours minutes →
     (0 < hours)%Z ∧ (0 ≤ minutes < 60)%Z ∧
     ∃ t, t ∈ tasks ∧
       (∀ t', t' ∈ tasks →
          (Task.last_run_at t + timedelta_minutes (Task.interval_minutes t)
           ≤ Task.last_run_at t'
             + timedelta_minutes (Task.interval_minutes t'))%Z) ∧
       (60 * hours + minutes
        = (Task.last_run_at t + timedelta_minutes (Task.interval_minutes t)
           - now) / 60000000)%Z) ∧
  (∀ minutes,
     AquariumWindow.next_task_label now tasks = AquariumWindow.Minutes minutes →
     (0 ≤ minutes < 60)%Z ∧
     ∃ t, t ∈ tasks ∧
       (∀ t', t' ∈ tasks →
          (Task.last_run_at t + timedelta_minutes (Task.interval_minutes t)
           ≤ Task.last_run_at t'
             + timedelta_minutes (Task.interval_minutes t'))%Z) ∧
       (minutes
        = (Task.last_run_at t + timedelta_minutes (Task.interval_minutes t)
           - now) / 60000000)%Z).
Proof.
  unfold AquariumWindow.next_task_label.
  pose proof (soonest_due_spec tasks) as Hs.
  destruct (AquariumWindow.soonest_due tasks) as [[t due]|].
  - destruct Hs as (Hin & -> & Hmin).
    set (due := (Task.last_run_at t
                 + timedelta_minutes (Task.interval_minutes t))%Z) in *.
    rewrite minutes_floor.
    set (q := ((due - now) / 60000000)%Z).
    pose proof (Z.div_mod q 60 ltac:(lia)) as Hdm.
    pose proof (Z.mod_pos_bound q 60 ltac:(lia)) as Hmod.
    destruct (Z.leb_spec due now) as [Hle|Hgt].
    + split; [split; [done|intros ->; by apply elem_of_nil in Hin]|].
      split; [|split; [intros h m [=]|intros m [=]]].
      split; [intros _|done]. exists t. split; [done|].
      apply task_due_iff. by fold due.
    + assert (0 ≤ q)%Z as Hpos by (apply Z.div_pos; lia).
      split.
      { split; [by destruct (_ >? 0)%Z|].
        intros ->. by apply elem_of_nil in Hin. }
      split.
      { split; [by destruct (_ >? 0)%Z|].
        intros (t' & Ht' & Hdue). apply task_due_iff in Hdue.
        specialize (Hmin t' Ht'). lia. }
      destruct (Z.gtb_spec (q / 60) 0) as [Hh|Hh].
      * split; [|intros m [=]].
        intros h m [= <- <-]. split; [lia|]. split; [lia|].
        exists t. split; [done|]. split; [done|]. fold due q. lia.
      * split; [intros h m [=]|].
        intros m [= <-]. split; [lia|].
        exists t. split; [done|]. split; [done|].
        assert (q / 60 = 0)%Z as Hz.
        { apply Z.le_antisymm; [lia|]. apply Z.div_pos; lia. }
        fold due q. lia.
  - subst tasks.
    split; [done|]. split; [|split; [intros h m [=]|intros m [=]]].
    split; [done|]. intros (t & Ht & _). by apply elem_of_nil in Ht.
Qed.
(** ** Marking a task that has no row yet *)

(** X25. [mark_task_done] on a task object that has no id yet, over a
    well-formed store: if the task's aquarium has no row the call raises
    IntegrityError and changes nothing.  Otherwise it inserts the task's
    row, gives the object the new id and stamps both the object and the
    row with the time of the call; the engine's task lists are not
    changed, so a task the engine did not list before is not listed
    afterwards either. *)
Theorem mark_task_done_unsaved now ref w task :
  store_wf (_database (self w)) →
  objects w !! ref = Some task →
  Task.id task = None →
  let db := _database (self w) in
  let done :=
    Task.set_last_run_at now
      (Task.set_id (Some (Database.tasks_seq db + 1)%Z) task) in
  (Database.aquarium_exists db (Task.aquarium_id task) = false →
   mark_task_done now ref w = Raises IntegrityError w) ∧
  (Database.aquarium_exists db (Task.aquarium_id task) = true →
   ∃ w',
     mark_task_done now ref w = Returns () w' ∧
     objects w' = <[ref := done]> (objects w) ∧
     Database.tasks_rows (_database (self w'))
       = Database.tasks_rows db ++ [done] ∧
     Database.tasks_seq (_database (self w'))
       = (Database.tasks_seq db + 1)%Z ∧
     _tasks (self w') = _tasks (self w) ∧
     _aquariums (self w') = _aquariums (self w) ∧
     _fish (self w') = _fish (self w)).
Proof.
  intros Hwf Hobj Hid db done. subst db done.
  unfold mark_task_done, Database.upsert_task. rewrite Hobj, Hid.
  split; intros Hex; rewrite Hex; [done|].
  simpl. eexists. split; [reflexivity|]. simpl.
  split; [done|]. split; [|done].
  rewrite map_app. simpl.
  rewrite bool_decide_eq_true_2 by done.
  rewrite untouched_rows; [done|].
  intros r Hr. apply id_is_false. intros Hrid.
  destruct Hwf as (_ & _ & [Hall _] & _). rewrite Forall_forall in Hall.
  destruct (Hall r Hr) as (i & Hi & Hle). rewrite Hi in Hrid.
  injection Hrid as ->. lia.
Qed.

(** * The further properties on the sample engine *)

Lemma sample_store_wf : store_wf sample_database.
Proof.
  unfold store_wf, table_wf. simpl.
  repeat split;
    try (apply Forall_singleton; first [reflexivity | eexists; split; [reflexivity|lia]]);
    repeat constructor.
Qed.

Lemma sample_engine_wf : engine_wf sample_engine.
Proof.
  split; [|split].
  - split.
    + apply Forall_singleton. eexists. split; [reflexivity|simpl; lia].
    + apply NoDup_singleton.
  - reflexivity.
  - intros k [refs Hk]. simpl in Hk.
    apply lookup_singleton_Some in Hk as [<- _]. apply list_elem_of_here.
Qed.

Lemma sample_engine_mirror : engine_mirror sample_engine.
Proof.
  split; [exact sample_store_wf|]. split; [reflexivity|].
  intros k. rewrite fish_for_aquarium_rows by exact sample_store_wf.
  unfold fish_for. simpl.
  destruct (decide (k = 1%Z)) as [->|Hk].
  - by rewrite lookup_singleton_eq.
  - rewrite lookup_singleton_ne by done. simpl.
    rewrite filter_cons_False by (simpl; congruence). done.
Qed.

Lemma sample_tasks_stored : tasks_stored sample_world.
Proof.
  intros k ref Href. unfold tasks_for in Href. simpl in Href.
  destruct (decide (k = 1%Z)) as [->|Hk].
  - rewrite lookup_singleton_eq in Href. simpl in Href.
    apply list_elem_of_singleton in Href as ->.
    exists sample_task, sample_task. split; [reflexivity|].
    split; [by eexists|]. split; [apply list_elem_of_here|done].
  - rewrite lookup_singleton_ne in Href by done. simpl in Href.
    by apply elem_of_nil in Href.
Qed.

Lemma sample_tasks_live : tasks_live sample_world.
Proof. apply tasks_stored_live, sample_tasks_stored. Qed.

Lemma sample_session : session_ok sample_world.
Proof.
  split; [exact sample_engine_mirror|]. split; [exact sample_engine_wf|].
  split; [exact sample_engine_ok|]. split; [exact sample_tasks_stored|done].
Qed.

Lemma store_operations_keep_keys_witness :
  store_wf (Database.delete_fish sample_database 1) ∧
  store_wf (Database.delete_aquarium sample_database 1) ∧
  store_wf (Database.set_aquarium_cleaned sample_database 1 5).
Proof.
  destruct (store_operations_keep_keys sample_database sample_store_wf)
    as (_ & _ & _ & Hfish & Haq & _ & _ & _ & Hclean).
  split; [apply Hfish|]. split; [apply Haq|apply Hclean].
Defined.

Lemma insert_then_list_witness :
  Database.aquariums
    (Database.upsert_aquarium sample_database
       (Aquarium.mk None "Berçário" 24 24 90 5)).2
  = Database.aquariums sample_database
    ++ [Aquarium.mk (Some 2%Z) "Berçário" 24 24 90 5].
Proof.
  destruct (insert_then_list sample_database sample_store_wf) as (Haq & _).
  destruct (Haq (Aquarium.mk None "Berçário" 24 24 90 5) eq_refl)
    as [Hstored Hlist].
  rewrite Hlist, Hstored. reflexivity.
Defined.

Lemma write_to_missing_row_witness :
  Database.delete_fish sample_database 7 = Database.commit sample_database ∧
  Database.set_aquarium_cleaned sample_database 7 5
    = Database.commit sample_database.
Proof.
  destruct (write_to_missing_row sample_database) as (Haq & _ & Hfish & _).
  split.
  - apply Hfish. simpl. intros H.
    apply list_elem_of_singleton in H. discriminate H.
  - apply (Haq 7%Z). simpl. intros H.
    apply list_elem_of_singleton in H. discriminate H.
Defined.

Lemma clean_aquarium_effect_witness :
  _aquariums (clean_aquarium 5 1 sample_engine)
    = [Aquarium.mk (Some 1%Z) "Aquário Principal" 25 25 100 5] ∧
  Database.aquariums_rows (_database (clean_aquarium 5 1 sample_engine))
    = [Aquarium.mk (Some 1%Z) "Aquário Principal" 25 25 100 5].
Proof.
  destruct (clean_aquarium_effect 5 1 sample_engine [] sample_aquarium []
              eq_refl) as (Hcache & Hrows & _).
  - intros b Hb. inversion Hb.
  - reflexivity.
  - split; [exact Hcache|exact Hrows].
Defined.

Lemma adjust_temperature_effect_witness :
  _aquariums (adjust_temperature 1 27 sample_engine)
    = [Aquarium.mk (Some 1%Z) "Aquário Principal" 27 25 85 0] ∧
  adjust_temperature 7 27 sample_engine = sample_engine.
Proof.
  destruct (adjust_temperature_effect 1 27 sample_engine) as [Hknown _].
  destruct (adjust_temperature_effect 7 27 sample_engine) as [_ Hunknown].
  destruct (Hknown [] sample_aquarium [] eq_refl) as (Hcache & _).
  - intros b Hb. inversion Hb.
  - reflexivity.
  - split; [exact Hcache|]. apply Hunknown.
    intros a Ha. apply list_elem_of_singleton in Ha as ->. discriminate.
Defined.

Lemma tick_wears_down_witness :
  ∃ a' fish',
    _aquariums (tick 10 sample_engine) !! 0%nat = Some a' ∧
    fish_for (tick 10 sample_engine) 1 !! 0%nat = Some fish' ∧
    (Aquarium.cleanliness a' <= 85)%R ∧
    (60 <= Fish.hunger fish')%R ∧
    (Fish.health fish' <= 82)%R.
Proof.
  destruct (tick_wears_down 10 sample_engine 0 sample_aquarium 1 0
              sample_fish sample_engine_ok (NoDup_singleton 1%Z)
              eq_refl eq_refl eq_refl)
    as (a' & fish' & Ha & Hf & Hclean & Hhunger & Hhealth & _).
  exists a', fish'. repeat split; assumption.
Defined.

Lemma feed_fish_restores_witness :
  ∃ fish',
    fish_for (feed_fish 1 sample_engine) 1 !! 0%nat = Some fish' ∧
    (Fish.hunger fish' < 60)%R ∧ (82 < Fish.health fish')%R.
Proof.
  destruct (feed_fish_restores sample_engine 1 0 sample_fish
              sample_engine_ok eq_refl)
    as (fish' & Hf & _ & _ & Hhunger & Hhealth).
  exists fish'. split; [exact Hf|].
  split; [apply Hhunger|apply Hhealth]; simpl; lra.
Defined.

Lemma create_aquarium_effect_witness :
  ∃ s',
    create_aquarium 5 "Berçário" 24 sample_engine
      = Returns (Aquarium.mk (Some 2%Z) "Berçário" 24 24 90 5) s' ∧
    _aquariums s'
      = [sample_aquarium; Aquarium.mk (Some 2%Z) "Berçário" 24 24 90 5] ∧
    fish_for s' 2 = [] ∧ tasks_for s' 2 = [].
Proof.
  destruct (create_aquarium_effect 5 "Berçário" 24 sample_engine)
    as (s' & Hrun & Hcache & _ & Hfish & Htasks & _).
  exists s'. split; [exact Hrun|]. split; [exact Hcache|].
  split; [exact Hfish|exact Htasks].
Defined.


Lemma remove_fish_effect_witness :
  Database.fish_rows (_database (remove_fish 1 7 sample_engine)) = [] ∧
  fish_for (remove_fish 1 7 sample_engine) 1 = [sample_fish] ∧
  fish_for (remove_fish 1 1 sample_engine) 1 = [].
Proof.
  destruct (remove_fish_effect 1 7 sample_engine) as (_ & Hother & Hrows & _).
  destruct (remove_fish_effect 1 1 sample_engine) as (Hcache & _).
  split; [exact Hrows|]. split; [|exact Hcache].
  apply (Hother 1%Z). lia.
Defined.

Lemma reload_mirrors_store_witness :
  _aquariums (self (reload 9 sample_world)) = [sample_aquarium] ∧
  fish_for (self (reload 9 sample_world)) 1 = [sample_fish] ∧
  _last_tick (self (reload 9 sample_world)) = 9%Z.
Proof.
  destruct (reload_mirrors_store 9 sample_world)
    as (Haq & Hin & _ & Htick & _).
  split; [exact Haq|]. split; [|exact Htick].
  apply (Hin 1%Z). apply list_elem_of_here.
Defined.


Lemma commands_keep_mirror_witness :
  engine_mirror (tick 10 sample_engine) ∧
  engine_mirror (feed_fish 1 sample_engine) ∧
  engine_mirror (remove_fish 1 1 sample_engine).
Proof.
  destruct (commands_keep_mirror sample_engine sample_engine_mirror)
    as (Htick & Hfeed & _ & _ & _ & _ & _ & Hremove).
  split; [apply Htick|]. split; [apply Hfeed|].
  apply Hremove. intros r Hr _. simpl in Hr.
  apply list_elem_of_singleton in Hr as ->. reflexivity.
Defined.

Lemma reload_restores_mirror_witness :
  engine_mirror (self (reload 9 sample_world)) ∧
  engine_mirror (self (delete_aquarium 9 1 sample_world)) ∧
  _aquariums (self (reload 9 sample_world)) = _aquariums sample_engine.
Proof.
  destruct (reload_restores_mirror 9 sample_world) as [Hstore Hmirror].
  destruct (Hstore sample_store_wf) as [Hreload Hdelete].
  destruct (Hmirror sample_engine_mirror) as (_ & _ & Hsame & _).
  split; [exact Hreload|]. split; [apply Hdelete|exact Hsame].
Defined.

Lemma ensure_defaults_seeds_witness :
  ∃ db',
    ensure_defaults 4 (Database.mk [] [] [] 0 0 0 1) = Returns () db' ∧
    ensure_defaults 8 db' = Returns () db' ∧
    Database.aquariums db'
      = [Aquarium.mk (Some 1%Z) "Aquário Principal" 25 25 85
                     (4 - timedelta_days 2)%Z] ∧
    ensure_defaults 8 sample_database = Returns () sample_database.
Proof.
  destruct (ensure_defaults_seeds 4 (Database.mk [] [] [] 0 0 0 1))
    as (db' & Hrun & _ & Hagain & _ & _ & _ & Hnew).
  destruct (ensure_defaults_seeds 8 sample_database)
    as (db2 & Hrun2 & _ & _ & Hsame & _).
  assert (store_wf (Database.mk [] [] [] 0 0 0 1)) as Hwf
    by (unfold store_wf, table_wf; simpl; repeat split; constructor).
  destruct (Hnew Hwf eq_refl) as (Haq & _).
  exists db'. split; [exact Hrun|]. split; [apply Hagain|].
  split; [exact Haq|].
  rewrite Hrun2. f_equal. apply Hsame. discriminate.
Defined.

Lemma bounds_kept_elsewhere_witness :
  engine_ok (self (reload 9 sample_world)) ∧
  engine_ok (self (delete_aquarium 9 1 sample_world)) ∧
  engine_ok (self (state_of (mark_task_done 9 0 sample_world))) ∧
  engine_ok (remove_fish 1 1 sample_engine).
Proof.
  destruct (bounds_kept_elsewhere 9 sample_world) as [Hstore Hengine].
  destruct (Hstore (proj2 (proj2 sample_engine_ok))) as [Hreload Hdelete].
  destruct (Hengine sample_engine_ok) as (_ & Hmark & _ & _ & Hremove).
  split; [exact Hreload|]. split; [apply Hdelete|].
  split; [apply Hmark|apply Hremove].
Defined.

Lemma startup_invariants_witness :
  session_ok
    (__init__ 5 6 (state_of (ensure_defaults 4 (Database.mk [] [] [] 0 0 0 1)))
       []) ∧
  session_ok (__init__ 5 6 (state_of (ensure_defaults 4 sample_database)) []).
Proof.
  assert (store_wf (Database.mk [] [] [] 0 0 0 1)) as Hwf
    by (unfold store_wf, table_wf; simpl; repeat split; constructor).
  assert (store_ok (Database.mk [] [] [] 0 0 0 1)) as Hok
    by (split; constructor).
  split.
  - apply (startup_invariants 4 5 6 (Database.mk [] [] [] 0 0 0 1) [] Hwf Hok).
  - apply (startup_invariants 4 5 6 sample_database [] sample_store_wf
             (proj2 (proj2 sample_engine_ok))).
Defined.

Lemma find_task_get_or_create_witness :
  AquariumWindow._find_task 5 1 "alimentacao" sample_world
    = Returns 0%nat sample_world ∧
  ∃ ref w' task,
    AquariumWindow._find_task 5 1 "limpeza" sample_world = Returns ref w' ∧
    objects w' = [sample_task; task] ∧
    tasks_for (self w') 1 = [0%nat; ref] ∧
    Task.kind task = "limpeza" ∧
    Task.interval_minutes task = 240%Z ∧
    AquariumWindow._find_task 9 1 "limpeza" w' = Returns ref w'.
Proof.
  assert (Database.aquarium_exists (_database (self sample_world)) 1 = true)
    as Hex by reflexivity.
  assert (∀ ref, ref ∈ tasks_for (self sample_world) 1 →
                 is_Some (objects sample_world !! ref)) as Hrefs.
  { intros ref Href. apply list_elem_of_singleton in Href as ->.
    by eexists. }
  split; [reflexivity|].
  destruct (find_task_get_or_create 5 1 "limpeza" sample_world Hex Hrefs)
    as (ref & w' & task & Hrun & _ & _ & Hkind & Hagain & _ & Hnew).
  destruct Hnew as (Htasks & Hobjs & Hint & _).
  { intros ref0 task0 Href0 Hobj0.
    apply list_elem_of_singleton in Href0 as ->.
    injection Hobj0 as <-. discriminate. }
  exists ref, w', task. split; [exact Hrun|]. split; [exact Hobjs|].
  split; [exact Htasks|]. split; [exact Hkind|]. split; [exact Hint|].
  apply Hagain.
Defined.

Lemma handle_add_aquarium_effect_witness :
  ∃ w',
    AquariumWindow._handle_add_aquarium 5 6 7 8 "Berçário" 24 sample_world
      = Returns () w' ∧
    aquariums (self w')
      = [sample_aquarium; Aquarium.mk (Some 2%Z) "Berçário" 24 24 90 5] ∧
    length (tasks_for (self w') 2) = 3%nat.
Proof.
  destruct (handle_add_aquarium_effect 5 6 7 8 "Berçário" 24 sample_world)
    as (w' & Hrun & Haq & _ & Htasks & _).
  exists w'. split; [exact Hrun|]. split; [exact Haq|].
  apply (f_equal length) in Htasks. rewrite length_fmap in Htasks.
  exact Htasks.
Defined.

Lemma handlers_record_the_task_witness :
  (∃ w' ref task,
     AquariumWindow._handle_feed (Some 1%Z) 5 6 sample_world = Returns () w' ∧
     fish_for (self w') 1 = [feed_one sample_fish] ∧
     objects w' !! ref = Some task ∧
     Task.kind task = "alimentacao" ∧ Task.last_run_at task = 6%Z) ∧
  (∃ w' a,
     AquariumWindow._handle_clean (Some 1%Z) 4 5 6 sample_world
       = Returns () w' ∧
     a ∈ aquariums (self w') ∧ Aquarium.cleanliness a = 100%R).
Proof.
  destruct (handlers_record_the_task (Some 1%Z) sample_world 1
              sample_engine_mirror sample_tasks_live eq_refl)
    as [Hfeed Hclean].
  split.
  - destruct (Hfeed 5%Z 6%Z)
      as (w' & ref & task & Hrun & _ & Hfish & _ & Hobj & Hkind & Hlast & _).
    exists w', ref, task. split; [exact Hrun|]. split; [exact Hfish|].
    split; [exact Hobj|]. split; [exact Hkind|exact Hlast].
  - destruct (Hclean 4%Z 5%Z 6%Z)
      as (w' & a & ref & task & Hrun & Ha & _ & Hc & _).
    exists w', a. split; [exact Hrun|]. split; [exact Ha|exact Hc].
Defined.

Lemma window_session_invariant_witness :
  session_ok (AquariumWindow._handle_simulation_tick 10 sample_world) ∧
  session_ok
    (state_of (AquariumWindow._handle_feed (Some 1%Z) 5 6 sample_world)) ∧
  session_ok
    (AquariumWindow._handle_remove_fish (Some 1%Z) 0 true sample_world) ∧
  session_ok
    (AquariumWindow._handle_remove_aquarium (Some 1%Z) true 9 sample_world).
Proof.
  destruct (window_session_invariant sample_world sample_session)
    as (Htick & Hfeed & _ & _ & _ & _ & Hremove & _ & _ & Hdelete).
  split; [apply Htick|]. split; [apply Hfeed|].
  split; [apply Hremove|apply Hdelete].
Defined.

Lemma handle_remove_aquarium_effect_witness :
  AquariumWindow._handle_remove_aquarium (Some 1%Z) true 9 sample_world
    = sample_world.
Proof.
  destruct (handle_remove_aquarium_effect (Some 1%Z) true 9 sample_world
              sample_engine_mirror) as (_ & Hrefuse & _).
  apply Hrefuse. left. simpl. lia.
Defined.

Lemma next_task_label_meaning_witness :
  AquariumWindow.next_task_label 0 [] = AquariumWindow.Dashes ∧
  AquariumWindow.next_task_label (timedelta_minutes 240) [sample_task]
    = AquariumWindow.Agora.
Proof.
  destruct (next_task_label_meaning 0 []) as (Hnone & _).
  destruct (next_task_label_meaning (timedelta_minutes 240) [sample_task])
    as (_ & Hdue & _).
  split; [by apply Hnone|].
  apply Hdue. exists sample_task. split; [apply list_elem_of_here|].
  reflexivity.
Defined.

Lemma mark_task_done_unsaved_witness :
  (∃ w',
     mark_task_done 9 0
       (World [Task.mk None 1 "iluminacao" 60 0] sample_engine)
       = Returns () w' ∧
     objects w' = [Task.mk (Some 2%Z) 1 "iluminacao" 60 9] ∧
     Database.tasks_rows (_database (self w'))
       = [sample_task; Task.mk (Some 2%Z) 1 "iluminacao" 60 9] ∧
     tasks_for (self w') 1 = [0%nat]) ∧
  mark_task_done 9 0
    (World [Task.mk None 7 "iluminacao" 60 0] sample_engine)
    = Raises IntegrityError
        (World [Task.mk None 7 "iluminacao" 60 0] sample_engine).
Proof.
  destruct (mark_task_done_unsaved 9 0
              (World [Task.mk None 1 "iluminacao" 60 0] sample_engine)
              (Task.mk None 1 "iluminacao" 60 0)
              sample_store_wf eq_refl eq_refl) as [_ Hknown].
  destruct (mark_task_done_unsaved 9 0
              (World [Task.mk None 7 "iluminacao" 60 0] sample_engine)
              (Task.mk None 7 "iluminacao" 60 0)
              sample_store_wf eq_refl eq_refl) as [Hunknown _].
  destruct (Hknown eq_refl) as (w' & Hrun & Hobjs & Hrows & _ & Htasks & _).
  split; [|apply Hunknown; reflexivity].
  exists w'. split; [exact Hrun|]. split; [exact Hobjs|].
  split; [exact Hrows|]. unfold tasks_for. rewrite Htasks. reflexivity.
Defined.
